(** * repo-explorer: cache manager and search handler

    A shallow embedding of the cache and search subsystem of repo-explorer
    (cacheManager.ts and the [search_code] tool handler of index.ts), and the
    properties of it that the specification states.  Further parts embed
    other code of the repository: the class-body scan of
    analyzeCodeStructure, the resource URIs, loadConfig and saveConfig, the
    searchCode of index.ts, and cloneRepo with the clone loop of
    create_reference_repos.

    Conventions of the embedding.
    - A JavaScript string is a [string]: a sequence of code units below 256.
    - A plain object used as a dictionary is a [JsObj]: the list of its own
      properties in insertion order, read through [get], which also sees the
      names inherited from [Object.prototype].
    - Code that can throw returns an [Outcome]; a [try]/[catch] is a match on
      it.  Objects that the source mutates in place are threaded as state, so
      the updates made before a throw are kept, as they are in the source.
    - The file system, git and the regular-expression engine are observations
      recorded in a [WorkTree], a [CacheDir] and a [Runtime]. *)

From Stdlib Require Import List String Ascii Bool Arith NArith ZArith Lia.
Import ListNotations.
Open Scope string_scope.
Open Scope nat_scope.
Open Scope list_scope.

(** ** Strings *)

Module Js.

Definition code (c : ascii) : nat := nat_of_ascii c.

Definition inRange (lo hi : nat) (c : ascii) : bool :=
  (lo <=? code c) && (code c <=? hi).

(** [A-Z], [a-z], [0-9] *)
Definition isUpper (c : ascii) : bool := inRange 65 90 c.
Definition isLower (c : ascii) : bool := inRange 97 122 c.
Definition isDigit (c : ascii) : bool := inRange 48 57 c.

(** [a-zA-Z_$] and [a-zA-Z0-9_$] *)
Definition identStart (c : ascii) : bool :=
  isUpper c || isLower c || Ascii.eqb c "_" || Ascii.eqb c "$".
Definition identChar (c : ascii) : bool := identStart c || isDigit c.

Definition toLowerChar (c : ascii) : ascii :=
  if isUpper c then ascii_of_nat (code c + 32) else c.

(** [s.toLowerCase()] *)
Fixpoint toLowerCase (s : string) : string :=
  match s with
  | EmptyString => EmptyString
  | String c s' => String (toLowerChar c) (toLowerCase s')
  end.

(** [s + c] for one code unit [c] *)
Definition snoc (s : string) (c : ascii) : string :=
  (s ++ String c EmptyString)%string.

(** [s.startsWith(p)] *)
Fixpoint startsWith (p s : string) : bool :=
  match p, s with
  | EmptyString, _ => true
  | String _ _, EmptyString => false
  | String a p', String b s' => Ascii.eqb a b && startsWith p' s'
  end.

(** [s.includes(p)] *)
Fixpoint includes (p s : string) : bool :=
  startsWith p s ||
  match s with
  | EmptyString => false
  | String _ s' => includes p s'
  end.

(** [s.endsWith(p)] *)
Fixpoint endsWith (p s : string) : bool :=
  String.eqb p s ||
  match s with
  | EmptyString => false
  | String _ s' => endsWith p s'
  end.

(** [s.split(sep)] for a one-character separator; [cur] is the piece being
    read.  The result is never empty: [''.split(sep)] is [['']]. *)
Fixpoint splitAcc (sep : ascii) (cur s : string) : list string :=
  match s with
  | EmptyString => [cur]
  | String c s' =>
      if Ascii.eqb c sep then cur :: splitAcc sep EmptyString s'
      else splitAcc sep (snoc cur c) s'
  end.
Definition split (sep : ascii) (s : string) : list string :=
  splitAcc sep EmptyString s.

Definition newline : ascii := ascii_of_nat 10.

(** [s.split(/(?=[A-Z])/)]: a new piece starts before every upper-case
    letter, except at index 0, where the empty match is skipped. *)
Fixpoint splitUpperAcc (cur s : string) : list string :=
  match s with
  | EmptyString => [cur]
  | String c s' =>
      if isUpper c && negb (String.eqb cur EmptyString)
      then cur :: splitUpperAcc (String c EmptyString) s'
      else splitUpperAcc (snoc cur c) s'
  end.
Definition splitUpper (s : string) : list string :=
  splitUpperAcc EmptyString s.

(** [line.match(/[a-zA-Z_$][a-zA-Z0-9_$]*/g) || []]: the maximal
    identifier-shaped runs, left to right.  [cur] is the run being read. *)
Fixpoint matchIdentsAcc (cur : option string) (s : string) : list string :=
  match s with
  | EmptyString => match cur with Some t => [t] | None => [] end
  | String c s' =>
      match cur with
      | Some t =>
          if identChar c then matchIdentsAcc (Some (snoc t c)) s'
          else t :: matchIdentsAcc None s'
      | None =>
          if identStart c
          then matchIdentsAcc (Some (String c EmptyString)) s'
          else matchIdentsAcc None s'
      end
  end.
Definition matchIdents (s : string) : list string := matchIdentsAcc None s.

(** White space of [String.prototype.trim] among the code units below 256. *)
Definition isSpace (c : ascii) : bool :=
  inRange 9 13 c || (code c =? 32) || (code c =? 160).

Fixpoint trimStart (s : string) : string :=
  match s with
  | EmptyString => EmptyString
  | String c s' => if isSpace c then trimStart s' else s
  end.

(** Drops the white space at the end: a character is kept when it is not white
    space or when something is kept after it. *)
Fixpoint trimEnd (s : string) : string :=
  match s with
  | EmptyString => EmptyString
  | String c s' =>
      match trimEnd s' with
      | EmptyString => if isSpace c then EmptyString else String c EmptyString
      | r => String c r
      end
  end.

Definition trim (s : string) : string := trimEnd (trimStart s).

End Js.

(** ** Plain objects used as dictionaries *)

Module JsObj.

(** Own enumerable properties, in insertion order ([Object.keys] order for
    keys that are not integer-like), each key once. *)
Definition t (V : Type) : Type := list (string * V).

(** The property names every plain object inherits from [Object.prototype]. *)
Definition prototypeKeys : list string :=
  [ "constructor"; "toString"; "toLocaleString"; "valueOf"; "hasOwnProperty";
    "isPrototypeOf"; "propertyIsEnumerable"; "__proto__";
    "__defineGetter__"; "__defineSetter__"; "__lookupGetter__";
    "__lookupSetter__" ].

Definition inherited (k : string) : bool :=
  existsb (String.eqb k) prototypeKeys.

(** What [obj[k]] evaluates to: an own value, a value inherited from the
    prototype (a function or [Object.prototype], truthy, not an array), or
    [undefined]. *)
Inductive Lookup (V : Type) : Type :=
| Own (v : V)
| Proto
| Undefined.
Arguments Own {V} v.
Arguments Proto {V}.
Arguments Undefined {V}.

Fixpoint own {V} (o : t V) (k : string) : option V :=
  match o with
  | [] => None
  | (k', v) :: o' => if String.eqb k' k then Some v else own o' k
  end.

Definition get {V} (o : t V) (k : string) : Lookup V :=
  match own o k with
  | Some v => Own v
  | None => if inherited k then Proto else Undefined
  end.

(** [obj[k] = v] for a key that is not [__proto__]: replaces an own property
    in place, or appends a new one. *)
Fixpoint set {V} (o : t V) (k : string) (v : V) : t V :=
  match o with
  | [] => [(k, v)]
  | (k', v') :: o' =>
      if String.eqb k' k then (k, v) :: o' else (k', v') :: set o' k v
  end.

(** [Object.keys(obj)] *)
Definition keys {V} (o : t V) : list string := map fst o.

End JsObj.

(** ** Throwing code *)

(** The state reached, and whether the code returned or threw there. *)
Inductive Outcome (S : Type) : Type :=
| Done (s : S)
| Thrown (s : S).
Arguments Done {S} s.
Arguments Thrown {S} s.

Definition stateOf {S} (o : Outcome S) : S :=
  match o with Done s | Thrown s => s end.

(** A [for ... of] loop whose body can throw: the first throw leaves the loop. *)
Fixpoint forEach {A S} (body : A -> S -> Outcome S) (l : list A) (s : S)
  : Outcome S :=
  match l with
  | [] => Done s
  | a :: l' =>
      match body a s with
      | Done s' => forEach body l' s'
      | Thrown s' => Thrown s'
      end
  end.

(** ** Cache documents *)

Module Posting.
Record t : Type := mk
  { file : string;
    occurrences : nat;
    positions : list nat (* 1-based line numbers *) }.
End Posting.

Record SearchIndex : Type := mkSearchIndex
  { exactTerms : JsObj.t (list Posting.t);
    terms : JsObj.t (list Posting.t) }.

(** An entry of [structure.files]; the language label is not modelled. *)
Record FileInfo : Type := mkFileInfo
  { size : N;
    lastModified : string }.

Record DirInfo : Type := mkDirInfo
  { dirFiles : list string;
    subdirectories : list string }.

Record FileStructure : Type := mkFileStructure
  { directories : JsObj.t DirInfo;
    files : JsObj.t FileInfo }.

(** ** The environment *)

(** What the file system and git answer for one repository's working tree.
    Every field is one observation, so a tree that changes while a query runs
    is a [WorkTree] whose fields disagree (for instance [pathExists] is true
    and every [readFile] fails). *)
Record WorkTree : Type := mkWorkTree
  { pathExists : bool;                        (* fs.pathExists(repoPath) *)
    globby : string -> option (list string);
      (* globby([glob], {cwd, gitignore: true, dot: false}), [None]: rejected *)
    stat : string -> option (N * string);     (* size and mtime, [None]: throws *)
    readFile : string -> option string;       (* utf-8 content, [None]: throws *)
    readDirectories : option (JsObj.t DirInfo);
      (* the directory pass of scanFileStructure, [None]: readdir or stat throws *)
    revparseHEAD : option string              (* git rev-parse HEAD, [None]: throws *) }.

(** ** buildSearchIndex *)

(** [/\.(js|jsx|ts|...|sh)$/i.test(file)] *)
Definition indexedExtensions : list string :=
  [ "js"; "jsx"; "ts"; "tsx"; "java"; "kt"; "swift"; "c"; "cpp"; "h"; "py";
    "rb"; "go"; "rs"; "php"; "html"; "css"; "md"; "json"; "yml"; "yaml";
    "xml"; "sh" ].

Definition hasIndexedExtension (file : string) : bool :=
  existsb (fun ext => Js.endsWith (String "." ext) (Js.toLowerCase file))
          indexedExtensions.

(** [/^(the|and|for|...|export)$/i.test(term)] *)
Definition stopWords : list string :=
  [ "the"; "and"; "for"; "function"; "var"; "let"; "const"; "if"; "else";
    "while"; "return"; "this"; "new"; "try"; "catch"; "class"; "import";
    "export" ].

Definition isStopWord (term : string) : bool :=
  existsb (String.eqb (Js.toLowerCase term)) stopWords.

(** [postings.find(e => e.file === file)] *)
Fixpoint findEntry (file : string) (postings : list Posting.t)
  : option Posting.t :=
  match postings with
  | [] => None
  | e :: rest =>
      if String.eqb (Posting.file e) file then Some e else findEntry file rest
  end.

(** The in-place update of the entry that [find] returns. *)
Fixpoint updateEntry (file : string) (upd : Posting.t -> Posting.t)
  (postings : list Posting.t) : list Posting.t :=
  match postings with
  | [] => []
  | e :: rest =>
      if String.eqb (Posting.file e) file then upd e :: rest
      else e :: updateEntry file upd rest
  end.

(** [entry.occurrences++; entry.positions.push(i + 1)] *)
Definition bumpExact (lineNo : nat) (e : Posting.t) : Posting.t :=
  Posting.mk (Posting.file e) (Posting.occurrences e + 1)
             (Posting.positions e ++ [lineNo]).

(** [entry.occurrences++;
     if (!entry.positions.includes(i + 1)) entry.positions.push(i + 1)] *)
Definition bumpTerm (lineNo : nat) (e : Posting.t) : Posting.t :=
  Posting.mk (Posting.file e) (Posting.occurrences e + 1)
             (if existsb (Nat.eqb lineNo) (Posting.positions e)
              then Posting.positions e
              else Posting.positions e ++ [lineNo]).

(** [if (!obj[k]) obj[k] = []]: an inherited value is truthy and is left. *)
Definition ensureList (o : JsObj.t (list Posting.t)) (k : string)
  : JsObj.t (list Posting.t) :=
  match JsObj.get o k with
  | JsObj.Undefined => JsObj.set o k []
  | _ => o
  end.

(** The search index being built, and the [processedTerms] set of the file
    being read. *)
Definition IndexPass : Type := SearchIndex * list string.

Definition termFileKey (term file : string) : string :=
  (term ++ ":" ++ file)%string.

(** Lines 426-447: the update of [exactTerms] for one identifier.  On an
    inherited key, [push] (and [find]) is not a function and the call throws. *)
Definition indexExactTerm (file : string) (lineNo : nat) (term : string)
  (pass : IndexPass) : Outcome IndexPass :=
  let '(idx, processedTerms) := pass in
  let exact := ensureList (exactTerms idx) term in
  match JsObj.get exact term with
  | JsObj.Own postings =>
      if negb (existsb (String.eqb (termFileKey term file)) processedTerms)
      then
        Done (mkSearchIndex
                (JsObj.set exact term (postings ++ [Posting.mk file 1 [lineNo]]))
                (terms idx),
              termFileKey term file :: processedTerms)
      else
        match findEntry file postings with
        | Some _ =>
            Done (mkSearchIndex
                    (JsObj.set exact term
                       (updateEntry file (bumpExact lineNo) postings))
                    (terms idx),
                  processedTerms)
        | None => Done (mkSearchIndex exact (terms idx), processedTerms)
        end
  | _ => Thrown (mkSearchIndex exact (terms idx), processedTerms)
  end.

(** Lines 450-452: the camelCase and snake_case pieces longer than 2. *)
Definition subTermsOf (term : string) : list string :=
  filter (fun t => 2 <? String.length t) (Js.splitUpper term)
  ++ filter (fun t => 2 <? String.length t) (Js.split "_" term).

(** Lines 454-472: the update of [terms] for one piece. *)
Definition indexSubTerm (file : string) (lineNo : nat) (subTerm : string)
  (tm : JsObj.t (list Posting.t)) : Outcome (JsObj.t (list Posting.t)) :=
  let k := Js.toLowerCase subTerm in
  let tm1 := ensureList tm k in
  match JsObj.get tm1 k with
  | JsObj.Own postings =>
      match findEntry file postings with
      | Some _ =>
          Done (JsObj.set tm1 k (updateEntry file (bumpTerm lineNo) postings))
      | None =>
          Done (JsObj.set tm1 k (postings ++ [Posting.mk file 1 [lineNo]]))
      end
  | _ => Thrown tm1
  end.

(** The body of [for (const term of identifiers)]. *)
Definition indexTerm (file : string) (lineNo : nat) (term : string)
  (pass : IndexPass) : Outcome IndexPass :=
  if (String.length term <? 3) || isStopWord term then Done pass
  else
    match indexExactTerm file lineNo term pass with
    | Thrown p => Thrown p
    | Done (idx, processedTerms) =>
        match forEach (indexSubTerm file lineNo) (subTermsOf term) (terms idx) with
        | Done tm => Done (mkSearchIndex (exactTerms idx) tm, processedTerms)
        | Thrown tm => Thrown (mkSearchIndex (exactTerms idx) tm, processedTerms)
        end
    end.

(** The lines of a file with their 1-based numbers. *)
Definition numbered (lines : list string) : list (nat * string) :=
  combine (seq 1 (List.length lines)) lines.

(** The body of [for (let i = 0; i < lines.length; i++)]. *)
Definition indexLine (file : string) (l : nat * string) (pass : IndexPass)
  : Outcome IndexPass :=
  forEach (indexTerm file (fst l)) (Js.matchIdents (snd l)) pass.

(** The body of [for (const [file, info] of Object.entries(structure.files))]:
    the two filters, then the [try] block, whose [catch] keeps what was
    indexed before the throw. *)
Definition indexFile (tree : WorkTree) (entry : string * FileInfo)
  (idx : SearchIndex) : SearchIndex :=
  let '(file, info) := entry in
  if (1024 * 1024 <? size info)%N then idx
  else if negb (hasIndexedExtension file) then idx
  else
    match readFile tree file with
    | None => idx
    | Some content =>
        fst (stateOf (forEach (indexLine file)
                              (numbered (Js.split Js.newline content))
                              (idx, [])))
    end.

Definition buildSearchIndex (tree : WorkTree) (structure : FileStructure)
  : SearchIndex :=
  fold_left (fun idx entry => indexFile tree entry idx) (files structure)
            (mkSearchIndex [] []).

(** ** The cache directory and isCacheValid *)

(** A parsed JSON document. *)
#[local] Unset Elimination Schemes.
Inductive Json : Type :=
| JNull
| JBool (b : bool)
| JNumber (n : N)
| JString (s : string)
| JArray (items : list Json)
| JObject (members : JsObj.t Json).
#[local] Set Elimination Schemes.

(** A document of the cache directory as the readers see it: no file at the
    path, a file whose read or [JSON.parse] throws, or the parsed value. *)
Inductive Doc (A : Type) : Type :=
| NoFile
| BadFile
| Parsed (a : A).
Arguments NoFile {A}.
Arguments BadFile {A}.
Arguments Parsed {A} a.

(** The two documents that the search path reads.  A parsed
    [searchIndex.json] is one that has the shape of a [SearchIndex]. *)
Record CacheDir : Type := mkCacheDir
  { metadataDoc : Doc Json;
    searchIndexDoc : Doc SearchIndex }.

(** [metadata.lastCommitHash]: [None] when the access throws (the document is
    [null]); otherwise the member, when it is a string. *)
Definition readLastCommitHash (metadata : Json) : option (option string) :=
  match metadata with
  | JNull => None
  | JObject members =>
      match JsObj.own members "lastCommitHash" with
      | Some (JString h) => Some (Some h)
      | _ => Some None
      end
  | _ => Some None
  end.

(** The [try] block of isCacheValid; [None] when it throws. *)
Definition isCacheValidTry (cache : CacheDir) (tree : WorkTree) : option bool :=
  match metadataDoc cache with
  | NoFile => Some false
  | BadFile => None
  | Parsed metadata =>
      match revparseHEAD tree with
      | None => None
      | Some out =>
          let currentHash := Js.trim out in
          match readLastCommitHash metadata with
          | None => None
          | Some (Some h) => Some (String.eqb h currentHash)
          | Some None => Some false
          end
      end
  end.

Definition isCacheValid (cache : CacheDir) (tree : WorkTree) : bool :=
  match isCacheValidTry cache tree with
  | Some b => b
  | None => false (* Any error means cache is invalid *)
  end.

(** ** buildRepoCache *)

(** scanFileStructure: the files of [globby(['**/*'], ...)] with their size
    and modification time, then the directory pass.  [None] when it throws.
    The assignment [structure.files[file] = ...] creates no own property for
    a file named [__proto__]. *)
Fixpoint scanFiles (tree : WorkTree) (fileList : list string)
  (acc : JsObj.t FileInfo) : option (JsObj.t FileInfo) :=
  match fileList with
  | [] => Some acc
  | file :: rest =>
      match stat tree file with
      | None => None
      | Some (sz, mtime) =>
          scanFiles tree rest
            (if String.eqb file "__proto__" then acc
             else JsObj.set acc file (mkFileInfo sz mtime))
      end
  end.

Definition scanFileStructure (tree : WorkTree) : option FileStructure :=
  match globby tree "**/*" with
  | None => None
  | Some fileList =>
      match scanFiles tree fileList [] with
      | None => None
      | Some fs =>
          match readDirectories tree with
          | None => None
          | Some dirs => Some (mkFileStructure dirs fs)
          end
      end
  end.

Record RepoStats : Type := mkRepoStats
  { totalFiles : nat;
    totalSize : N;
    directoryCount : nat }.

Record RepoMetadata : Type := mkRepoMetadata
  { lastCommitHash : string;
    lastScanned : string;
    stats : RepoStats }.

(** getRepositoryMetadata, without the per-language counts and the
    package.json summary; [None] when [git rev-parse] throws. *)
Definition getRepositoryMetadata (now : string) (tree : WorkTree)
  (structure : FileStructure) : option RepoMetadata :=
  match revparseHEAD tree with
  | None => None
  | Some out =>
      Some (mkRepoMetadata (Js.trim out) now
              (mkRepoStats
                 (List.length (files structure))
                 (fold_left (fun sum e => (sum + size (snd e))%N)
                            (files structure) 0%N)
                 (List.length (directories structure))))
  end.

(** What [JSON.parse] reads back from [JSON.stringify(cache.metadata)]. *)
Definition metadataJson (m : RepoMetadata) : Json :=
  JObject
    [ ("lastCommitHash", JString (lastCommitHash m));
      ("lastScanned", JString (lastScanned m));
      ("stats",
       JObject
         [ ("totalFiles", JNumber (N.of_nat (totalFiles (stats m))));
           ("totalSize", JNumber (totalSize (stats m)));
           ("directoryCount", JNumber (N.of_nat (directoryCount (stats m)))) ]) ].

(** The outcome of the writes of saveRepoCache: [ensureDir], then one
    [writeFile] per document. *)
Record DiskWrites : Type := mkDiskWrites
  { ensureDir : bool;
    writeFile : string -> bool }.

Definition cacheDocuments : list string :=
  [ "metadata.json"; "structure.json"; "searchIndex.json"; "codeStructure.json" ].

(** saveRepoCache: the four writes are independent, so a failed save can
    leave some documents replaced.  The flag tells whether it returned. *)
Definition saveRepoCache (disk : DiskWrites) (cache : CacheDir)
  (metadata : RepoMetadata) (searchIndex : SearchIndex) : CacheDir * bool :=
  if negb (ensureDir disk) then (cache, false)
  else
    (mkCacheDir
       (if writeFile disk "metadata.json"
        then Parsed (metadataJson metadata) else metadataDoc cache)
       (if writeFile disk "searchIndex.json"
        then Parsed searchIndex else searchIndexDoc cache),
     forallb (writeFile disk) cacheDocuments).

(** buildRepoCache: the cache directory afterwards, and whether a cache was
    returned ([false] is the [null] of the [catch]).  analyzeCodeStructure
    catches its own errors and is not modelled. *)
Definition buildRepoCache (now : string) (disk : DiskWrites) (tree : WorkTree)
  (cache : CacheDir) : CacheDir * bool :=
  match scanFileStructure tree with
  | None => (cache, false)
  | Some structure =>
      let searchIndex := buildSearchIndex tree structure in
      match getRepositoryMetadata now tree structure with
      | None => (cache, false)
      | Some metadata => saveRepoCache disk cache metadata searchIndex
      end
  end.

(** ** Search results *)

Module ContextLine.
Record t : Type := mk
  { line : nat;
    text : string;
    isMatch : bool }.
End ContextLine.

Module SearchMatch.
Record t : Type := mk
  { line : nat;
    content : string;
    context : list ContextLine.t }.
End SearchMatch.

Module SearchResult.
Record t : Type := mk
  { category : string;
    repo : string;
    file : string;
    matches : list SearchMatch.t }.
End SearchResult.

(** [l.slice(from, to)] *)
Definition slice {A} (from to : nat) (l : list A) : list A :=
  firstn (to - from) (skipn from l).

(** [l.map((x, idx) => f(idx, x))], counting from [i] *)
Fixpoint mapIdx {A B} (f : nat -> A -> B) (i : nat) (l : list A) : list B :=
  match l with
  | [] => []
  | x :: l' => f i x :: mapIdx f (S i) l'
  end.

(** The match record for the 0-based line [line] of [lines], with its window
    of three lines before and after. *)
Definition matchAt (lines : list string) (line : nat) : SearchMatch.t :=
  let start := Nat.max 0 (line - 3) in
  let end_ := Nat.min (List.length lines - 1) (line + 3) in
  SearchMatch.mk (line + 1) (nth line lines EmptyString)
    (mapIdx (fun idx text =>
               ContextLine.mk (start + idx + 1) text (start + idx =? line))
            0 (slice start (end_ + 1) lines)).

(** ** searchCodeWithCache *)

(** The regular-expression engine: [new RegExp(source, flags)] with the [i]
    flag or none, as the [test] function of the expression, or [None] when
    the constructor throws. *)
Record Runtime : Type := mkRuntime
  { newRegExp : string -> bool -> option (string -> bool) }.

Record RepoState : Type := mkRepoState
  { tree : WorkTree;
    cache : CacheDir }.

(** The state of every configured repository, by category and name. *)
Definition World : Type := string -> string -> RepoState.

Record RepoConfig : Type := mkRepoConfig
  { url : string;
    description : string }.

Definition RepoStructure : Type := JsObj.t (JsObj.t RepoConfig).

(** [filePattern.replace(/\*/g, '.*')] *)
Fixpoint replaceStars (s : string) : string :=
  match s with
  | EmptyString => EmptyString
  | String c s' =>
      if Ascii.eqb c "*" then String "." (String "*" (replaceStars s'))
      else String c (replaceStars s')
  end.

(** The file-pattern filter of the cached paths: [None] when [new RegExp]
    throws. *)
Definition fileMatches (rt : Runtime) (filePattern file : string)
  : option bool :=
  if String.eqb filePattern "*" then Some true
  else
    match newRegExp rt (replaceStars filePattern) false with
    | None => None
    | Some test => Some (test file)
    end.

(** One result per recorded position that is a line of the file. *)
Definition positionResults (category repo file : string) (lines : list string)
  (positions : list nat) : list SearchResult.t :=
  flat_map
    (fun position =>
       match position with
       | 0 => []
       | S line =>
           if line <? List.length lines
           then [SearchResult.mk category repo file [matchAt lines line]]
           else []
       end)
    positions.

(** The body of [for (const match of postings)], lines 977-1022 and
    1032-1073: a failed read is caught, a failed [new RegExp] is not. *)
Definition emitPosting (rt : Runtime) (tr : WorkTree)
  (category repo filePattern : string) (p : Posting.t)
  (results : list SearchResult.t) : Outcome (list SearchResult.t) :=
  match fileMatches rt filePattern (Posting.file p) with
  | None => Thrown results
  | Some false => Done results
  | Some true =>
      match readFile tr (Posting.file p) with
      | None => Done results
      | Some content =>
          Done (results ++
                positionResults category repo (Posting.file p)
                  (Js.split Js.newline content) (Posting.positions p))
      end
  end.

(** Lines 976-1023.  An inherited value is truthy and not iterable. *)
Definition exactLookup (rt : Runtime) (tr : WorkTree)
  (category repo pattern filePattern : string) (idx : SearchIndex)
  (results : list SearchResult.t) : Outcome (list SearchResult.t) :=
  match JsObj.get (exactTerms idx) pattern with
  | JsObj.Undefined => Done results
  | JsObj.Proto => Thrown results
  | JsObj.Own postings =>
      forEach (emitPosting rt tr category repo filePattern) postings results
  end.

(** Lines 1027-1078, the [try] block and its [catch]. *)
Definition fuzzyLookup (rt : Runtime) (tr : WorkTree)
  (category repo pattern filePattern : string) (idx : SearchIndex)
  (results : list SearchResult.t) : list SearchResult.t :=
  match newRegExp rt pattern true with
  | None => results
  | Some test =>
      stateOf
        (forEach
           (fun (entry : string * list Posting.t) res =>
              if test (fst entry)
              then forEach (emitPosting rt tr category repo filePattern)
                           (snd entry) res
              else Done res)
           (terms idx) results)
  end.

(** Whether line 1026 lets the fuzzy lookup run: [results] is the list of
    the whole query. *)
Definition fuzzyAttempted (results : list SearchResult.t) : bool :=
  List.length results =? 0.

(** Lines 974-1080. *)
Definition searchCached (rt : Runtime) (tr : WorkTree)
  (category repo pattern filePattern : string) (idx : SearchIndex)
  (results : list SearchResult.t) : Outcome (list SearchResult.t) :=
  match exactLookup rt tr category repo pattern filePattern idx results with
  | Thrown r => Thrown r
  | Done r =>
      if fuzzyAttempted r
      then Done (fuzzyLookup rt tr category repo pattern filePattern idx r)
      else Done r
  end.

(** The lines of a file that contain the pattern, lines 1098-1115. *)
Definition matchingLines (pattern : string) (lines : list string)
  : list SearchMatch.t :=
  flat_map
    (fun i => if Js.includes pattern (nth i lines EmptyString)
              then [matchAt lines i] else [])
    (seq 0 (List.length lines)).

(** The body of [for (const file of files)], lines 1092-1129. *)
Definition scanFile (tr : WorkTree) (category repo pattern file : string)
  (results : list SearchResult.t) : list SearchResult.t :=
  match readFile tr file with
  | None => results
  | Some content =>
      match matchingLines pattern (Js.split Js.newline content) with
      | [] => results
      | ms => results ++ [SearchResult.mk category repo file ms]
      end
  end.

(** The body of [for (const repo of repos)], lines 963-1135, on the [results]
    array of the query.  The timer that a fallback scan sets up for a
    background rebuild fires after the function has returned and is not part
    of its result. *)
Definition searchRepo (rt : Runtime) (world : World)
  (pattern filePattern category repo : string) (results : list SearchResult.t)
  : Outcome (list SearchResult.t) :=
  let st := world category repo in
  if negb (pathExists (tree st)) then Done results
  else if isCacheValid (cache st) (tree st) then
    match searchIndexDoc (cache st) with
    | Parsed idx =>
        searchCached rt (tree st) category repo pattern filePattern idx results
    | _ => Done results
    end
  else
    match globby (tree st) (String.append "**/" filePattern) with
    | None => Thrown results
    | Some fileList =>
        Done (fold_left (fun res file =>
                           scanFile (tree st) category repo pattern file res)
                        fileList results)
    end.

(** An optional string argument used as a condition: absent and [''] are
    falsy. *)
Definition truthy (o : option string) : option string :=
  match o with
  | Some EmptyString => None
  | _ => o
  end.

(** The repositories searched in a category: the filter when there is one,
    else the keys of the category's entry. *)
Definition reposOf (repoFilter : option string)
  (found : JsObj.Lookup (JsObj.t RepoConfig)) : list string :=
  match truthy repoFilter with
  | Some r => [r]
  | None =>
      match found with
      | JsObj.Own cfg => JsObj.keys cfg
      | _ => []
      end
  end.

(** The body of [for (const category of categories)], lines 955-1136. *)
Definition searchCategory (rt : Runtime) (world : World)
  (pattern filePattern : string) (repoFilter : option string)
  (repoConfig : RepoStructure) (category : string)
  (results : list SearchResult.t) : Outcome (list SearchResult.t) :=
  match JsObj.get repoConfig category with
  | JsObj.Undefined => Done results
  | found =>
      forEach (searchRepo rt world pattern filePattern category)
              (reposOf repoFilter found) results
  end.

(** The [try] block of searchCodeWithCache. *)
Definition searchRun (rt : Runtime) (world : World)
  (pattern filePattern : string) (categoryFilter repoFilter : option string)
  (repoConfig : RepoStructure) : Outcome (list SearchResult.t) :=
  let categories :=
    match truthy categoryFilter with
    | Some c => [c]
    | None => JsObj.keys repoConfig
    end in
  forEach (searchCategory rt world pattern filePattern repoFilter repoConfig)
          categories [].

(** searchCodeWithCache: the [catch] returns the empty list. *)
Definition searchCodeWithCache (rt : Runtime) (world : World)
  (pattern filePattern : string) (categoryFilter repoFilter : option string)
  (repoConfig : RepoStructure) : list SearchResult.t :=
  match searchRun rt world pattern filePattern categoryFilter repoFilter
                  repoConfig with
  | Done results => results
  | Thrown _ => []
  end.

(** ** The search_code tool *)

Module SearchArgs.
Record t : Type := mk
  { pattern : option string;
    filePattern : option string;
    category : option string;
    repo : option string }.
End SearchArgs.

(** The response of a tool call: the JSON text of the value returned, or an
    error message. *)
Inductive ToolResponse : Type :=
| TextContent (payload : list SearchResult.t)
| ErrorContent (message : string).

(** The [search_code] case of the CallTool handler, index.ts lines 671-697. *)
Definition search_code (rt : Runtime) (world : World)
  (repositories : RepoStructure) (args : SearchArgs.t) : ToolResponse :=
  match truthy (SearchArgs.pattern args) with
  | None => ErrorContent "Error: Search pattern is required"
  | Some pattern =>
      let filePattern :=
        match truthy (SearchArgs.filePattern args) with
        | Some p => p
        | None => "*"
        end in
      TextContent
        (searchCodeWithCache rt world pattern filePattern
           (SearchArgs.category args) (SearchArgs.repo args) repositories)
  end.

(** ** analyzeCodeStructure: the body of a class *)

(** [content.slice(n)] *)
Fixpoint sliceFrom (n : nat) (s : string) : string :=
  match n, s with
  | 0, _ => s
  | S _, EmptyString => EmptyString
  | S n', String _ s' => sliceFrom n' s'
  end.

(** The loop [for (let i = classStartIndex; i < content.length; i++)] of
    lines 564-573, on the characters [rest] from index [i] on: the index at
    which it breaks, if it does.  [braceCount] is a number and goes below
    zero when a closing brace comes first. *)
Fixpoint findClassEnd (rest : string) (i : nat) (braceCount : Z) : option nat :=
  match rest with
  | EmptyString => None
  | String ch rest' =>
      if Ascii.eqb ch "{" then findClassEnd rest' (S i) (braceCount + 1)
      else if Ascii.eqb ch "}" then
        if (braceCount - 1 =? 0)%Z then Some i
        else findClassEnd rest' (S i) (braceCount - 1)
      else findClassEnd rest' (S i) braceCount
  end.

(** [classEndIndex] after the loop: it stays at [classStartIndex] when the
    loop does not break. *)
Definition classEndIndex (content : string) (classStartIndex : nat) : nat :=
  match findClassEnd (sliceFrom classStartIndex content) classStartIndex 0 with
  | Some i => i
  | None => classStartIndex
  end.

(** [content.substring(classStartIndex, classEndIndex)] *)
Definition classBody (content : string) (classStartIndex : nat) : string :=
  String.substring classStartIndex
                   (classEndIndex content classStartIndex - classStartIndex)
                   content.

(** ** Repositories as resources *)

(** The [uri] under which ListResources lists a repository, index.ts
    line 349. *)
Definition resourceUri (category repo : string) : string :=
  String.append "repo://"
                (String.append category (String.append "/" repo)).

(** [uri.match(/^repo:\/\/([^\/]+)\/([^\/]+)$/)] of ReadResource: the two
    groups, or [None] when the expression does not match.  After the prefix
    the text must be two non-empty pieces around its only slash. *)
Definition matchRepoUri (uri : string) : option (string * string) :=
  if Js.startsWith "repo://" uri then
    match Js.split "/" (sliceFrom 7 uri) with
    | [category; repo] =>
        if negb (String.eqb category EmptyString)
           && negb (String.eqb repo EmptyString)
        then Some (category, repo)
        else None
    | _ => None
    end
  else None.

(** ** The configuration file *)

Record Config : Type := mkConfig
  { repoBaseDir : string;
    repositories : RepoStructure }.

(** [defaultConfig.repositories] *)
Definition defaultRepositories : RepoStructure :=
  [ ("nostr",
     [ ("ndk", mkRepoConfig "https://github.com/nostr-dev-kit/ndk"
                            "Nostr Development Kit");
       ("ndk-mobile", mkRepoConfig "https://github.com/nostr-dev-kit/ndk-mobile"
                                   "NDK for mobile platforms");
       ("nips", mkRepoConfig "https://github.com/nostr-protocol/nips"
                             "Nostr Implementation Possibilities");
       ("olas", mkRepoConfig "https://github.com/pablof7z/olas"
                             "Olas - Nostr-based platform") ]);
    ("databases",
     [ ("watermelondb",
        mkRepoConfig "https://github.com/Nozbe/WatermelonDB"
          "High-performance reactive database for React & React Native") ]);
    ("react-native",
     [ ("core", mkRepoConfig "https://github.com/facebook/react-native"
                             "React Native core");
       ("paper", mkRepoConfig "https://github.com/callstack/react-native-paper"
                              "Material Design for React Native");
       ("navigation",
        mkRepoConfig "https://github.com/react-navigation/react-navigation"
                     "Navigation for React Native");
       ("expo", mkRepoConfig "https://github.com/expo/expo" "Expo SDK") ]);
    ("state-management",
     [ ("xstate", mkRepoConfig "https://github.com/statelyai/xstate"
                               "State management with state machines");
       ("react-query", mkRepoConfig "https://github.com/TanStack/query"
                                    "TanStack Query (React Query)");
       ("react-hook-form",
        mkRepoConfig "https://github.com/react-hook-form/react-hook-form"
                     "Form management for React") ]) ].

(** [defaultConfig]; [defaultBaseDir] is
    [path.join(os.homedir(), 'referencerepos')]. *)
Definition defaultConfig (defaultBaseDir : string) : Config :=
  mkConfig defaultBaseDir defaultRepositories.

(** What [JSON.parse] gives for a configuration file that has the shape of a
    [Partial<Config>]: each of the two members, when the file has it. *)
Record PartialConfig : Type := mkPartialConfig
  { fileBaseDir : option string;
    fileRepositories : option RepoStructure }.

(** [{...target, ...source}]: the own properties of [source] are defined on
    a copy of [target], in their order. *)
Definition spread {V} (target source : JsObj.t V) : JsObj.t V :=
  fold_left (fun o e => JsObj.set o (fst e) (snd e)) source target.

(** [JSON.parse(JSON.stringify(config, null, 2))] *)
Definition stringified (config : Config) : PartialConfig :=
  mkPartialConfig (Some (repoBaseDir config)) (Some (repositories config)).

(** loadConfig, lines 97-123: the configuration returned and the file
    afterwards.  [writeOk] tells whether the [writeFile] of the first run
    succeeds. *)
Definition loadConfig (defaultBaseDir : string) (file : Doc PartialConfig)
  (writeOk : bool) : Config * Doc PartialConfig :=
  let defaults := defaultConfig defaultBaseDir in
  match file with
  | Parsed config =>
      (mkConfig
         (match fileBaseDir config with
          | Some dir => dir
          | None => repoBaseDir defaults
          end)
         (spread (repositories defaults)
                 (match fileRepositories config with
                  | Some repos => repos
                  | None => []
                  end)),
       file)
  | NoFile =>
      (defaults, if writeOk then Parsed (stringified defaults) else NoFile)
  | BadFile => (defaults, BadFile)
  end.

(** saveConfig, lines 128-134: the file afterwards; a failed write is only
    logged. *)
Definition saveConfig (config : Config) (file : Doc PartialConfig)
  (writeOk : bool) : Doc PartialConfig :=
  if writeOk then Parsed (stringified config) else file.

(** ** searchCode, the search of index.ts that reads no cache *)

(** What index.ts observes besides the working trees: [repoExists], which is
    [fs.stat(repoPath)] saying a directory, and false when it throws; and
    whether [Object.prototype[category][repo]] is truthy, for a category
    that is an inherited name. *)
Record IndexEnv : Type := mkIndexEnv
  { repoExists : string -> string -> bool;
    inheritedMember : string -> string -> bool }.

(** [repoFilter && repositories[category][repoFilter] ? [repoFilter]
     : Object.keys(repositories[category])], lines 254-256.  An inherited
    value has no enumerable key of its own. *)
Definition reposOfOriginal (env : IndexEnv) (repoFilter : option string)
  (category : string) (found : JsObj.Lookup (JsObj.t RepoConfig))
  : list string :=
  match found with
  | JsObj.Own cfg =>
      match truthy repoFilter with
      | Some r =>
          match JsObj.get cfg r with
          | JsObj.Undefined => JsObj.keys cfg
          | _ => [r]
          end
      | None => JsObj.keys cfg
      end
  | JsObj.Proto =>
      match truthy repoFilter with
      | Some r => if inheritedMember env category r then [r] else []
      | None => []
      end
  | JsObj.Undefined => []
  end.

(** The body of [for (const repo of repos)], lines 258-310. *)
Definition searchRepoOriginal (env : IndexEnv) (world : World)
  (pattern filePattern category repo : string) (results : list SearchResult.t)
  : Outcome (list SearchResult.t) :=
  if negb (repoExists env category repo) then Done results
  else
    match globby (tree (world category repo))
                 (String.append "**/" filePattern) with
    | None => Thrown results
    | Some fileList =>
        Done (fold_left (fun res file =>
                           scanFile (tree (world category repo)) category repo
                                    pattern file res)
                        fileList results)
    end.

(** The body of [for (const category of categories)], lines 251-311. *)
Definition searchCategoryOriginal (env : IndexEnv) (world : World)
  (pattern filePattern : string) (repoFilter : option string)
  (repoConfig : RepoStructure) (category : string)
  (results : list SearchResult.t) : Outcome (list SearchResult.t) :=
  match JsObj.get repoConfig category with
  | JsObj.Undefined => Done results
  | found =>
      forEach (searchRepoOriginal env world pattern filePattern category)
              (reposOfOriginal env repoFilter category found) results
  end.

(** searchCode, lines 237-318: the results, or [None] when it throws
    [Failed to search code]. *)
Definition searchCode (env : IndexEnv) (world : World)
  (pattern filePattern : string) (categoryFilter repoFilter : option string)
  (repoConfig : RepoStructure) : option (list SearchResult.t) :=
  let categories :=
    match truthy categoryFilter with
    | Some c => [c]
    | None => JsObj.keys repoConfig
    end in
  match forEach (searchCategoryOriginal env world pattern filePattern
                                        repoFilter repoConfig)
                categories [] with
  | Done results => Some results
  | Thrown _ => None
  end.

(** ** cloneRepo and the create_reference_repos tool *)

(** What the file system and git answer to cloneRepo, over the state [D] of
    the disk.  A call that throws gives the message of its error.  The last
    field is what cloneRepo does when the lookup of the repository in the
    configuration meets a value inherited from Object.prototype. *)
Record CloneEnv (D : Type) : Type := mkCloneEnv
  { getRepoPath : string -> string -> string;
    isRepoDirectory : D -> string -> string -> bool;
    ensureCategoryDir : D -> string -> D * option string;
    gitClone : D -> string -> string -> bool -> D * option string;
    cloneInherited : D -> string -> string -> bool -> D * (string + string) }.
Arguments getRepoPath {D} _ _ _.
Arguments isRepoDirectory {D} _ _ _ _.
Arguments ensureCategoryDir {D} _ _ _.
Arguments gitClone {D} _ _ _ _ _.
Arguments cloneInherited {D} _ _ _ _ _.

Definition repoLabel (category repoName : string) : string :=
  String.append category (String.append "/" repoName).

(** The message of the error that the [catch] of cloneRepo throws. *)
Definition cloneFailure (category repoName message : string) : string :=
  String.append "Failed to clone repository "
    (String.append (repoLabel category repoName) (String.append ": " message)).

(** cloneRepo, index.ts lines 95-123: the disk afterwards and the string
    returned ([inl]) or the message of the error thrown ([inr]). *)
Definition cloneRepo {D} (env : CloneEnv D) (repositories : RepoStructure)
  (category repoName : string) (shallow : bool) (disk : D)
  : D * (string + string) :=
  match JsObj.get repositories category with
  | JsObj.Undefined =>
      (disk, inr (cloneFailure category repoName
                    (String.append "Repository "
                       (String.append (repoLabel category repoName)
                                      " not found in configuration"))))
  | JsObj.Proto => cloneInherited env disk category repoName shallow
  | JsObj.Own cfg =>
      match JsObj.get cfg repoName with
      | JsObj.Undefined =>
          (disk, inr (cloneFailure category repoName
                        (String.append "Repository "
                           (String.append (repoLabel category repoName)
                                          " not found in configuration"))))
      | JsObj.Proto => cloneInherited env disk category repoName shallow
      | JsObj.Own repoConfig =>
          let repoPath := getRepoPath env category repoName in
          if isRepoDirectory env disk category repoName
          then (disk, inl (String.append "Repository "
                             (String.append (repoLabel category repoName)
                                (String.append " already exists at "
                                               repoPath))))
          else
            match ensureCategoryDir env disk category with
            | (disk1, Some message) =>
                (disk1, inr (cloneFailure category repoName message))
            | (disk1, None) =>
                match gitClone env disk1 (url repoConfig) repoPath shallow with
                | (disk2, Some message) =>
                    (disk2, inr (cloneFailure category repoName message))
                | (disk2, None) =>
                    (disk2,
                     inl (String.append "Repository "
                            (String.append (repoLabel category repoName)
                               (String.append " cloned successfully to "
                                              repoPath))))
                end
            end
      end
  end.

(** The body of [for (const r of Object.keys(repositories[c]))],
    lines 652-659: the error of a clone becomes a line of the report. *)
Definition cloneOne {D} (env : CloneEnv D) (repositories : RepoStructure)
  (shallow : bool) (c r : string) (st : D * list string) : D * list string :=
  match cloneRepo env repositories c r shallow (fst st) with
  | (disk, inl result) => (disk, snd st ++ [result])
  | (disk, inr message) =>
      (disk,
       snd st ++ [String.append "Error cloning "
                    (String.append (repoLabel c r)
                                   (String.append ": " message))])
  end.

(** The body of [for (const c of categories)], lines 646-660. *)
Definition cloneCategory {D} (env : CloneEnv D) (repositories : RepoStructure)
  (shallow : bool) (st : D * list string) (c : string) : D * list string :=
  match JsObj.get repositories c with
  | JsObj.Undefined =>
      (fst st,
       snd st ++ [String.append "Category "
                    (String.append c " not found in configuration")])
  | JsObj.Proto => st
  | JsObj.Own cfg =>
      fold_left (fun st' r => cloneOne env repositories shallow c r st')
                (JsObj.keys cfg) st
  end.

(** The [cloneAll] branch of create_reference_repos, lines 642-668, after
    the directory structure has been created: the disk afterwards and the
    lines of the report, which the response joins with newlines. *)
Definition cloneAllRepos {D} (env : CloneEnv D) (repositories : RepoStructure)
  (category : option string) (shallow : bool) (disk : D) : D * list string :=
  let categories :=
    match truthy category with
    | Some c => [c]
    | None => JsObj.keys repositories
    end in
  fold_left (cloneCategory env repositories shallow) categories (disk, []).

(** ** Fixtures *)

Module Fixtures.

Definition nl : string := String Js.newline EmptyString.

(** The content of a file from its lines. *)
Definition joinLines (lines : list string) : string := String.concat nl lines.

Definition wordChar (c : ascii) : bool :=
  Js.isUpper c || Js.isLower c || Js.isDigit c || Ascii.eqb c "_".

(** A regular-expression engine for sources made of letters, digits and
    underscores, which have no special character: such an expression matches
    the strings that contain its source, compared in lower case under the [i]
    flag.  Other sources are outside this engine and get no expression. *)
Definition wordRuntime : Runtime :=
  mkRuntime
    (fun source ignoreCase =>
       if forallb wordChar (list_ascii_of_string source)
       then Some (fun s =>
                    if ignoreCase
                    then Js.includes (Js.toLowerCase source) (Js.toLowerCase s)
                    else Js.includes source s)
       else None).

(** A working tree holding the given files, none of them hidden or ignored,
    at the given HEAD.  It answers the glob [**/*]. *)
Definition treeOf (contents : JsObj.t string) (head : string) : WorkTree :=
  mkWorkTree true
    (fun glob => if String.eqb glob "**/*" then Some (JsObj.keys contents)
                 else Some [])
    (fun f => match JsObj.own contents f with
              | Some c => Some (N.of_nat (String.length c),
                                "2025-01-01T00:00:00.000Z")
              | None => None
              end)
    (fun f => JsObj.own contents f)
    (Some [])
    (Some (String.append head nl)).

Definition noCache : CacheDir := mkCacheDir NoFile NoFile.

Definition allWrites : DiskWrites := mkDiskWrites true (fun _ => true).

Definition now : string := "2025-01-02T00:00:00.000Z".

(** A repository whose cache has just been built from its working tree. *)
Definition cachedRepo (tr : WorkTree) : RepoState :=
  mkRepoState tr (fst (buildRepoCache now allWrites tr noCache)).

(** A repository that has no cache directory. *)
Definition uncachedRepo (tr : WorkTree) : RepoState := mkRepoState tr noCache.

Definition repoEntry (name : string) : string * RepoConfig :=
  (name, mkRepoConfig (String.append "https://example.org/" name) name).

(** A registry with one category, [ref], and the named repositories. *)
Definition registry (names : list string) : RepoStructure :=
  [("ref", map repoEntry names)].

(** The world in which each named repository has the paired state and the
    others have no working tree. *)
Definition absentRepo : RepoState :=
  mkRepoState (mkWorkTree false (fun _ => Some []) (fun _ => None)
                 (fun _ => None) None None) noCache.

Definition worldOf (repos : JsObj.t RepoState) : World :=
  fun category repo =>
    if String.eqb category "ref" then
      match JsObj.own repos repo with
      | Some st => st
      | None => absentRepo
      end
    else absentRepo.

Definition query (pattern : string) : SearchArgs.t :=
  SearchArgs.mk (Some pattern) None None None.

(** 120 files, each with one line that contains [needle]. *)
Definition digit (n : nat) : ascii := ascii_of_nat (48 + n mod 10).
Definition fileName (n : nat) : string :=
  String.append
    (String "f" (String (digit (n / 100)) (String (digit (n / 10))
       (String (digit n) EmptyString)))) ".ts".
Definition manyFiles : JsObj.t string :=
  map (fun n => (fileName n, "const needle = 1;")) (seq 0 120).
Definition manyWorld : World :=
  worldOf [("big", uncachedRepo (treeOf manyFiles "c0ffee"))].

(** A file with two matching lines, found before a file with five. *)
Definition rankFiles : JsObj.t string :=
  [ ("two.ts", joinLines ["needle"; "x"; "needle"]);
    ("five.ts", joinLines ["needle"; "needle"; "needle"; "needle"; "needle"]) ].
Definition rankWorld : World :=
  worldOf [("lib", uncachedRepo (treeOf rankFiles "c0ffee"))].

(** One file with the identifier [needle] on lines 1 and 3. *)
Definition mergeFiles : JsObj.t string :=
  [ ("a.ts", joinLines ["needle"; "x"; "needle"]) ].
Definition mergeWorld : World :=
  worldOf [("lib", cachedRepo (treeOf mergeFiles "c0ffee"))].

(** Two cached repositories: [one] holds the identifier [user], [two] holds
    [userName] only. *)
Definition userTree : WorkTree := treeOf [("a.ts", "user")] "c0ffee".
Definition userNameTree : WorkTree := treeOf [("b.ts", "userName")] "decade".
Definition mixWorld : World :=
  worldOf [("one", cachedRepo userTree); ("two", cachedRepo userNameTree)].

(** A working tree whose file enumeration is rejected (say, a directory that
    cannot be opened), after a repository that scans well. *)
Definition rejectingTree : WorkTree :=
  mkWorkTree true (fun _ => None) (fun _ => None) (fun _ => None) None None.
Definition needleTree : WorkTree := treeOf [("a.ts", "needle")] "c0ffee".
Definition abortWorld : World :=
  worldOf [("good", uncachedRepo needleTree);
           ("broken", uncachedRepo rejectingTree)].

(** A working tree deleted after the existence check: every later access
    finds nothing. *)
Definition deletedTree : WorkTree :=
  mkWorkTree true (fun _ => Some []) (fun _ => None) (fun _ => None) None None.
Definition deletedWorld : World :=
  worldOf [("good", uncachedRepo needleTree);
           ("gone", uncachedRepo deletedTree)].

(** A line made of a stop word and an identifier. *)
Definition stopWordTree : WorkTree := treeOf [("a.ts", "the cat")] "c0ffee".

(** A file of exactly 1 MiB: [needle] followed by newlines. *)
Fixpoint newlines (n : nat) : string :=
  match n with
  | 0 => EmptyString
  | S k => String Js.newline (newlines k)
  end.
Definition oneMiB : string :=
  String.append "needle" (newlines (N.to_nat (1024 * 1024 - 6))).
Definition oneMiBTree : WorkTree := treeOf [("big.ts", oneMiB)] "c0ffee".

(** A token twice on one line. *)
Definition twiceTree : WorkTree := treeOf [("a.ts", "foo foo")] "c0ffee".

(** The structure that a scan of the tree records, and the index of a
    repository's cache directory. *)
Definition structureOf (tr : WorkTree) : FileStructure :=
  match scanFileStructure tr with
  | Some structure => structure
  | None => mkFileStructure [] []
  end.

Definition indexOf (st : RepoState) : SearchIndex :=
  match searchIndexDoc (cache st) with
  | Parsed idx => idx
  | _ => mkSearchIndex [] []
  end.

(** What is compared in the examples: the results with their files and the
    line numbers of their matches. *)
Definition outline (results : list SearchResult.t)
  : list (string * string * string * list nat) :=
  map (fun x => (SearchResult.category x, SearchResult.repo x,
                 SearchResult.file x,
                 map SearchMatch.line (SearchResult.matches x)))
      results.

Definition payloadOf (response : ToolResponse) : list SearchResult.t :=
  match response with
  | TextContent payload => payload
  | ErrorContent _ => []
  end.

End Fixtures.

(** ** More fixtures *)

Module Samples.
Import Fixtures.

Definition nineLines : list string :=
  [ "l1"; "l2"; "l3"; "l4"; "l5"; "l6"; "l7"; "l8"; "l9" ].

(** Three files; the second has no line with [needle]. *)
Definition mixedFiles : JsObj.t string :=
  [ ("a.ts", joinLines ["needle"; "x"]);
    ("b.ts", "nothing");
    ("c.ts", "a needle b") ].
Definition mixedTree : WorkTree := treeOf mixedFiles "c0ffee".
Definition mixedWorld : World := worldOf [("lib", uncachedRepo mixedTree)].

(** The record of [a.ts] in a scan of [mixedTree] for [needle]. *)
Definition firstRecord : SearchResult.t :=
  SearchResult.mk "ref" "lib" "a.ts" [matchAt ["needle"; "x"] 0].

(** index.ts seeing the directories of [world], and no inherited member. *)
Definition indexEnvOf (world : World) : IndexEnv :=
  mkIndexEnv (fun c r => pathExists (tree (world c r))) (fun _ _ => false).


(** A configuration with the category [tools] only. *)
Definition toolsConfig : Config :=
  mkConfig "/srv/repos" [ ("tools", [repoEntry "jq"]) ].

(** A working tree in which the [stat] of an enumerated path throws. *)
Definition danglingTree : WorkTree :=
  mkWorkTree true (fun _ => Some ["a.ts"; "link.ts"])
    (fun f => if String.eqb f "a.ts"
              then Some (6%N, "2025-01-01T00:00:00.000Z") else None)
    (fun f => if String.eqb f "a.ts" then Some "needle" else None)
    (Some []) (Some "c0ffee").

(** A disk given by the list of its repository directories, on which every
    clone succeeds. *)
Definition listedDisk : CloneEnv (list string) :=
  mkCloneEnv (list string)
    (fun c r => String.append "/srv/" (repoLabel c r))
    (fun disk c r =>
       existsb (String.eqb (String.append "/srv/" (repoLabel c r))) disk)
    (fun disk _ => (disk, None))
    (fun disk _ repoPath _ => (repoPath :: disk, None))
    (fun disk _ _ _ => (disk, inr "not a repository")).

End Samples.

(** * Statements *)

(** The predicates in which the properties of the next part are stated. *)

(** Every posting of every own key satisfies [R]. *)
Definition Postings (R : string -> Posting.t -> Prop)
  (o : JsObj.t (list Posting.t)) : Prop :=
  forall t ps p, JsObj.own o t = Some ps -> In p ps -> R t p.

(** How one step of the indexing loops may change the postings of the key it
    touches: a new posting for the file, or an update of one of the file. *)
Definition StepClosed (R : string -> Posting.t -> Prop) (file : string)
  (k : string) (fresh : Posting.t) (upd : Posting.t -> Posting.t) : Prop :=
  R k fresh /\ forall e, R k e -> Posting.file e = file -> R k (upd e).

(** [term] is an identifier that buildSearchIndex reads on line [lineNo] of
    [file] and does not discard. *)
Definition Indexed (tr : WorkTree) (structure : FileStructure)
  (file : string) (lineNo : nat) (term : string) : Prop :=
  exists info content line,
    In (file, info) (files structure) /\
    (size info <= 1024 * 1024)%N /\
    hasIndexedExtension file = true /\
    readFile tr file = Some content /\
    In (lineNo, line) (numbered (Js.split Js.newline content)) /\
    In term (Js.matchIdents line) /\
    3 <= String.length term /\
    isStopWord term = false.

Definition BothPostings (RE RT : string -> Posting.t -> Prop)
  (idx : SearchIndex) : Prop :=
  Postings RE (exactTerms idx) /\ Postings RT (terms idx).

(** The file of the posting is an entry of the structure that passes both
    filters of buildSearchIndex and could be read. *)
Definition FromEligibleFile (tr : WorkTree) (structure : FileStructure)
  (p : Posting.t) : Prop :=
  exists info,
    In (Posting.file p, info) (files structure) /\
    (size info <= 1024 * 1024)%N /\
    hasIndexedExtension (Posting.file p) = true /\
    readFile tr (Posting.file p) <> None.

(** Every postings list of the dictionary satisfies [L]. *)
Definition Lists (L : list Posting.t -> Prop) (o : JsObj.t (list Posting.t))
  : Prop :=
  forall t ps, JsObj.own o t = Some ps -> L ps.

Definition OnePerFile (ps : list Posting.t) : Prop :=
  NoDup (map Posting.file ps).

(** The state of the pass over [file]: lists hold one posting per file, every
    posting of [file] in [exactTerms] has its key in [processedTerms], and no
    posting belongs to a file that is still to come ([rest]). *)
Definition PassUnique (file : string) (rest : list string) (pass : IndexPass)
  : Prop :=
  Lists OnePerFile (exactTerms (fst pass)) /\
  Lists OnePerFile (terms (fst pass)) /\
  (forall t ps, JsObj.own (exactTerms (fst pass)) t = Some ps ->
     In file (map Posting.file ps) ->
     existsb (String.eqb (termFileKey t file)) (snd pass) = true) /\
  Postings (fun _ p => ~ In (Posting.file p) rest) (exactTerms (fst pass)).

(** The metadata document exists, parses, and stores the live revision. *)
Definition StoredRevisionIsLive (cache : CacheDir) (tr : WorkTree) : Prop :=
  exists metadata out,
    metadataDoc cache = Parsed metadata /\
    revparseHEAD tr = Some out /\
    readLastCommitHash metadata = Some (Some (Js.trim out)).

(** [t] occurs in [s] as a contiguous substring. *)
Definition Infix (t s : string) : Prop :=
  exists a b, s = String.append a (String.append t b).

Definition pending (cur : option string) : string :=
  match cur with
  | Some t => t
  | None => EmptyString
  end.

(** [m] is a match reported for the file [f] of repository [c]/[r]. *)
Definition HasMatch (results : list SearchResult.t) (c r f : string)
  (m : SearchMatch.t) : Prop :=
  exists x, In x results /\
            SearchResult.category x = c /\ SearchResult.repo x = r /\
            SearchResult.file x = f /\ In m (SearchResult.matches x).

(** Every recorded position of an [exactTerms] posting is a line of the file
    on which the token was read. *)
Definition PositionsRead (tr : WorkTree) (structure : FileStructure)
  (t : string) (p : Posting.t) : Prop :=
  forall n, In n (Posting.positions p) ->
            Indexed tr structure (Posting.file p) n t.

(** What one posting contributes to the results under the pattern [*]. *)
Definition postingResults (tr : WorkTree) (c r : string) (p : Posting.t)
  : list SearchResult.t :=
  match readFile tr (Posting.file p) with
  | Some content =>
      positionResults c r (Posting.file p) (Js.split Js.newline content)
                      (Posting.positions p)
  | None => []
  end.

(** The registry without the repository [c]/[r]. *)
Definition removeRepo (c r : string) (cfg : RepoStructure) : RepoStructure :=
  map (fun entry : string * JsObj.t RepoConfig =>
         if String.eqb (fst entry) c
         then (fst entry,
               filter (fun e => negb (String.eqb (fst e) r)) (snd entry))
         else entry)
      cfg.

(** The ways in which a repository can fail a query without an exception
    leaving its iteration: its working tree is absent when checked; its index
    document cannot be loaded; its cache is valid but no file of the tree can
    be read any more; its cache is not valid and the enumeration returns
    names that cannot be read, or none. *)
Definition Unavailable (rt : Runtime) (pattern filePattern : string)
  (st : RepoState) : Prop :=
  pathExists (tree st) = false \/
  (isCacheValid (cache st) (tree st) = true /\
   forall idx, searchIndexDoc (cache st) <> Parsed idx) \/
  (isCacheValid (cache st) (tree st) = true /\
   (forall f, readFile (tree st) f = None) /\
   JsObj.inherited pattern = false /\
   (filePattern = "*" \/
    newRegExp rt (replaceStars filePattern) false <> None)) \/
  (isCacheValid (cache st) (tree st) = false /\
   exists fileList,
     globby (tree st) (String.append "**/" filePattern) = Some fileList /\
     forall f, In f fileList -> readFile (tree st) f = None).

(** The test on line 422, negated: the identifier is indexed. *)
Definition survives (term : string) : bool :=
  negb ((String.length term <? 3) || isStopWord term).

(** The identifiers of a file that are indexed, with their line numbers, in
    reading order. *)
Definition tokensOf (content : string) : list (nat * string) :=
  filter (fun e => survives (snd e))
         (flat_map (fun l => map (pair (fst l)) (Js.matchIdents (snd l)))
                   (numbered (Js.split Js.newline content))).

(** Whether a camelCase or snake_case piece of the identifier is, in lower
    case, a name inherited from [Object.prototype]. *)
Definition pieceInherited (term : string) : bool :=
  existsb (fun sub => JsObj.inherited (Js.toLowerCase sub)) (subTermsOf term).

(** The encounters that reach [exactTerms] before the pass over a file ends:
    all of them, or those up to the first identifier on which the pass
    throws. *)
Fixpoint recorded (tokens : list (nat * string)) : list (nat * string) :=
  match tokens with
  | [] => []
  | e :: rest =>
      if JsObj.inherited (snd e) then []
      else if pieceInherited (snd e) then [e]
      else e :: recorded rest
  end.

(** The line numbers of the encounters of [t], in order, with repetitions. *)
Definition linesOf (t : string) (tokens : list (nat * string)) : list nat :=
  map fst (filter (fun e => String.eqb (snd e) t) tokens).

(** The posting of [file] under the key [t], as [find] returns it. *)
Definition entryOf (o : JsObj.t (list Posting.t)) (t file : string)
  : option Posting.t :=
  match JsObj.own o t with
  | Some ps => findEntry file ps
  | None => None
  end.

Definition OwnNotInherited (o : JsObj.t (list Posting.t)) : Prop :=
  forall k ps, JsObj.own o k = Some ps -> JsObj.inherited k = false.

Definition isNil {A} (l : list A) : bool :=
  match l with [] => true | _ => false end.

(** During the pass over [file], after the encounters [done]: a key is in
    [processedTerms] exactly when its term was met, and the posting of the
    file under a term lists the lines of its encounters. *)
Definition Tracks (file : string) (done : list (nat * string))
  (pass : IndexPass) : Prop :=
  forall t,
    existsb (String.eqb (termFileKey t file)) (snd pass)
    = negb (isNil (linesOf t done)) /\
    match entryOf (exactTerms (fst pass)) t file with
    | None => linesOf t done = []
    | Some e =>
        linesOf t done <> [] /\
        Posting.positions e = linesOf t done /\
        Posting.occurrences e = List.length (linesOf t done)
    end.

Definition PassTracks (file : string) (done : list (nat * string))
  (pass : IndexPass) : Prop :=
  OwnNotInherited (exactTerms (fst pass)) /\
  OwnNotInherited (terms (fst pass)) /\
  Tracks file done pass.

(** Every posting of [exactTerms], found by file, lists the lines of the
    recorded encounters of its term in its file. *)
Definition Recorded (tr : WorkTree) (idx : SearchIndex) : Prop :=
  forall t g e,
    entryOf (exactTerms idx) t g = Some e ->
    exists content,
      readFile tr g = Some content /\
      Posting.positions e = linesOf t (recorded (tokensOf content)) /\
      Posting.occurrences e = List.length (Posting.positions e).

(** The files in [seen] that pass the filters and can be read have a posting
    under every term that has a recorded encounter in them. *)
Definition Complete (tr : WorkTree) (seen : JsObj.t FileInfo)
  (idx : SearchIndex) : Prop :=
  forall g info content t,
    In (g, info) seen ->
    (size info <= 1024 * 1024)%N ->
    hasIndexedExtension g = true ->
    readFile tr g = Some content ->
    entryOf (exactTerms idx) t g = None ->
    linesOf t (recorded (tokensOf content)) = [].

(** The context entry of the 0-based line [j] in a window around line [i]. *)
Definition contextEntry (lines : list string) (i j : nat) : ContextLine.t :=
  ContextLine.mk (j + 1) (nth j lines EmptyString) (j =? i).

(** Whether the fallback scan reports the file: it can be read and one of its
    lines contains the pattern. *)
Definition fileHasMatch (tr : WorkTree) (pattern file : string) : bool :=
  match readFile tr file with
  | Some content =>
      existsb (Js.includes pattern) (Js.split Js.newline content)
  | None => false
  end.

(** The 0-based lines of a file that contain the pattern, in order. *)
Definition matchingIndices (pattern : string) (lines : list string)
  : list nat :=
  filter (fun i => Js.includes pattern (nth i lines EmptyString))
         (seq 0 (List.length lines)).

(** What the fallback scan adds for one file: nothing, or its record. *)
Definition scanRecord (tr : WorkTree) (c r pattern file : string)
  : list SearchResult.t :=
  match readFile tr file with
  | Some content =>
      match matchingLines pattern (Js.split Js.newline content) with
      | [] => []
      | ms => [SearchResult.mk c r file ms]
      end
  | None => []
  end.

(** The categories that a query visits. *)
Definition categoriesOf (categoryFilter : option string)
  (repoConfig : RepoStructure) : list string :=
  match truthy categoryFilter with
  | Some c => [c]
  | None => JsObj.keys repoConfig
  end.

(** The repository [c]/[r] is one that the query searches. *)
Definition Searched (categoryFilter repoFilter : option string)
  (repoConfig : RepoStructure) (c r : string) : Prop :=
  In c (categoriesOf categoryFilter repoConfig) /\
  JsObj.get repoConfig c <> JsObj.Undefined /\
  In r (reposOf repoFilter (JsObj.get repoConfig c)).

(** Every own key of the dictionary satisfies [P]. *)
Definition Keys (P : string -> Prop) (o : JsObj.t (list Posting.t)) : Prop :=
  forall k ps, JsObj.own o k = Some ps -> P k.

Fixpoint allChars (p : ascii -> bool) (s : string) : bool :=
  match s with
  | EmptyString => true
  | String c s' => p c && allChars p s'
  end.

(** The shape [[a-zA-Z_$][a-zA-Z0-9_$]*]. *)
Definition isIdentifier (s : string) : bool :=
  match s with
  | EmptyString => false
  | String c s' => Js.identStart c && allChars Js.identChar s'
  end.

(** What holds of a posting of [terms] under the key [k]: its positions are
    distinct lines of its file, no more of them than the counter says, and
    each of these lines contains the key when letter case is ignored. *)
Definition TermPosting (tr : WorkTree) (k : string) (p : Posting.t) : Prop :=
  NoDup (Posting.positions p) /\
  1 <= List.length (Posting.positions p) <= Posting.occurrences p /\
  forall n, In n (Posting.positions p) ->
    exists content line,
      readFile tr (Posting.file p) = Some content /\
      In (n, line) (numbered (Js.split Js.newline content)) /\
      Js.includes k (Js.toLowerCase line) = true.

(** Opening minus closing braces. *)
Fixpoint depth (s : string) : Z :=
  match s with
  | EmptyString => 0%Z
  | String ch s' =>
      ((if Ascii.eqb ch "{" then 1 else if Ascii.eqb ch "}" then -1 else 0)
       + depth s')%Z
  end.

(** [s] has a closing brace that brings the count of [braceCount] plus the
    braces before it to one, which is where the loop breaks. *)
Definition ClosesAt (braceCount : Z) (s : string) : Prop :=
  exists p q, s = String.append p (String "}" q) /\
              (braceCount + depth p = 1)%Z.

(** A non-empty name without a slash. *)
Definition isSegment (s : string) : bool :=
  negb (String.eqb s EmptyString)
  && allChars (fun ch => negb (Ascii.eqb ch "/")) s.

(** The repository filter, when there is one, names a repository of every
    category that the query visits. *)
Definition FilterConfigured (env : IndexEnv)
  (categoryFilter repoFilter : option string) (repoConfig : RepoStructure)
  : Prop :=
  forall r c,
    truthy repoFilter = Some r ->
    In c (categoriesOf categoryFilter repoConfig) ->
    match JsObj.get repoConfig c with
    | JsObj.Own cfg => JsObj.get cfg r <> JsObj.Undefined
    | JsObj.Proto => inheritedMember env c r = true
    | JsObj.Undefined => True
    end.

(** What a line of the report is about: a category that is not configured,
    or a repository. *)
Inductive Subject : Type :=
| MissingCategory (c : string)
| Repository (c r : string).

(** The subjects of the report for one category, in order. *)
Definition subjectsOf (repositories : RepoStructure) (c : string)
  : list Subject :=
  match JsObj.get repositories c with
  | JsObj.Undefined => [MissingCategory c]
  | JsObj.Proto => []
  | JsObj.Own cfg => map (Repository c) (JsObj.keys cfg)
  end.

(** The line reports on the subject: for a repository, that it exists
    already, that it was cloned, or why the clone failed. *)
Definition ReportsOn {D} (env : CloneEnv D) (subject : Subject)
  (line : string) : Prop :=
  match subject with
  | MissingCategory c =>
      line = String.append "Category "
               (String.append c " not found in configuration")
  | Repository c r =>
      line = String.append "Repository "
               (String.append (repoLabel c r)
                  (String.append " already exists at " (getRepoPath env c r)))
      \/
      line = String.append "Repository "
               (String.append (repoLabel c r)
                  (String.append " cloned successfully to "
                                 (getRepoPath env c r)))
      \/
      exists message,
        line = String.append "Error cloning "
                 (String.append (repoLabel c r)
                    (String.append ": " (cloneFailure c r message)))
  end.

(** The numbers never decrease along the list. *)
Fixpoint Ascending (l : list nat) : Prop :=
  match l with
  | [] => True
  | a :: l' => (forall b, In b l' -> a <= b) /\ Ascending l'
  end.

(** What a repository without a valid cache contributes to a query: the
    records of its scan, or nothing when it is not on disk. *)
Definition repoRecords (world : World) (pattern filePattern c r : string)
  : list SearchResult.t :=
  if pathExists (tree (world c r)) then
    match globby (tree (world c r)) (String.append "**/" filePattern) with
    | Some fileList =>
        flat_map (scanRecord (tree (world c r)) c r pattern) fileList
    | None => []
    end
  else [].

(** Every repository that the query finds on disk has no valid cache and
    gets its files enumerated. *)
Definition AllScanned (world : World) (filePattern : string)
  (categoryFilter repoFilter : option string) (repoConfig : RepoStructure)
  : Prop :=
  forall c r,
    Searched categoryFilter repoFilter repoConfig c r ->
    pathExists (tree (world c r)) = true ->
    isCacheValid (cache (world c r)) (tree (world c r)) = false /\
    globby (tree (world c r)) (String.append "**/" filePattern) <> None.

(** An identifier with no capital letter after its first character and no
    underscore: neither split of lines 450-451 divides it. *)
Definition isPlain (term : string) : bool :=
  match term with
  | EmptyString => true
  | String _ rest => allChars (fun ch => negb (Js.isUpper ch)) rest
  end
  && allChars (fun ch => negb (Ascii.eqb ch "_")) term.

(** What the exact lookup of the cached path adds under the file pattern
    [*]: the results of the postings of the pattern, when it is a key. *)
Definition exactPart (tr : WorkTree) (c r pattern : string)
  (idx : SearchIndex) : list SearchResult.t :=
  match JsObj.own (exactTerms idx) pattern with
  | Some postings => flat_map (postingResults tr c r) postings
  | None => []
  end.

(** What the fuzzy lookup adds under the file pattern [*]: the results of
    the postings of every key of [terms] that the pattern matches, key by
    key; nothing when the pattern is not a regular expression. *)
Definition fuzzyPart (rt : Runtime) (tr : WorkTree) (c r pattern : string)
  (idx : SearchIndex) : list SearchResult.t :=
  match newRegExp rt pattern true with
  | Some test =>
      flat_map
        (fun entry : string * list Posting.t =>
           if test (fst entry)
           then flat_map (postingResults tr c r) (snd entry)
           else [])
        (terms idx)
  | None => []
  end.

(** A successful [git clone] leaves a directory at the path cloned to. *)
Definition CloneCreatesDirectory {D} (env : CloneEnv D) : Prop :=
  forall disk url c r shallow disk',
    gitClone env disk url (getRepoPath env c r) shallow = (disk', None) ->
    isRepoDirectory env disk' c r = true.

(** * Properties *)

(** ** Dictionaries *)

Lemma own_set_same {V} (o : JsObj.t V) k v :
  JsObj.own (JsObj.set o k v) k = Some v.
Proof.
  induction o as [|[k' v'] o IH]; simpl.
  - now rewrite String.eqb_refl.
  - destruct (String.eqb k' k) eqn:E; simpl.
    + now rewrite String.eqb_refl.
    + now rewrite E.
Qed.

Lemma own_set_other {V} (o : JsObj.t V) k v k' :
  k <> k' -> JsObj.own (JsObj.set o k v) k' = JsObj.own o k'.
Proof.
  intros Hne. induction o as [|[k0 v0] o IH]; simpl.
  - destruct (String.eqb_spec k k'); [contradiction | reflexivity].
  - destruct (String.eqb_spec k0 k) as [->|Hk]; simpl.
    + destruct (String.eqb_spec k k'); [contradiction | reflexivity].
    + destruct (String.eqb_spec k0 k'); [reflexivity | exact IH].
Qed.

Lemma own_set_inv {V} (o : JsObj.t V) k v k' w :
  JsObj.own (JsObj.set o k v) k' = Some w ->
  (k' = k /\ w = v) \/ (k' <> k /\ JsObj.own o k' = Some w).
Proof.
  intros H. destruct (String.eqb_spec k k') as [<-|Hne].
  - rewrite own_set_same in H. left. split; congruence.
  - rewrite own_set_other in H by assumption. right. split; congruence.
Qed.

Lemma own_In {V} (o : JsObj.t V) k v :
  JsObj.own o k = Some v -> In (k, v) o.
Proof.
  induction o as [|[k' v'] o IH]; simpl; [discriminate|].
  destruct (String.eqb_spec k' k) as [->|Hne]; intros H.
  - left. congruence.
  - right. auto.
Qed.

Lemma keys_set {V} (o : JsObj.t V) k v k' :
  In k' (JsObj.keys (JsObj.set o k v)) <-> k' = k \/ In k' (JsObj.keys o).
Proof.
  unfold JsObj.keys. induction o as [|[k0 v0] o IH]; simpl.
  - intuition.
  - destruct (String.eqb_spec k0 k) as [->|Hne]; simpl; intuition.
Qed.

Lemma get_own {V} (o : JsObj.t V) k v :
  JsObj.get o k = JsObj.Own v <-> JsObj.own o k = Some v.
Proof.
  unfold JsObj.get. destruct (JsObj.own o k).
  - split; congruence.
  - destruct (JsObj.inherited k); split; discriminate.
Qed.

Lemma get_ensureList o k ps :
  JsObj.get (ensureList o k) k = JsObj.Own ps ->
  JsObj.own o k = Some ps \/ (JsObj.own o k = None /\ ps = []).
Proof.
  unfold ensureList.
  destruct (JsObj.get o k) eqn:G; intros H.
  - left. apply get_own. congruence.
  - congruence.
  - right. apply get_own in H. rewrite own_set_same in H.
    unfold JsObj.get in G. destruct (JsObj.own o k); [discriminate|].
    split; congruence.
Qed.

Lemma get_ensureList_own o k ps :
  JsObj.own (ensureList o k) k = Some ps ->
  JsObj.own o k = Some ps \/ (JsObj.own o k = None /\ ps = []).
Proof. intros H. apply get_ensureList. apply get_own. exact H. Qed.

Lemma own_ensureList o k k' ps :
  JsObj.own (ensureList o k) k' = Some ps ->
  JsObj.own o k' = Some ps \/ (k' = k /\ ps = []).
Proof.
  unfold ensureList. destruct (JsObj.get o k); auto.
  intros H. apply own_set_inv in H. intuition.
Qed.

(** ** Loops *)

Lemma forEach_invariant {A S} (I : S -> Prop) (body : A -> S -> Outcome S) l :
  (forall a s, In a l -> I s -> I (stateOf (body a s))) ->
  forall s, I s -> I (stateOf (forEach body l s)).
Proof.
  induction l as [|a l IH]; intros Hstep s Hs; simpl; [exact Hs|].
  pose proof (Hstep a s (or_introl eq_refl) Hs) as Ha.
  destruct (body a s) as [s'|s']; simpl in *.
  - apply IH; [|exact Ha]. intros; apply Hstep; [right|]; assumption.
  - exact Ha.
Qed.

Lemma fold_left_invariant {A S} (I : S -> Prop) (f : S -> A -> S) l :
  (forall a s, In a l -> I s -> I (f s a)) ->
  forall s, I s -> I (fold_left f l s).
Proof.
  induction l as [|a l IH]; intros Hstep s Hs; simpl; [exact Hs|].
  apply IH; [intros; apply Hstep; [right|]; assumption|].
  apply Hstep; [left; reflexivity | exact Hs].
Qed.

(** ** Postings *)

Lemma Postings_nil R : Postings R [].
Proof. intros t ps p H. discriminate. Qed.

Lemma Postings_set R o k ps :
  Postings R o -> (forall p, In p ps -> R k p) -> Postings R (JsObj.set o k ps).
Proof.
  intros Ho Hps t qs p Hown Hin.
  apply own_set_inv in Hown as [[-> ->]|[_ Hown]]; eauto.
Qed.

Lemma Postings_ensureList R o k : Postings R o -> Postings R (ensureList o k).
Proof.
  intros Ho t ps p Hown Hin.
  apply own_ensureList in Hown as [Hown|[_ ->]]; [eauto | destruct Hin].
Qed.

Lemma In_updateEntry file upd ps p :
  In p (updateEntry file upd ps) ->
  In p ps \/ exists e, In e ps /\ Posting.file e = file /\ p = upd e.
Proof.
  induction ps as [|e ps IH]; simpl; [tauto|].
  destruct (String.eqb_spec (Posting.file e) file) as [He|He]; simpl.
  - intros [<-|Hin]; [right; exists e | left]; auto.
  - intros [<-|Hin]; [left; auto|].
    destruct (IH Hin) as [H|(e' & H1 & H2 & H3)]; [left; auto|].
    right. exists e'. auto.
Qed.

Lemma indexSubTerm_Postings R file lineNo subTerm tm :
  StepClosed R file (Js.toLowerCase subTerm) (Posting.mk file 1 [lineNo])
             (bumpTerm lineNo) ->
  Postings R tm ->
  Postings R (stateOf (indexSubTerm file lineNo subTerm tm)).
Proof.
  intros [Hfresh Hupd] Htm. unfold indexSubTerm.
  pose proof (Postings_ensureList R tm (Js.toLowerCase subTerm) Htm) as He.
  destruct (JsObj.get (ensureList tm (Js.toLowerCase subTerm))
                      (Js.toLowerCase subTerm)) as [ps| |] eqn:G;
    simpl; try exact He.
  apply get_own in G.
  destruct (findEntry file ps); simpl; apply Postings_set; try exact He.
  - intros p Hin. apply In_updateEntry in Hin as [Hin|(e & Hin & Hf & ->)].
    + eapply He; eauto.
    + apply Hupd; [eapply He; eauto | exact Hf].
  - intros p Hin. apply in_app_or in Hin as [Hin|[<-|[]]].
    + eapply He; eauto.
    + exact Hfresh.
Qed.

Lemma indexExactTerm_Postings R file lineNo term idx processed :
  StepClosed R file term (Posting.mk file 1 [lineNo]) (bumpExact lineNo) ->
  Postings R (exactTerms idx) ->
  Postings R (exactTerms (fst (stateOf (indexExactTerm file lineNo term
                                                       (idx, processed))))).
Proof.
  intros [Hfresh Hupd] Hex. unfold indexExactTerm.
  pose proof (Postings_ensureList R (exactTerms idx) term Hex) as He.
  destruct (JsObj.get (ensureList (exactTerms idx) term) term)
    as [ps| |] eqn:G; simpl; try exact He.
  apply get_own in G.
  destruct (negb _); simpl.
  - apply Postings_set; [exact He|].
    intros p Hin. apply in_app_or in Hin as [Hin|[<-|[]]].
    + eapply He; eauto.
    + exact Hfresh.
  - destruct (findEntry file ps); simpl; [|exact He].
    apply Postings_set; [exact He|].
    intros p Hin. apply In_updateEntry in Hin as [Hin|(e & Hin & Hf & ->)].
    + eapply He; eauto.
    + apply Hupd; [eapply He; eauto | exact Hf].
Qed.

Lemma indexExactTerm_terms file lineNo term idx processed :
  terms (fst (stateOf (indexExactTerm file lineNo term (idx, processed))))
  = terms idx.
Proof.
  unfold indexExactTerm.
  destruct (JsObj.get _ term) as [ps| |]; simpl; try reflexivity.
  destruct (negb _); simpl; [reflexivity|].
  destruct (findEntry file ps); reflexivity.
Qed.

Lemma indexTerm_Postings RE RT file lineNo term pass :
  ((String.length term <? 3) || isStopWord term = false ->
   StepClosed RE file term (Posting.mk file 1 [lineNo]) (bumpExact lineNo) /\
   forall sub, In sub (subTermsOf term) ->
     StepClosed RT file (Js.toLowerCase sub) (Posting.mk file 1 [lineNo])
                (bumpTerm lineNo)) ->
  BothPostings RE RT (fst pass) ->
  BothPostings RE RT (fst (stateOf (indexTerm file lineNo term pass))).
Proof.
  intros Hstep [HE HT]. unfold indexTerm.
  destruct ((String.length term <? 3) || isStopWord term) eqn:F;
    [split; assumption|].
  destruct (Hstep eq_refl) as [HcE HcT]. destruct pass as [idx processed].
  pose proof (indexExactTerm_Postings RE file lineNo term idx processed HcE HE)
    as HE'.
  pose proof (indexExactTerm_terms file lineNo term idx processed) as HT'.
  destruct (indexExactTerm file lineNo term (idx, processed))
    as [[idx' processed']|[idx' processed']]; simpl in *.
  - pose proof (forEach_invariant (Postings RT) (indexSubTerm file lineNo)
                  (subTermsOf term)) as Hloop.
    assert (Postings RT (stateOf (forEach (indexSubTerm file lineNo)
                                          (subTermsOf term) (terms idx')))) as H.
    { apply Hloop; [|rewrite HT'; exact HT].
      intros sub tm Hin Htm. apply indexSubTerm_Postings; auto. }
    destruct (forEach (indexSubTerm file lineNo) (subTermsOf term) (terms idx'));
      simpl in *; split; assumption.
  - split; [exact HE' | rewrite HT'; exact HT].
Qed.

(** The induction principle of the index: a property of postings that holds
    of a new posting and survives an update, at every identifier read, holds
    of every posting of the index. *)
Lemma buildSearchIndex_Postings RE RT tr structure :
  (forall file lineNo term, Indexed tr structure file lineNo term ->
     StepClosed RE file term (Posting.mk file 1 [lineNo]) (bumpExact lineNo)) ->
  (forall file lineNo term sub, Indexed tr structure file lineNo term ->
     In sub (subTermsOf term) ->
     StepClosed RT file (Js.toLowerCase sub) (Posting.mk file 1 [lineNo])
                (bumpTerm lineNo)) ->
  BothPostings RE RT (buildSearchIndex tr structure).
Proof.
  intros HcE HcT. unfold buildSearchIndex.
  apply fold_left_invariant; [|split; apply Postings_nil].
  intros [file info] idx Hin Hidx. unfold indexFile.
  destruct (N.ltb_spec (1024 * 1024) (size info)) as [|Hsize]; [exact Hidx|].
  destruct (hasIndexedExtension file) eqn:Hext; [|exact Hidx]. simpl.
  destruct (readFile tr file) as [content|] eqn:Hread; [|exact Hidx].
  apply (forEach_invariant (fun pass => BothPostings RE RT (fst pass)));
    [|exact Hidx].
  intros [lineNo line] pass Hline Hpass. unfold indexLine.
  apply (forEach_invariant (fun pass => BothPostings RE RT (fst pass)));
    [|exact Hpass].
  intros term pass' Hterm Hpass'. simpl in Hterm.
  apply indexTerm_Postings; [|exact Hpass'].
  intros F. apply orb_false_iff in F as [Flen Fstop].
  apply Nat.ltb_ge in Flen.
  assert (Indexed tr structure file lineNo term) as Hix.
  { exists info, content, line. repeat split; assumption. }
  split; [apply HcE; exact Hix|].
  intros sub Hsub. eapply HcT; eauto.
Qed.

(** ** Postings come from eligible files *)

Lemma bumpExact_file n e : Posting.file (bumpExact n e) = Posting.file e.
Proof. reflexivity. Qed.

Lemma bumpTerm_file n e : Posting.file (bumpTerm n e) = Posting.file e.
Proof. reflexivity. Qed.

Lemma Indexed_eligible tr structure file lineNo term p :
  Indexed tr structure file lineNo term ->
  Posting.file p = file ->
  FromEligibleFile tr structure p.
Proof.
  intros (info & content & line & Hin & Hsz & Hext & Hread & _) <-.
  exists info. repeat split; try assumption. congruence.
Qed.

Lemma eligible_postings tr structure :
  BothPostings (fun _ => FromEligibleFile tr structure)
               (fun _ => FromEligibleFile tr structure)
               (buildSearchIndex tr structure).
Proof.
  apply buildSearchIndex_Postings.
  - intros file lineNo term Hix. split.
    + eapply Indexed_eligible; eauto.
    + intros e He Hf. eapply Indexed_eligible; eauto.
  - intros file lineNo term sub Hix _. split.
    + eapply Indexed_eligible; eauto.
    + intros e He Hf. eapply Indexed_eligible; eauto.
Qed.

(** ** One posting per file *)

Lemma Lists_set L o k ps : Lists L o -> L ps -> Lists L (JsObj.set o k ps).
Proof.
  intros Ho Hps t qs Hown.
  apply own_set_inv in Hown as [[_ ->]|[_ Hown]]; eauto.
Qed.

Lemma Lists_ensureList L o k : Lists L o -> L [] -> Lists L (ensureList o k).
Proof.
  intros Ho Hnil t ps Hown.
  apply own_ensureList in Hown as [Hown|[_ ->]]; eauto.
Qed.

Lemma map_file_updateEntry file upd ps :
  (forall e, Posting.file (upd e) = Posting.file e) ->
  map Posting.file (updateEntry file upd ps) = map Posting.file ps.
Proof.
  intros Hupd. induction ps as [|e ps IH]; simpl; [reflexivity|].
  destruct (String.eqb (Posting.file e) file); simpl.
  - now rewrite Hupd.
  - now rewrite IH.
Qed.

Lemma findEntry_None file ps :
  findEntry file ps = None -> ~ In file (map Posting.file ps).
Proof.
  induction ps as [|e ps IH]; simpl; [tauto|].
  destruct (String.eqb_spec (Posting.file e) file); [discriminate|].
  intros H [He|Hin]; [contradiction | exact (IH H Hin)].
Qed.

Lemma OnePerFile_push ps file lineNo :
  OnePerFile ps -> ~ In file (map Posting.file ps) ->
  OnePerFile (ps ++ [Posting.mk file 1 [lineNo]]).
Proof.
  unfold OnePerFile. intros Hnd Hnotin. rewrite map_app. simpl.
  apply NoDup_app; [exact Hnd | constructor; [tauto | constructor] |].
  intros x Hx [<-|[]]. contradiction.
Qed.

Lemma indexSubTerm_OnePerFile file lineNo subTerm tm :
  Lists OnePerFile tm ->
  Lists OnePerFile (stateOf (indexSubTerm file lineNo subTerm tm)).
Proof.
  intros Htm. unfold indexSubTerm.
  assert (Lists OnePerFile (ensureList tm (Js.toLowerCase subTerm))) as He
    by (apply Lists_ensureList; [exact Htm | constructor]).
  destruct (JsObj.get (ensureList tm (Js.toLowerCase subTerm))
                      (Js.toLowerCase subTerm)) as [ps| |] eqn:G;
    simpl; try exact He.
  apply get_own in G. pose proof (He _ _ G) as Hps.
  destruct (findEntry file ps) eqn:F; simpl; apply Lists_set; try exact He.
  - unfold OnePerFile. rewrite map_file_updateEntry; [exact Hps|].
    intros; apply bumpTerm_file.
  - apply OnePerFile_push; [exact Hps | apply findEntry_None; exact F].
Qed.

Lemma indexExactTerm_PassUnique file rest lineNo term pass :
  ~ In file rest ->
  PassUnique file rest pass ->
  PassUnique file rest (stateOf (indexExactTerm file lineNo term pass)).
Proof.
  intros Hfresh (HE & HT & Hlink & Hrest). destruct pass as [idx processed].
  simpl in HE, HT, Hlink, Hrest.
  assert (StepClosed (fun _ p => ~ In (Posting.file p) rest) file term
            (Posting.mk file 1 [lineNo]) (bumpExact lineNo)) as Hclosed.
  { split; [exact Hfresh | intros e He _; exact He]. }
  pose proof (indexExactTerm_Postings _ file lineNo term idx processed
                Hclosed Hrest) as Hrest'.
  pose proof (indexExactTerm_terms file lineNo term idx processed) as HT'.
  unfold PassUnique. rewrite HT'. clear HT' Hclosed.
  split; [|split; [exact HT|split; [|exact Hrest']]]; clear Hrest';
    unfold indexExactTerm.
  - assert (Lists OnePerFile (ensureList (exactTerms idx) term)) as He
      by (apply Lists_ensureList; [exact HE | constructor]).
    destruct (JsObj.get (ensureList (exactTerms idx) term) term)
      as [ps| |] eqn:G; simpl; try exact He.
    apply get_own in G. pose proof (He _ _ G) as Hps.
    destruct (existsb (String.eqb (termFileKey term file)) processed) eqn:P;
      simpl.
    + destruct (findEntry file ps); simpl; [|exact He].
      apply Lists_set; [exact He|]. unfold OnePerFile.
      rewrite map_file_updateEntry; [exact Hps | intros; apply bumpExact_file].
    + apply Lists_set; [exact He|]. apply OnePerFile_push; [exact Hps|].
      intros Hin. apply get_ensureList_own in G as [G|[_ ->]]; [|destruct Hin].
      rewrite (Hlink _ _ G Hin) in P. discriminate.
  - assert (forall t ps,
              JsObj.own (ensureList (exactTerms idx) term) t = Some ps ->
              In file (map Posting.file ps) ->
              existsb (String.eqb (termFileKey t file)) processed = true) as Hl.
    { intros t ps Hown Hin.
      apply own_ensureList in Hown as [Hown|[_ ->]]; [eauto | destruct Hin]. }
    destruct (JsObj.get (ensureList (exactTerms idx) term) term)
      as [ps| |] eqn:G; simpl; try exact Hl.
    apply get_own in G.
    destruct (existsb (String.eqb (termFileKey term file)) processed) eqn:P;
      simpl.
    + destruct (findEntry file ps) as [e|]; simpl; [|exact Hl].
      intros t qs Hown Hin.
      apply own_set_inv in Hown as [[-> ->]|[_ Hown]]; [exact P | eauto].
    + intros t qs Hown Hin.
      apply own_set_inv in Hown as [[-> ->]|[_ Hown]].
      * now rewrite String.eqb_refl.
      * rewrite (Hl _ _ Hown Hin). apply orb_true_r.
Qed.

Lemma indexTerm_PassUnique file rest lineNo term pass :
  ~ In file rest ->
  PassUnique file rest pass ->
  PassUnique file rest (stateOf (indexTerm file lineNo term pass)).
Proof.
  intros Hfresh Hpass. unfold indexTerm.
  destruct ((String.length term <? 3) || isStopWord term); [exact Hpass|].
  pose proof (indexExactTerm_PassUnique file rest lineNo term pass Hfresh Hpass)
    as H.
  destruct (indexExactTerm file lineNo term pass)
    as [[idx processed]|[idx processed]]; simpl in *; [|exact H].
  destruct H as (HE & HT & Hlink & Hrest).
  assert (Lists OnePerFile
            (stateOf (forEach (indexSubTerm file lineNo) (subTermsOf term)
                              (terms idx)))) as HT'.
  { apply forEach_invariant; [|exact HT].
    intros sub tm _ Htm. apply indexSubTerm_OnePerFile; exact Htm. }
  destruct (forEach (indexSubTerm file lineNo) (subTermsOf term) (terms idx));
    simpl in *; (split; [exact HE|split; [exact HT'|split; assumption]]).
Qed.

Lemma indexFile_unique tr file info rest idx :
  ~ In file rest ->
  Lists OnePerFile (exactTerms idx) ->
  Lists OnePerFile (terms idx) ->
  Postings (fun _ p => ~ In (Posting.file p) (file :: rest)) (exactTerms idx) ->
  let idx' := indexFile tr (file, info) idx in
  Lists OnePerFile (exactTerms idx') /\
  Lists OnePerFile (terms idx') /\
  Postings (fun _ p => ~ In (Posting.file p) rest) (exactTerms idx').
Proof.
  intros Hfresh HE HT Hrest.
  assert (Postings (fun _ p => ~ In (Posting.file p) rest) (exactTerms idx))
    as Hrest0.
  { intros t ps p Hown Hin Hp. eapply Hrest; eauto. right. exact Hp. }
  assert (PassUnique file rest (idx, [])) as Hstart.
  { split; [exact HE|split; [exact HT|split; [|exact Hrest0]]].
    simpl. intros t ps Hown Hin.
    apply in_map_iff in Hin as (p & Hp & Hin).
    exfalso. eapply Hrest; eauto. left. symmetry. exact Hp. }
  simpl. unfold indexFile.
  destruct (N.ltb _ _); [auto|].
  destruct (negb _); [auto|].
  destruct (readFile tr file) as [content|]; [|auto].
  assert (PassUnique file rest
            (stateOf (forEach (indexLine file)
                              (numbered (Js.split Js.newline content))
                              (idx, [])))) as H.
  { apply forEach_invariant; [|exact Hstart].
    intros l pass _ Hpass. unfold indexLine.
    apply forEach_invariant; [|exact Hpass].
    intros term pass' _ Hpass'. apply indexTerm_PassUnique; assumption. }
  destruct H as (H1 & H2 & _ & H4). auto.
Qed.

Lemma fold_indexFile_unique tr entries :
  NoDup (JsObj.keys entries) ->
  forall idx,
    Lists OnePerFile (exactTerms idx) ->
    Lists OnePerFile (terms idx) ->
    Postings (fun _ p => ~ In (Posting.file p) (JsObj.keys entries))
             (exactTerms idx) ->
    let idx' := fold_left (fun i e => indexFile tr e i) entries idx in
    Lists OnePerFile (exactTerms idx') /\ Lists OnePerFile (terms idx').
Proof.
  induction entries as [|[file info] entries IH]; intros Hnd idx HE HT Hrest;
    simpl; [split; assumption|].
  simpl in Hnd. inversion Hnd as [|? ? Hfresh Hnd']; subst.
  destruct (indexFile_unique tr file info (JsObj.keys entries) idx
              Hfresh HE HT Hrest) as (HE' & HT' & Hrest').
  apply IH; assumption.
Qed.

Lemma keys_set_NoDup {V} (o : JsObj.t V) k v :
  NoDup (JsObj.keys o) -> NoDup (JsObj.keys (JsObj.set o k v)).
Proof.
  induction o as [|[k' v'] o IH]; simpl; intros Hnd.
  - constructor; [tauto | constructor].
  - inversion Hnd as [|? ? Hfresh Hnd']; subst.
    destruct (String.eqb_spec k' k) as [->|Hne]; simpl.
    + constructor; assumption.
    + constructor; [|apply IH; exact Hnd'].
      intros Hin. apply keys_set in Hin as [->|Hin]; contradiction.
Qed.

Lemma scanFiles_NoDup tr fileList :
  forall acc fs,
    scanFiles tr fileList acc = Some fs ->
    NoDup (JsObj.keys acc) -> NoDup (JsObj.keys fs).
Proof.
  induction fileList as [|f fileList IH]; intros acc fs; simpl.
  - intros H Hnd. inversion H; subst. exact Hnd.
  - destruct (stat tr f) as [[sz mtime]|]; [|discriminate].
    intros H Hnd. apply (IH _ _ H).
    destruct (String.eqb f "__proto__"); [exact Hnd|].
    apply keys_set_NoDup. exact Hnd.
Qed.

Lemma scanFileStructure_NoDup tr structure :
  scanFileStructure tr = Some structure ->
  NoDup (JsObj.keys (files structure)).
Proof.
  unfold scanFileStructure.
  destruct (globby tr "**/*") as [fileList|]; [|discriminate].
  destruct (scanFiles tr fileList []) as [fs|] eqn:S; [|discriminate].
  destruct (readDirectories tr) as [dirs|]; [|discriminate].
  intros H. inversion H; subst. simpl.
  apply (scanFiles_NoDup _ _ _ _ S). constructor.
Qed.

(** C10.  In the index that buildSearchIndex returns for a structure whose
    [files] dictionary has each path as one key - as every dictionary has,
    and the structure of scanFileStructure in particular - no postings list
    of [exactTerms] or of [terms] holds two postings of the same file. *)
Theorem one_posting_per_file :
  forall (tr : WorkTree) (structure : FileStructure),
    (scanFileStructure tr = Some structure ->
     NoDup (JsObj.keys (files structure))) /\
    (NoDup (JsObj.keys (files structure)) ->
     forall (t : string) (ps : list Posting.t),
       JsObj.own (exactTerms (buildSearchIndex tr structure)) t = Some ps \/
       JsObj.own (terms (buildSearchIndex tr structure)) t = Some ps ->
       NoDup (map Posting.file ps)).
Proof.
  intros tr structure. split; [apply scanFileStructure_NoDup|].
  intros Hnd t ps Hown.
  destruct (fold_indexFile_unique tr (files structure) Hnd
              (mkSearchIndex [] [])) as [HE HT].
  - intros k qs H; discriminate.
  - intros k qs H; discriminate.
  - apply Postings_nil.
  - destruct Hown as [Hown|Hown]; [exact (HE _ _ Hown) | exact (HT _ _ Hown)].
Qed.

(** ** Cache validity *)

Lemma isCacheValid_iff cache tr :
  isCacheValid cache tr = true <-> StoredRevisionIsLive cache tr.
Proof.
  unfold isCacheValid, isCacheValidTry, StoredRevisionIsLive. split.
  - destruct (metadataDoc cache) as [| |metadata]; try discriminate.
    destruct (revparseHEAD tr) as [out|]; try discriminate.
    destruct (readLastCommitHash metadata) as [[h|]|] eqn:R; try discriminate.
    intros H. apply String.eqb_eq in H. subst h.
    exists metadata, out. auto.
  - intros (metadata & out & -> & -> & ->). apply String.eqb_refl.
Qed.

Lemma buildRepoCache_metadata now disk tr cache cache' :
  buildRepoCache now disk tr cache = (cache', true) ->
  exists out m,
    revparseHEAD tr = Some out /\
    lastCommitHash m = Js.trim out /\
    metadataDoc cache' = Parsed (metadataJson m).
Proof.
  unfold buildRepoCache.
  destruct (scanFileStructure tr) as [structure|]; [|intros H; inversion H].
  unfold getRepositoryMetadata.
  destruct (revparseHEAD tr) as [out|]; [|intros H; inversion H].
  unfold saveRepoCache.
  destruct (ensureDir disk); simpl; [|intros H; inversion H].
  destruct (writeFile disk "metadata.json") eqn:W;
    [|intros H; inversion H].
  intros H. inversion H; subst; clear H.
  eexists out, _. split; [reflexivity|]. split; [|reflexivity]. reflexivity.
Qed.

Lemma isCacheValid_after_build now disk tr cache cache' :
  buildRepoCache now disk tr cache = (cache', true) ->
  isCacheValid cache' tr = true.
Proof.
  intros Hbuild.
  destruct (buildRepoCache_metadata _ _ _ _ _ Hbuild)
    as (out & m & Hhead & Hhash & Hdoc).
  apply isCacheValid_iff. exists (metadataJson m), out.
  repeat split; try assumption. simpl. now rewrite Hhash.
Qed.

(** C3.  isCacheValid is a total function: it returns true exactly when the
    metadata document exists, parses and stores the revision that git reports
    for the working tree, and false in every other case - no document, a
    document that cannot be read, a different revision, a failure of git.
    After a rebuild that succeeded it returns true for the working tree the
    cache was built from; for a working tree at another revision, with no
    rebuild in between, it returns false. *)
Theorem isCacheValid_correct :
  forall (cache : CacheDir) (tr : WorkTree),
    (isCacheValid cache tr = true <-> StoredRevisionIsLive cache tr) /\
    (metadataDoc cache = NoFile -> isCacheValid cache tr = false) /\
    (metadataDoc cache = BadFile -> isCacheValid cache tr = false) /\
    (revparseHEAD tr = None -> isCacheValid cache tr = false) /\
    (forall now disk cache',
       buildRepoCache now disk tr cache = (cache', true) ->
       isCacheValid cache' tr = true /\
       forall tr' out out',
         revparseHEAD tr = Some out ->
         revparseHEAD tr' = Some out' ->
         Js.trim out' <> Js.trim out ->
         isCacheValid cache' tr' = false).
Proof.
  intros cache tr. split; [apply isCacheValid_iff|].
  split; [|split; [|split]].
  - unfold isCacheValid, isCacheValidTry. now intros ->.
  - unfold isCacheValid, isCacheValidTry. now intros ->.
  - unfold isCacheValid, isCacheValidTry. intros ->.
    destruct (metadataDoc cache); reflexivity.
  - intros now disk cache' Hbuild.
    destruct (buildRepoCache_metadata _ _ _ _ _ Hbuild)
      as (out & m & Hhead & Hhash & Hdoc).
    split.
    + eapply isCacheValid_after_build; eauto.
    + intros tr' out0 out' Hout Hout' Hne.
      rewrite Hhead in Hout. inversion Hout; subst out0.
      unfold isCacheValid, isCacheValidTry. rewrite Hdoc, Hout'. simpl.
      rewrite Hhash. apply String.eqb_neq. congruence.
Qed.

Lemma isCacheValid_correct_witness :
  isCacheValid (cache (Fixtures.cachedRepo Fixtures.userTree))
               Fixtures.userTree = true /\
  isCacheValid (cache (Fixtures.cachedRepo Fixtures.userTree))
               Fixtures.userNameTree = false.
Proof.
  destruct (isCacheValid_correct Fixtures.noCache Fixtures.userTree)
    as (_ & _ & _ & _ & H).
  destruct (H Fixtures.now Fixtures.allWrites
              (cache (Fixtures.cachedRepo Fixtures.userTree)) eq_refl)
    as [Hvalid Hstale].
  split; [exact Hvalid|].
  apply (Hstale Fixtures.userNameTree _ _ eq_refl eq_refl).
  vm_compute. discriminate.
Defined.

(** ** Tokens are substrings *)

Lemma append_assoc (a b c : string) :
  String.append (String.append a b) c = String.append a (String.append b c).
Proof. induction a as [|x a IH]; simpl; [reflexivity | now rewrite IH]. Qed.

Lemma append_empty_r (a : string) : String.append a EmptyString = a.
Proof. induction a as [|x a IH]; simpl; [reflexivity | now rewrite IH]. Qed.

Lemma snoc_append t c s :
  String.append (Js.snoc t c) s = String.append t (String c s).
Proof. unfold Js.snoc. now rewrite append_assoc. Qed.

Lemma startsWith_append t b : Js.startsWith t (String.append t b) = true.
Proof.
  induction t as [|x t IH]; simpl; [reflexivity|].
  now rewrite Ascii.eqb_refl.
Qed.

Lemma includes_startsWith t s :
  Js.startsWith t s = true -> Js.includes t s = true.
Proof. intros H. destruct s; simpl; now rewrite H. Qed.

Lemma includes_Infix t s : Infix t s -> Js.includes t s = true.
Proof.
  intros (a & b & ->). induction a as [|x a IH].
  - cbn [String.append]. apply includes_startsWith. apply startsWith_append.
  - change (Js.startsWith t (String x (String.append a (String.append t b)))
            || Js.includes t (String.append a (String.append t b)) = true).
    rewrite IH. apply orb_true_r.
Qed.

Lemma Infix_cons t c s : Infix t s -> Infix t (String c s).
Proof. intros (a & b & ->). exists (String c a), b. reflexivity. Qed.

Lemma Infix_append_l t p s : Infix t s -> Infix t (String.append p s).
Proof.
  intros H. induction p as [|x p IH]; simpl; [exact H|].
  apply Infix_cons. exact IH.
Qed.

Lemma matchIdentsAcc_Infix s :
  forall cur t,
    In t (Js.matchIdentsAcc cur s) -> Infix t (String.append (pending cur) s).
Proof.
  induction s as [|c s IH]; intros cur t; simpl.
  - destruct cur as [t0|]; simpl; [|tauto].
    intros [<-|[]]. exists EmptyString, EmptyString. reflexivity.
  - destruct cur as [t0|]; simpl.
    + destruct (Js.identChar c).
      * intros H. apply IH in H. simpl in H. now rewrite snoc_append in H.
      * intros [<-|H].
        -- exists EmptyString, (String c s). reflexivity.
        -- apply IH in H. simpl in H.
           apply Infix_append_l. apply Infix_cons. exact H.
    + destruct (Js.identStart c); intros H; apply IH in H; simpl in H.
      * exact H.
      * apply Infix_cons. exact H.
Qed.

Lemma matchIdents_includes t line :
  In t (Js.matchIdents line) -> Js.includes t line = true.
Proof.
  intros H. apply includes_Infix.
  apply matchIdentsAcc_Infix in H. exact H.
Qed.

(** ** Numbered lines *)

Lemma In_combine_seq {A} (d : A) (l : list A) :
  forall start n x,
    In (n, x) (combine (seq start (List.length l)) l) ->
    exists i, n = start + i /\ i < List.length l /\ nth i l d = x.
Proof.
  induction l as [|y l IH]; intros start n x; simpl; [tauto|].
  intros [H|H].
  - inversion H; subst. exists 0. repeat split; lia.
  - apply IH in H as (i & -> & Hi & Hx).
    exists (S i). repeat split; [lia | lia | exact Hx].
Qed.

Lemma In_numbered lines n line :
  In (n, line) (numbered lines) ->
  exists i, n = S i /\ i < List.length lines /\ nth i lines EmptyString = line.
Proof.
  intros H. apply (In_combine_seq EmptyString) in H as (i & -> & Hi & Hx).
  exists i. auto.
Qed.

(** ** The cached exact lookup against the fallback scan *)

Lemma exactTerms_positions_read tr structure :
  Postings (PositionsRead tr structure)
           (exactTerms (buildSearchIndex tr structure)).
Proof.
  pose proof (buildSearchIndex_Postings (PositionsRead tr structure)
                (fun _ _ => True) tr structure) as H.
  destruct H as [HE _]; [| |exact HE].
  - intros file lineNo term Hix. split.
    + intros n [<-|[]]. exact Hix.
    + intros e He Hf n Hn. simpl in *. rewrite Hf.
      apply in_app_or in Hn as [Hn|[<-|[]]]; [|exact Hix].
      rewrite <- Hf. apply He. exact Hn.
  - intros. split; auto.
Qed.

Lemma forEach_emitPosting_star rt tr c r postings :
  forall results,
    forEach (emitPosting rt tr c r "*") postings results
    = Done (results ++ flat_map (postingResults tr c r) postings).
Proof.
  induction postings as [|p postings IH]; intros results; simpl.
  - now rewrite app_nil_r.
  - unfold emitPosting at 1. unfold fileMatches. simpl.
    unfold postingResults at 1.
    destruct (readFile tr (Posting.file p)) as [content|].
    + rewrite IH. now rewrite app_assoc.
    + rewrite IH. reflexivity.
Qed.

Lemma In_positionResults c r f lines positions x :
  In x (positionResults c r f lines positions) ->
  exists i, In (S i) positions /\ i < List.length lines /\
            x = SearchResult.mk c r f [matchAt lines i].
Proof.
  unfold positionResults. intros H.
  apply in_flat_map in H as (n & Hn & Hx).
  destruct n as [|i]; [destruct Hx|].
  destruct (Nat.ltb_spec i (List.length lines)) as [Hi|]; [|destruct Hx].
  destruct Hx as [<-|[]]. exists i. auto.
Qed.

Lemma In_matchingLines pattern lines i :
  i < List.length lines ->
  Js.includes pattern (nth i lines EmptyString) = true ->
  In (matchAt lines i) (matchingLines pattern lines).
Proof.
  intros Hi Hinc. unfold matchingLines. apply in_flat_map.
  exists i. split; [apply in_seq; lia|]. rewrite Hinc. left. reflexivity.
Qed.

Lemma scanFile_keeps tr c r pattern file results x :
  In x results -> In x (scanFile tr c r pattern file results).
Proof.
  intros H. unfold scanFile. destruct (readFile tr file); [|exact H].
  destruct (matchingLines pattern _); [exact H|].
  apply in_or_app. left. exact H.
Qed.

Lemma fold_scanFile_keeps tr c r pattern fileList :
  forall results x,
    In x results ->
    In x (fold_left (fun res file => scanFile tr c r pattern file res)
                    fileList results).
Proof.
  induction fileList as [|f fileList IH]; intros results x H; simpl;
    [exact H|].
  apply IH. apply scanFile_keeps. exact H.
Qed.

Lemma fold_scanFile_finds tr c r pattern fileList f content m :
  In f fileList ->
  readFile tr f = Some content ->
  In m (matchingLines pattern (Js.split Js.newline content)) ->
  forall results,
    HasMatch (fold_left (fun res file => scanFile tr c r pattern file res)
                        fileList results) c r f m.
Proof.
  intros Hin Hread Hm.
  induction fileList as [|g fileList IH]; intros results; [destruct Hin|].
  simpl. destruct Hin as [->|Hin]; [|apply IH; exact Hin].
  exists (SearchResult.mk c r f
            (matchingLines pattern (Js.split Js.newline content))).
  split; [|simpl; auto].
  apply fold_scanFile_keeps. unfold scanFile. rewrite Hread.
  destruct (matchingLines pattern (Js.split Js.newline content)) eqn:E;
    [destruct Hm|].
  apply in_or_app. right. left. reflexivity.
Qed.

Lemma scanFiles_keys tr fileList :
  forall acc fs,
    scanFiles tr fileList acc = Some fs ->
    forall k, In k (JsObj.keys fs) -> In k fileList \/ In k (JsObj.keys acc).
Proof.
  induction fileList as [|f fileList IH]; intros acc fs; simpl.
  - intros H k Hk. inversion H; subst. auto.
  - destruct (stat tr f) as [[sz mtime]|]; [|discriminate].
    intros H k Hk. destruct (IH _ _ H k Hk) as [Hl|Hacc]; [auto|].
    destruct (String.eqb f "__proto__"); [auto|].
    apply keys_set in Hacc as [->|Hacc]; auto.
Qed.

Lemma buildRepoCache_index now disk tr cache cache' :
  buildRepoCache now disk tr cache = (cache', true) ->
  exists fileList structure,
    globby tr "**/*" = Some fileList /\
    (forall k, In k (JsObj.keys (files structure)) -> In k fileList) /\
    searchIndexDoc cache' = Parsed (buildSearchIndex tr structure).
Proof.
  unfold buildRepoCache, scanFileStructure.
  destruct (globby tr "**/*") as [fileList|]; [|intros H; inversion H].
  destruct (scanFiles tr fileList []) as [fs|] eqn:S; [|intros H; inversion H].
  destruct (readDirectories tr) as [dirs|]; [|intros H; inversion H].
  destruct (getRepositoryMetadata _ _ _) as [m|]; [|intros H; inversion H].
  unfold saveRepoCache.
  destruct (ensureDir disk); simpl; [|intros H; inversion H].
  destruct (writeFile disk "metadata.json"); [|intros H; inversion H].
  destruct (writeFile disk "structure.json"); [|intros H; inversion H].
  destruct (writeFile disk "searchIndex.json"); [|intros H; inversion H].
  intros H. inversion H; subst; clear H.
  exists fileList, (mkFileStructure dirs fs). repeat split.
  intros k Hk. simpl in Hk.
  destruct (scanFiles_keys _ _ _ _ S k Hk) as [Hl|[]]. exact Hl.
Qed.

(** C5 (as amended).  For a working tree whose cache has just been built, and
    the file pattern [*], every match of the cached exact-term lookup - file,
    line number, line content and context window - is also a match of the
    direct fallback scan of that tree, and the exact-term results are the
    results of the cached search whenever there are any.  (The converse
    inclusion does not hold.) *)
Theorem cached_exact_matches_found_by_scan :
  forall (rt : Runtime) (tr : WorkTree) (now : string) (disk : DiskWrites)
         (cache0 cache1 stale : CacheDir) (c r pattern : string),
    pathExists tr = true ->
    buildRepoCache now disk tr cache0 = (cache1, true) ->
    isCacheValid stale tr = false ->
    exists idx scanned,
      searchIndexDoc cache1 = Parsed idx /\
      searchRepo rt (fun _ _ => mkRepoState tr stale) pattern "*" c r []
        = Done scanned /\
      forall exact,
        exactLookup rt tr c r pattern "*" idx [] = Done exact ->
        (exact <> [] ->
         searchRepo rt (fun _ _ => mkRepoState tr cache1) pattern "*" c r []
           = Done exact) /\
        forall f m, HasMatch exact c r f m -> HasMatch scanned c r f m.
Proof.
  intros rt tr now disk cache0 cache1 stale c r pattern Hexists Hbuild Hstale.
  destruct (buildRepoCache_index _ _ _ _ _ Hbuild)
    as (fileList & structure & Hglob & Hkeys & Hdoc).
  exists (buildSearchIndex tr structure).
  exists (fold_left (fun res file => scanFile tr c r pattern file res)
                    fileList []).
  split; [exact Hdoc|]. split.
  { unfold searchRepo. simpl. rewrite Hexists, Hstale. simpl.
    now rewrite Hglob. }
  intros exact Hexact. split.
  - intros Hne. unfold searchRepo. simpl. rewrite Hexists. simpl.
    rewrite (isCacheValid_after_build _ _ _ _ _ Hbuild), Hdoc.
    unfold searchCached. rewrite Hexact. unfold fuzzyAttempted.
    destruct exact; [contradiction | reflexivity].
  - intros f m (x & Hx & Hc & Hr & Hf & Hm).
    unfold exactLookup in Hexact.
    destruct (JsObj.get (exactTerms (buildSearchIndex tr structure)) pattern)
      as [postings| |] eqn:G.
    + rewrite forEach_emitPosting_star in Hexact.
      inversion Hexact; subst exact; clear Hexact. simpl in Hx.
      apply in_flat_map in Hx as (p & Hp & Hx).
      unfold postingResults in Hx.
      destruct (readFile tr (Posting.file p)) as [content|] eqn:Hread;
        [|destruct Hx].
      apply In_positionResults in Hx as (i & Hpos & Hi & ->).
      simpl in Hf, Hm. subst f. destruct Hm as [<-|[]].
      apply get_own in G.
      pose proof (exactTerms_positions_read tr structure _ _ _ G Hp _ Hpos)
        as (info & content' & line & Hfile & _ & _ & Hread' & Hline & Htok & _).
      rewrite Hread in Hread'. inversion Hread'; subst content'.
      apply In_numbered in Hline as (j & Hj & _ & Hnth).
      inversion Hj; subst j.
      apply fold_scanFile_finds with (content := content).
      * apply Hkeys. unfold JsObj.keys.
        apply in_map_iff. exists (Posting.file p, info). auto.
      * exact Hread.
      * apply In_matchingLines; [exact Hi|].
        rewrite Hnth. apply matchIdents_includes. exact Htok.
    + discriminate.
    + inversion Hexact; subst. destruct Hx.
Qed.

(** ** Failures that stay inside one repository *)

Lemma forEach_skip_all {A S} (body : A -> S -> Outcome S) l :
  (forall a s, In a l -> body a s = Done s) ->
  forall s, forEach body l s = Done s.
Proof.
  induction l as [|a l IH]; intros H s; simpl; [reflexivity|].
  rewrite H by (left; reflexivity). apply IH.
  intros; apply H; right; assumption.
Qed.

Lemma forEach_ext {A S} (body1 body2 : A -> S -> Outcome S) l :
  (forall a s, body1 a s = body2 a s) ->
  forall s, forEach body1 l s = forEach body2 l s.
Proof.
  intros H. induction l as [|a l IH]; intros s; simpl; [reflexivity|].
  rewrite H. destruct (body2 a s); [apply IH | reflexivity].
Qed.

Lemma forEach_without {S} (body : string -> S -> Outcome S) r l :
  (forall s, body r s = Done s) ->
  forall s,
    forEach body (filter (fun k => negb (String.eqb k r)) l) s
    = forEach body l s.
Proof.
  intros H. induction l as [|k l IH]; intros s; simpl; [reflexivity|].
  destruct (String.eqb_spec k r) as [->|Hne]; simpl.
  - rewrite H. apply IH.
  - destruct (body k s); [apply IH | reflexivity].
Qed.

Lemma emitPosting_unreadable rt tr c r filePattern p results :
  readFile tr (Posting.file p) = None ->
  filePattern = "*" \/ newRegExp rt (replaceStars filePattern) false <> None ->
  emitPosting rt tr c r filePattern p results = Done results.
Proof.
  intros Hread Hpat. unfold emitPosting, fileMatches.
  destruct (String.eqb_spec filePattern "*") as [|Hne].
  - now rewrite Hread.
  - destruct Hpat as [|Hre]; [contradiction|].
    destruct (newRegExp rt (replaceStars filePattern) false) as [test|];
      [|contradiction].
    destruct (test (Posting.file p)); [now rewrite Hread | reflexivity].
Qed.

Lemma exactLookup_unreadable rt tr c r pattern filePattern idx results :
  (forall f, readFile tr f = None) ->
  JsObj.inherited pattern = false ->
  filePattern = "*" \/ newRegExp rt (replaceStars filePattern) false <> None ->
  exactLookup rt tr c r pattern filePattern idx results = Done results.
Proof.
  intros Hread Hinh Hpat. unfold exactLookup, JsObj.get. rewrite Hinh.
  destruct (JsObj.own (exactTerms idx) pattern) as [postings|];
    [|reflexivity].
  apply forEach_skip_all. intros p res _.
  apply emitPosting_unreadable; auto.
Qed.

Lemma fuzzyLookup_unreadable rt tr c r pattern filePattern idx results :
  (forall f, readFile tr f = None) ->
  filePattern = "*" \/ newRegExp rt (replaceStars filePattern) false <> None ->
  fuzzyLookup rt tr c r pattern filePattern idx results = results.
Proof.
  intros Hread Hpat. unfold fuzzyLookup.
  destruct (newRegExp rt pattern true) as [test|]; [|reflexivity].
  rewrite forEach_skip_all; [reflexivity|].
  intros [term postings] res _. simpl.
  destruct (test term); [|reflexivity].
  apply forEach_skip_all. intros p res' _.
  apply emitPosting_unreadable; auto.
Qed.

Lemma fold_scanFile_unreadable tr c r pattern fileList :
  (forall f, In f fileList -> readFile tr f = None) ->
  forall results,
    fold_left (fun res file => scanFile tr c r pattern file res)
              fileList results = results.
Proof.
  induction fileList as [|f fileList IH]; intros H results; simpl;
    [reflexivity|].
  unfold scanFile at 2. rewrite H by (left; reflexivity).
  apply IH. intros; apply H; right; assumption.
Qed.

Lemma searchRepo_unavailable rt world pattern filePattern c r :
  Unavailable rt pattern filePattern (world c r) ->
  forall results,
    searchRepo rt world pattern filePattern c r results = Done results.
Proof.
  intros H results. unfold searchRepo.
  destruct H as [H|[[Hv H]|[(Hv & Hread & Hinh & Hpat)|(Hv & l & Hg & Hread)]]].
  - now rewrite H.
  - destruct (pathExists (tree (world c r))); [simpl|reflexivity].
    rewrite Hv. destruct (searchIndexDoc (cache (world c r))) as [| |idx];
      try reflexivity.
    exfalso. exact (H idx eq_refl).
  - destruct (pathExists (tree (world c r))); [simpl|reflexivity].
    rewrite Hv. destruct (searchIndexDoc (cache (world c r))) as [| |idx];
      try reflexivity.
    unfold searchCached. rewrite exactLookup_unreadable by assumption.
    destruct (fuzzyAttempted results); [|reflexivity].
    now rewrite fuzzyLookup_unreadable.
  - destruct (pathExists (tree (world c r))); [cbn [negb]|reflexivity].
    rewrite Hv, Hg. now rewrite fold_scanFile_unreadable.
Qed.

Lemma keys_removeRepo c r cfg : JsObj.keys (removeRepo c r cfg) = JsObj.keys cfg.
Proof.
  unfold JsObj.keys, removeRepo. rewrite map_map. apply map_ext.
  intros [k v]. simpl. destruct (String.eqb k c); reflexivity.
Qed.

Lemma own_removeRepo c r cfg category :
  JsObj.own (removeRepo c r cfg) category
  = option_map
      (fun repos =>
         if String.eqb category c
         then filter (fun e => negb (String.eqb (fst e) r)) repos
         else repos)
      (JsObj.own cfg category).
Proof.
  induction cfg as [|[k v] cfg IH]; simpl; [reflexivity|].
  destruct (String.eqb_spec k c) as [->|Hkc]; simpl.
  - destruct (String.eqb_spec c category) as [<-|Hne]; simpl.
    + now rewrite String.eqb_refl.
    + exact IH.
  - destruct (String.eqb_spec k category) as [->|Hne]; simpl.
    + destruct (String.eqb_spec category c); [congruence | reflexivity].
    + exact IH.
Qed.

Lemma keys_filter_repo r (repos : JsObj.t RepoConfig) :
  JsObj.keys (filter (fun e => negb (String.eqb (fst e) r)) repos)
  = filter (fun k => negb (String.eqb k r)) (JsObj.keys repos).
Proof.
  unfold JsObj.keys. induction repos as [|[k v] repos IH]; simpl;
    [reflexivity|].
  destruct (String.eqb k r); simpl; [exact IH | now rewrite IH].
Qed.

Lemma searchCategory_removeRepo rt world pattern filePattern repoFilter
  cfg c r category results :
  Unavailable rt pattern filePattern (world c r) ->
  searchCategory rt world pattern filePattern repoFilter (removeRepo c r cfg)
                 category results
  = searchCategory rt world pattern filePattern repoFilter cfg
                   category results.
Proof.
  intros Hun. unfold searchCategory, JsObj.get.
  rewrite own_removeRepo.
  destruct (JsObj.own cfg category) as [repos|]; simpl; [|reflexivity].
  unfold reposOf. destruct (truthy repoFilter); [reflexivity|].
  destruct (String.eqb_spec category c) as [->|Hne]; [|reflexivity].
  rewrite keys_filter_repo. apply forEach_without.
  apply searchRepo_unavailable. exact Hun.
Qed.

(** C4 (as amended).  A repository that fails in a way that raises no
    exception out of its iteration - working tree absent when checked, index
    document that cannot be loaded, files that cannot be read any more, an
    enumeration that returns nothing readable - contributes no result and
    leaves the results of the other repositories as they are: the query
    returns what it returns on the registry without that repository. *)
Theorem unavailable_repository_is_skipped :
  forall (rt : Runtime) (world : World) (pattern filePattern : string)
         (categoryFilter repoFilter : option string) (cfg : RepoStructure)
         (c r : string),
    Unavailable rt pattern filePattern (world c r) ->
    searchCodeWithCache rt world pattern filePattern categoryFilter repoFilter
                        cfg
    = searchCodeWithCache rt world pattern filePattern categoryFilter
                          repoFilter (removeRepo c r cfg).
Proof.
  intros rt world pattern filePattern categoryFilter repoFilter cfg c r Hun.
  unfold searchCodeWithCache, searchRun. rewrite keys_removeRepo.
  rewrite (forEach_ext
             (searchCategory rt world pattern filePattern repoFilter
                             (removeRepo c r cfg))
             (searchCategory rt world pattern filePattern repoFilter cfg));
    [reflexivity|].
  intros category results. apply searchCategory_removeRepo. exact Hun.
Qed.

(** ** The encounters recorded in exactTerms *)

Lemma length_append (a b : string) :
  String.length (String.append a b) = String.length a + String.length b.
Proof. induction a as [|x a IH]; simpl; [reflexivity | now rewrite IH]. Qed.

Lemma append_cancel_r (c : string) :
  forall a b, String.append a c = String.append b c -> a = b.
Proof.
  induction a as [|x a IH]; intros [|y b] H; simpl in H.
  - reflexivity.
  - apply (f_equal String.length) in H. simpl in H.
    rewrite length_append in H. lia.
  - apply (f_equal String.length) in H. simpl in H.
    rewrite length_append in H. lia.
  - inversion H; subst. f_equal. apply IH. assumption.
Qed.

Lemma termFileKey_inj file t1 t2 :
  termFileKey t1 file = termFileKey t2 file -> t1 = t2.
Proof. unfold termFileKey. apply append_cancel_r. Qed.

Lemma forEach_app {A S} (body : A -> S -> Outcome S) l1 l2 s :
  forEach body (l1 ++ l2) s
  = match forEach body l1 s with
    | Done s' => forEach body l2 s'
    | Thrown s' => Thrown s'
    end.
Proof.
  revert s. induction l1 as [|a l1 IH]; intros s; simpl; [reflexivity|].
  destruct (body a s); [apply IH | reflexivity].
Qed.

Lemma forEach_map {A B S} (body : B -> S -> Outcome S) (g : A -> B) l s :
  forEach body (map g l) s = forEach (fun a => body (g a)) l s.
Proof.
  revert s. induction l as [|a l IH]; intros s; simpl; [reflexivity|].
  destruct (body (g a) s); [apply IH | reflexivity].
Qed.

Lemma forEach_flat_map {A B S} (body : B -> S -> Outcome S)
  (g : A -> list B) l s :
  forEach (fun a => forEach body (g a)) l s = forEach body (flat_map g l) s.
Proof.
  revert s. induction l as [|a l IH]; intros s; simpl; [reflexivity|].
  rewrite forEach_app. destruct (forEach body (g a) s); [apply IH | reflexivity].
Qed.

Lemma forEach_filter {A S} (body : A -> S -> Outcome S) keep l s :
  (forall a s, keep a = false -> body a s = Done s) ->
  forEach body (filter keep l) s = forEach body l s.
Proof.
  intros H. revert s. induction l as [|a l IH]; intros s; simpl; [reflexivity|].
  destruct (keep a) eqn:K; simpl.
  - destruct (body a s); [apply IH | reflexivity].
  - rewrite (H a s K). apply IH.
Qed.

(** The pass over a file, as one loop over its indexed identifiers. *)
Lemma pass_as_token_loop file content pass :
  forEach (indexLine file) (numbered (Js.split Js.newline content)) pass
  = forEach (fun e => indexTerm file (fst e) (snd e)) (tokensOf content) pass.
Proof.
  unfold tokensOf.
  rewrite forEach_filter.
  - rewrite <- forEach_flat_map. apply forEach_ext.
    intros l s. unfold indexLine. now rewrite forEach_map.
  - intros [n t] s K. simpl in *. unfold survives in K.
    apply negb_false_iff in K. unfold indexTerm. now rewrite K.
Qed.

Lemma OwnNotInherited_nil : OwnNotInherited [].
Proof. intros k ps H. discriminate. Qed.

Lemma OwnNotInherited_ensureList o k :
  OwnNotInherited o -> OwnNotInherited (ensureList o k).
Proof.
  intros Ho. unfold ensureList, JsObj.get.
  destruct (JsObj.own o k) as [ps|] eqn:E; [exact Ho|].
  destruct (JsObj.inherited k) eqn:I; [exact Ho|].
  intros k' ps' H. apply own_set_inv in H as [[-> _]|[_ H]]; eauto.
Qed.

Lemma OwnNotInherited_set o k ps0 ps :
  OwnNotInherited o -> JsObj.own o k = Some ps0 ->
  OwnNotInherited (JsObj.set o k ps).
Proof.
  intros Ho Hk k' ps' H. apply own_set_inv in H as [[-> _]|[_ H]]; eauto.
Qed.

(** On a key that is not inherited, the list is there after line 427. *)
Lemma get_ensureList_plain o k :
  JsObj.inherited k = false ->
  exists ps,
    JsObj.get (ensureList o k) k = JsObj.Own ps /\
    JsObj.own (ensureList o k) k = Some ps /\
    forall file, findEntry file ps = entryOf o k file.
Proof.
  intros I. unfold ensureList, entryOf, JsObj.get. rewrite I.
  destruct (JsObj.own o k) as [ps|] eqn:E.
  - exists ps. rewrite E. auto.
  - exists []. rewrite own_set_same. auto.
Qed.

(** On an inherited key, line 427 changes nothing and the value read is the
    inherited one. *)
Lemma get_ensureList_inherited o k :
  OwnNotInherited o -> JsObj.inherited k = true ->
  ensureList o k = o /\ JsObj.get o k = JsObj.Proto.
Proof.
  intros Ho I. unfold ensureList, JsObj.get.
  destruct (JsObj.own o k) as [ps|] eqn:E.
  - rewrite (Ho _ _ E) in I. discriminate.
  - rewrite I. auto.
Qed.

Lemma entryOf_ensureList o k t file :
  entryOf (ensureList o k) t file = entryOf o t file.
Proof.
  unfold ensureList, JsObj.get.
  destruct (JsObj.own o k) as [ps|] eqn:E; [reflexivity|].
  destruct (JsObj.inherited k); [reflexivity|].
  unfold entryOf. destruct (String.eqb_spec k t) as [<-|Hne].
  - now rewrite own_set_same, E.
  - now rewrite own_set_other.
Qed.

Lemma entryOf_set_same o k ps file :
  entryOf (JsObj.set o k ps) k file = findEntry file ps.
Proof. unfold entryOf. now rewrite own_set_same. Qed.

Lemma entryOf_set_other o k ps t file :
  k <> t -> entryOf (JsObj.set o k ps) t file = entryOf o t file.
Proof. intros H. unfold entryOf. now rewrite own_set_other. Qed.

Lemma findEntry_file file ps e :
  findEntry file ps = Some e -> Posting.file e = file.
Proof.
  induction ps as [|p ps IH]; simpl; [discriminate|].
  destruct (String.eqb_spec (Posting.file p) file); [congruence | exact IH].
Qed.

Lemma findEntry_push file ps fresh :
  findEntry file ps = None -> Posting.file fresh = file ->
  findEntry file (ps ++ [fresh]) = Some fresh.
Proof.
  intros H Hf. induction ps as [|p ps IH]; simpl in *.
  - rewrite Hf, String.eqb_refl. reflexivity.
  - destruct (String.eqb (Posting.file p) file); [discriminate | auto].
Qed.

Lemma findEntry_push_other file ps fresh :
  Posting.file fresh <> file ->
  findEntry file (ps ++ [fresh]) = findEntry file ps.
Proof.
  intros Hf. induction ps as [|p ps IH]; simpl.
  - destruct (String.eqb_spec (Posting.file fresh) file); [contradiction|].
    reflexivity.
  - destruct (String.eqb (Posting.file p) file); [reflexivity | exact IH].
Qed.

Lemma findEntry_updateEntry file upd ps e :
  (forall p, Posting.file (upd p) = Posting.file p) ->
  findEntry file ps = Some e ->
  findEntry file (updateEntry file upd ps) = Some (upd e).
Proof.
  intros Hupd. induction ps as [|p ps IH]; simpl; [discriminate|].
  destruct (String.eqb (Posting.file p) file) eqn:E; simpl.
  - intros H. inversion H; subst. now rewrite Hupd, E.
  - rewrite E. exact IH.
Qed.

Lemma findEntry_updateEntry_other file g upd ps :
  (forall p, Posting.file (upd p) = Posting.file p) ->
  g <> file ->
  findEntry g (updateEntry file upd ps) = findEntry g ps.
Proof.
  intros Hupd Hne. induction ps as [|p ps IH]; simpl; [reflexivity|].
  destruct (String.eqb_spec (Posting.file p) file) as [Hp|Hp]; simpl.
  - rewrite Hupd.
    destruct (String.eqb_spec (Posting.file p) g); [congruence | reflexivity].
  - destruct (String.eqb (Posting.file p) g); [reflexivity | exact IH].
Qed.

Lemma linesOf_app t done tokens :
  linesOf t (done ++ tokens) = linesOf t done ++ linesOf t tokens.
Proof. unfold linesOf. now rewrite filter_app, map_app. Qed.

Lemma linesOf_one_same n t : linesOf t [(n, t)] = [n].
Proof. unfold linesOf. simpl. now rewrite String.eqb_refl. Qed.

Lemma linesOf_one_other n t0 t : t0 <> t -> linesOf t [(n, t0)] = [].
Proof.
  intros H. unfold linesOf. simpl.
  destruct (String.eqb_spec t0 t); [contradiction | reflexivity].
Qed.

Lemma isNil_app_one {A} (l : list A) x : isNil (l ++ [x]) = false.
Proof. destruct l; reflexivity. Qed.

Lemma negb_isNil_true {A} (l : list A) : negb (isNil l) = true -> l <> [].
Proof. destruct l; [discriminate | discriminate]. Qed.

Lemma negb_isNil_false {A} (l : list A) : negb (isNil l) = false -> l = [].
Proof. destruct l; [reflexivity | discriminate]. Qed.

(** Lines 426-447 on an identifier that is not an inherited name: the
    encounter is recorded. *)
Lemma indexExactTerm_tracks file n t0 idx processed done :
  PassTracks file done (idx, processed) ->
  JsObj.inherited t0 = false ->
  exists idx' processed',
    indexExactTerm file n t0 (idx, processed) = Done (idx', processed') /\
    terms idx' = terms idx /\
    OwnNotInherited (exactTerms idx') /\
    Tracks file (done ++ [(n, t0)]) (idx', processed').
Proof.
  intros (HoE & HoT & Htr) I. simpl in HoE, HoT. unfold indexExactTerm.
  destruct (get_ensureList_plain (exactTerms idx) t0 I) as (ps & G & O & F).
  rewrite G.
  assert (OwnNotInherited (ensureList (exactTerms idx) t0)) as HoE'
    by (apply OwnNotInherited_ensureList; exact HoE).
  destruct (Htr t0) as [Hp He]. simpl in Hp, He. rewrite <- (F file) in He.
  destruct (existsb (String.eqb (termFileKey t0 file)) processed) eqn:P;
    simpl.
  - symmetry in Hp. apply negb_isNil_true in Hp.
    destruct (findEntry file ps) as [e|] eqn:Fe; [|contradiction].
    destruct He as (_ & Hpos & Hocc).
    eexists _, _. split; [reflexivity|]. split; [reflexivity|]. split.
    { eapply OwnNotInherited_set; eauto. }
    intros t. simpl. destruct (String.eqb_spec t0 t) as [<-|Hne].
    + rewrite entryOf_set_same.
      rewrite (findEntry_updateEntry file (bumpExact n) ps e)
        by (auto using bumpExact_file).
      rewrite linesOf_app, linesOf_one_same, P, isNil_app_one.
      split; [reflexivity|]. split; [destruct (linesOf t0 done); discriminate|].
      simpl. rewrite Hpos, Hocc, length_app. simpl. split; [reflexivity|lia].
    + rewrite entryOf_set_other by assumption. rewrite entryOf_ensureList.
      rewrite linesOf_app, linesOf_one_other, app_nil_r by assumption.
      exact (Htr t).
  - symmetry in Hp. apply negb_isNil_false in Hp.
    destruct (findEntry file ps) as [e|] eqn:Fe;
      [destruct He as (Hne & _); contradiction|].
    eexists _, _. split; [reflexivity|]. split; [reflexivity|]. split.
    { eapply OwnNotInherited_set; eauto. }
    intros t. simpl. destruct (String.eqb_spec t0 t) as [<-|Hne].
    + rewrite entryOf_set_same.
      rewrite (findEntry_push file ps) by (assumption || reflexivity).
      rewrite linesOf_app, linesOf_one_same, String.eqb_refl, isNil_app_one.
      rewrite Hp. simpl. split; [reflexivity|].
      split; [discriminate|]. split; reflexivity.
    + rewrite entryOf_set_other by assumption. rewrite entryOf_ensureList.
      rewrite linesOf_app, linesOf_one_other, app_nil_r by assumption.
      destruct (String.eqb_spec (termFileKey t file) (termFileKey t0 file))
        as [Heq|_].
      * apply termFileKey_inj in Heq. congruence.
      * simpl. exact (Htr t).
Qed.

(** Lines 426-447 on an inherited name: nothing is changed and the call of
    [push] throws. *)
Lemma indexExactTerm_throws file n t0 idx processed :
  OwnNotInherited (exactTerms idx) ->
  JsObj.inherited t0 = true ->
  indexExactTerm file n t0 (idx, processed) = Thrown (idx, processed).
Proof.
  intros Ho I. unfold indexExactTerm.
  destruct (get_ensureList_inherited _ _ Ho I) as [-> ->].
  destruct idx. reflexivity.
Qed.

Lemma indexSubTerm_outcome file n sub tm :
  OwnNotInherited tm ->
  exists tm',
    OwnNotInherited tm' /\
    indexSubTerm file n sub tm
    = if JsObj.inherited (Js.toLowerCase sub) then Thrown tm' else Done tm'.
Proof.
  intros Ho. unfold indexSubTerm.
  destruct (JsObj.inherited (Js.toLowerCase sub)) eqn:I.
  - destruct (get_ensureList_inherited _ _ Ho I) as [-> ->].
    exists tm. auto.
  - destruct (get_ensureList_plain tm (Js.toLowerCase sub) I)
      as (ps & G & O & _).
    rewrite G.
    assert (OwnNotInherited (ensureList tm (Js.toLowerCase sub))) as Ho'
      by (apply OwnNotInherited_ensureList; exact Ho).
    destruct (findEntry file ps); eexists; (split; [|reflexivity]);
      eapply OwnNotInherited_set; eauto.
Qed.

Lemma forEach_indexSubTerm_outcome file n subs :
  forall tm,
    OwnNotInherited tm ->
    exists tm',
      OwnNotInherited tm' /\
      forEach (indexSubTerm file n) subs tm
      = if existsb (fun sub => JsObj.inherited (Js.toLowerCase sub)) subs
        then Thrown tm' else Done tm'.
Proof.
  induction subs as [|sub subs IH]; intros tm Ho; simpl.
  - exists tm. auto.
  - destruct (indexSubTerm_outcome file n sub tm Ho) as (tm1 & Ho1 & ->).
    destruct (JsObj.inherited (Js.toLowerCase sub)); simpl.
    + exists tm1. auto.
    + apply IH. exact Ho1.
Qed.

(** The pass over the indexed identifiers of a file records the encounters
    that [recorded] lists. *)
Lemma token_loop_tracks file tokens :
  (forall e, In e tokens -> survives (snd e) = true) ->
  forall done pass,
    PassTracks file done pass ->
    PassTracks file (done ++ recorded tokens)
               (stateOf (forEach (fun e => indexTerm file (fst e) (snd e))
                                 tokens pass)).
Proof.
  induction tokens as [|[n t0] tokens IH]; intros Hs done pass Hpass; simpl.
  - now rewrite app_nil_r.
  - assert (survives t0 = true) as Ht0 by (apply (Hs (n, t0)); left; auto).
    unfold survives in Ht0. apply negb_true_iff in Ht0.
    unfold indexTerm at 1. rewrite Ht0. destruct pass as [idx processed].
    destruct (JsObj.inherited t0) eqn:I.
    + destruct Hpass as (HoE & HoT & Htr).
      rewrite (indexExactTerm_throws file n t0 idx processed HoE I). simpl.
      rewrite app_nil_r. split; [exact HoE|]. split; [exact HoT | exact Htr].
    + destruct (indexExactTerm_tracks file n t0 idx processed done Hpass I)
        as (idx' & processed' & -> & HT & HoE' & Htr').
      destruct Hpass as (_ & HoT & _). simpl in HoT. rewrite <- HT in HoT.
      destruct (forEach_indexSubTerm_outcome file n (subTermsOf t0)
                  (terms idx') HoT) as (tm' & HoT' & ->).
      fold (pieceInherited t0). destruct (pieceInherited t0); simpl.
      * split; [exact HoE'|]. split; [exact HoT'|]. exact Htr'.
      * replace (done ++ (n, t0) :: recorded tokens)
          with ((done ++ [(n, t0)]) ++ recorded tokens)
          by (rewrite <- app_assoc; reflexivity).
        apply IH; [intros; apply Hs; right; assumption|].
        split; [exact HoE'|]. split; [exact HoT'|]. exact Htr'.
Qed.

Lemma indexExactTerm_frame file g n t0 idx processed t :
  g <> file ->
  entryOf (exactTerms (fst (stateOf (indexExactTerm file n t0
                                                    (idx, processed))))) t g
  = entryOf (exactTerms idx) t g.
Proof.
  intros Hne. unfold indexExactTerm.
  destruct (JsObj.get (ensureList (exactTerms idx) t0) t0) as [ps| |] eqn:G;
    simpl; try apply entryOf_ensureList.
  apply get_own in G.
  assert (findEntry g ps = entryOf (exactTerms idx) t0 g) as Hps.
  { rewrite <- (entryOf_ensureList (exactTerms idx) t0 t0 g).
    unfold entryOf. now rewrite G. }
  destruct (negb _); simpl.
  - destruct (String.eqb_spec t0 t) as [<-|Ht].
    + rewrite entryOf_set_same, findEntry_push_other; [exact Hps|].
      simpl. congruence.
    + rewrite entryOf_set_other by assumption. apply entryOf_ensureList.
  - destruct (findEntry file ps); simpl; [|apply entryOf_ensureList].
    destruct (String.eqb_spec t0 t) as [<-|Ht].
    + rewrite entryOf_set_same, findEntry_updateEntry_other;
        auto using bumpExact_file.
    + rewrite entryOf_set_other by assumption. apply entryOf_ensureList.
Qed.

Lemma indexTerm_frame file g n t0 pass t :
  g <> file ->
  entryOf (exactTerms (fst (stateOf (indexTerm file n t0 pass)))) t g
  = entryOf (exactTerms (fst pass)) t g.
Proof.
  intros Hne. unfold indexTerm.
  destruct ((String.length t0 <? 3) || isStopWord t0); [reflexivity|].
  destruct pass as [idx processed]. change (fst (idx, processed)) with idx.
  rewrite <- (indexExactTerm_frame file g n t0 idx processed t Hne).
  destruct (indexExactTerm file n t0 (idx, processed))
    as [[idx' processed']|[idx' processed']]; simpl; [|reflexivity].
  destruct (forEach (indexSubTerm file n) (subTermsOf t0) (terms idx'));
    reflexivity.
Qed.

Lemma findEntry_In file ps e :
  findEntry file ps = Some e -> In e ps /\ Posting.file e = file.
Proof.
  induction ps as [|p ps IH]; simpl; [discriminate|].
  destruct (String.eqb_spec (Posting.file p) file) as [Hp|Hp].
  - intros H. inversion H; subst. auto.
  - intros H. destruct (IH H). auto.
Qed.

Lemma findEntry_unique ps p :
  NoDup (map Posting.file ps) -> In p ps ->
  findEntry (Posting.file p) ps = Some p.
Proof.
  induction ps as [|q ps IH]; simpl; intros Hnd Hin; [destruct Hin|].
  inversion Hnd as [|? ? Hfresh Hnd']; subst.
  destruct Hin as [->|Hin].
  - now rewrite String.eqb_refl.
  - destruct (String.eqb_spec (Posting.file q) (Posting.file p)) as [E|_].
    + exfalso. apply Hfresh. rewrite E. apply in_map. exact Hin.
    + apply IH; assumption.
Qed.

Lemma In_tokensOf_survives content e :
  In e (tokensOf content) -> survives (snd e) = true.
Proof. unfold tokensOf. intros H. apply filter_In in H. tauto. Qed.

Lemma indexFile_frame tr file info idx g t :
  g <> file ->
  entryOf (exactTerms (indexFile tr (file, info) idx)) t g
  = entryOf (exactTerms idx) t g.
Proof.
  intros Hne. unfold indexFile.
  destruct (N.ltb _ _); [reflexivity|].
  destruct (negb _); [reflexivity|].
  destruct (readFile tr file) as [content|]; [|reflexivity].
  apply (forEach_invariant
           (fun pass => entryOf (exactTerms (fst pass)) t g
                        = entryOf (exactTerms idx) t g));
    [|reflexivity].
  intros l pass _ Hpass. unfold indexLine.
  apply (forEach_invariant
           (fun pass => entryOf (exactTerms (fst pass)) t g
                        = entryOf (exactTerms idx) t g));
    [|exact Hpass].
  intros t0 pass' _ Hpass'. rewrite indexTerm_frame by assumption.
  exact Hpass'.
Qed.

Lemma In_keys {V} (o : JsObj.t V) k v : In (k, v) o -> In k (JsObj.keys o).
Proof. intros H. unfold JsObj.keys. apply in_map_iff. exists (k, v). auto. Qed.

(** What indexFile does to an index that has no posting of the file yet:
    nothing, or the pass over the file's content. *)
Lemma indexFile_pass tr file info idx :
  OwnNotInherited (exactTerms idx) ->
  OwnNotInherited (terms idx) ->
  (forall t, entryOf (exactTerms idx) t file = None) ->
  (indexFile tr (file, info) idx = idx /\
   ((1024 * 1024 < size info)%N \/ hasIndexedExtension file = false \/
    readFile tr file = None)) \/
  exists content pass,
    (size info <= 1024 * 1024)%N /\
    hasIndexedExtension file = true /\
    readFile tr file = Some content /\
    indexFile tr (file, info) idx = fst pass /\
    PassTracks file (recorded (tokensOf content)) pass.
Proof.
  intros HoE HoT Hnone. unfold indexFile.
  destruct (N.ltb_spec (1024 * 1024) (size info)) as [Hgt|Hle]; [auto|].
  destruct (hasIndexedExtension file) eqn:Hext; simpl; [|auto].
  destruct (readFile tr file) as [content|] eqn:Hread; [|auto].
  right. exists content.
  exists (stateOf (forEach (indexLine file)
                           (numbered (Js.split Js.newline content))
                           (idx, []))).
  split; [exact Hle|]. split; [reflexivity|]. split; [reflexivity|].
  split; [reflexivity|].
  rewrite pass_as_token_loop.
  apply (token_loop_tracks file (tokensOf content)
           (In_tokensOf_survives content) [] (idx, [])).
  split; [exact HoE|]. split; [exact HoT|]. intros t. simpl.
  rewrite Hnone. auto.
Qed.

Lemma entryOf_none_of_rest idx file rest :
  Postings (fun _ p => ~ In (Posting.file p) (file :: rest)) (exactTerms idx) ->
  forall t, entryOf (exactTerms idx) t file = None.
Proof.
  intros Hrest t. unfold entryOf.
  destruct (JsObj.own (exactTerms idx) t) as [ps|] eqn:O; [|reflexivity].
  destruct (findEntry file ps) as [e|] eqn:F; [|reflexivity].
  apply findEntry_In in F as [Hin Hf].
  exfalso. apply (Hrest t ps e O Hin). left. symmetry. exact Hf.
Qed.

(** What the loop over the files keeps true: [seen] are the entries already
    visited, and no posting belongs to an entry still to come. *)
Lemma fold_indexFile_recorded tr entries :
  forall seen idx,
    NoDup (JsObj.keys (seen ++ entries)) ->
    Lists OnePerFile (exactTerms idx) ->
    Lists OnePerFile (terms idx) ->
    Postings (fun _ p => ~ In (Posting.file p) (JsObj.keys entries))
             (exactTerms idx) ->
    OwnNotInherited (exactTerms idx) ->
    OwnNotInherited (terms idx) ->
    Recorded tr idx ->
    Complete tr seen idx ->
    let idx' := fold_left (fun i e => indexFile tr e i) entries idx in
    Recorded tr idx' /\ Complete tr (seen ++ entries) idx'.
Proof.
  induction entries as [|[file info] entries IH];
    intros seen idx Hnd HE HT Hrest HoE HoT Hrec Hc; cbv zeta; cbn [fold_left].
  - rewrite app_nil_r. auto.
  - assert (NoDup (JsObj.keys ((seen ++ [(file, info)]) ++ entries))) as Hnd'
      by (rewrite <- app_assoc; exact Hnd).
    unfold JsObj.keys in Hnd. rewrite map_app in Hnd. simpl in Hnd.
    pose proof (NoDup_remove_2 _ _ _ Hnd) as Hfresh.
    assert (~ In file (JsObj.keys entries)) as Hfresh1.
    { intros H. apply Hfresh. apply in_or_app. right. exact H. }
    assert (~ In file (JsObj.keys seen)) as Hfresh2.
    { intros H. apply Hfresh. apply in_or_app. left. exact H. }
    destruct (indexFile_unique tr file info (JsObj.keys entries) idx
                Hfresh1 HE HT Hrest) as (HE' & HT' & Hrest').
    pose proof (entryOf_none_of_rest idx file _ Hrest) as Hnone.
    replace (seen ++ (file, info) :: entries)
      with ((seen ++ [(file, info)]) ++ entries)
      by (rewrite <- app_assoc; reflexivity).
    assert (forall g t, g <> file ->
              entryOf (exactTerms (indexFile tr (file, info) idx)) t g
              = entryOf (exactTerms idx) t g) as Hframe
      by (intros; apply indexFile_frame; assumption).
    destruct (indexFile_pass tr file info idx HoE HoT Hnone)
      as [[Hsame Hskip]|(content & pass & Hsize & Hext & Hread & Hidx & Hpass)].
    + rewrite Hsame in *. apply IH; try assumption.
      intros g info' content t Hin Hsz Hx Hrd He.
      apply in_app_or in Hin as [Hin|[Hin|[]]]; [eauto|].
      inversion Hin; subst g info'. exfalso.
      destruct Hskip as [Hgt|[Hno|Hno]].
      * revert Hgt. apply N.le_ngt. exact Hsz.
      * congruence.
      * congruence.
    + destruct Hpass as (HoE1 & HoT1 & Htr). rewrite <- Hidx in HoE1, HoT1.
      apply IH; try assumption.
      * intros t g e He. destruct (string_dec g file) as [->|Hne].
        -- destruct (Htr t) as [_ Hentry]. rewrite <- Hidx, He in Hentry.
           destruct Hentry as (_ & Hpos & Hocc).
           exists content. rewrite Hpos. auto.
        -- rewrite Hframe in He by assumption. eauto.
      * intros g info' content' t Hin Hsz Hx Hrd He.
        apply in_app_or in Hin as [Hin|[Hin|[]]].
        -- apply (Hc g info' content' t Hin Hsz Hx Hrd).
           rewrite <- He. symmetry. apply Hframe.
           intros ->. apply Hfresh2. eapply In_keys; eauto.
        -- inversion Hin; subst g info'.
           rewrite Hread in Hrd. inversion Hrd; subst content'.
           destruct (Htr t) as [_ Hentry]. rewrite <- Hidx, He in Hentry.
           exact Hentry.
Qed.

Lemma buildSearchIndex_recorded tr structure :
  NoDup (JsObj.keys (files structure)) ->
  Lists OnePerFile (exactTerms (buildSearchIndex tr structure)) /\
  Recorded tr (buildSearchIndex tr structure) /\
  Complete tr (files structure) (buildSearchIndex tr structure).
Proof.
  intros Hnd.
  assert (Lists OnePerFile (exactTerms (mkSearchIndex [] []))) as HE0
    by (intros k qs H; discriminate).
  assert (Lists OnePerFile (terms (mkSearchIndex [] []))) as HT0
    by (intros k qs H; discriminate).
  pose proof (fold_indexFile_unique tr (files structure) Hnd
                (mkSearchIndex [] []) HE0 HT0 (Postings_nil _)) as [HE _].
  split; [exact HE|].
  apply (fold_indexFile_recorded tr (files structure) [] (mkSearchIndex [] []));
    try assumption.
  - apply Postings_nil.
  - apply OwnNotInherited_nil.
  - apply OwnNotInherited_nil.
  - intros t g e H. discriminate.
  - intros g info content t [].
Qed.

Lemma exactTerms_counter_is_length tr structure :
  Postings (fun _ p => Posting.occurrences p
                       = List.length (Posting.positions p))
           (exactTerms (buildSearchIndex tr structure)).
Proof.
  pose proof (buildSearchIndex_Postings
                (fun _ q => Posting.occurrences q
                            = List.length (Posting.positions q))
                (fun _ _ => True) tr structure) as H.
  destruct H as [HE _]; [| |exact HE].
  - intros file lineNo term _. split; [reflexivity|].
    intros e He _. unfold bumpExact; simpl.
    rewrite length_app. simpl. lia.
  - intros. split; auto.
Qed.

Lemma recorded_encounters_are_posted tr structure :
  NoDup (JsObj.keys (files structure)) ->
  forall g info content t,
    In (g, info) (files structure) ->
    (size info <= 1024 * 1024)%N ->
    hasIndexedExtension g = true ->
    readFile tr g = Some content ->
    linesOf t (recorded (tokensOf content)) <> [] ->
    exists ps p,
      JsObj.own (exactTerms (buildSearchIndex tr structure)) t = Some ps /\
      In p ps /\ Posting.file p = g.
Proof.
  intros Hnd g info content t Hin Hsz Hx Hrd Hne.
  destruct (buildSearchIndex_recorded tr structure Hnd) as (_ & _ & Hc).
  pose proof (Hc g info content t Hin Hsz Hx Hrd) as H.
  unfold entryOf in H.
  destruct (JsObj.own (exactTerms (buildSearchIndex tr structure)) t)
    as [ps|]; [|exfalso; auto].
  destruct (findEntry g ps) as [e|] eqn:F; [|exfalso; auto].
  apply findEntry_In in F as [He Hf]. exists ps, e. auto.
Qed.

(** C8 (as amended).  buildSearchIndex extracts tokens exactly from the files
    of the structure whose recorded size is at most 1 MiB (2^20 bytes, the
    bound included), whose name ends in one of the listed extensions and
    which can be read.  Every posting of [exactTerms] and of [terms] belongs
    to such a file, so a file larger than 1 MiB, or with another extension,
    contributes no posting; and every identifier that the pass over such a
    file records has its posting in [exactTerms]. *)
Theorem index_reads_files_up_to_1MiB :
  forall (tr : WorkTree) (structure : FileStructure),
    (forall (t : string) (ps : list Posting.t) (p : Posting.t),
       JsObj.own (exactTerms (buildSearchIndex tr structure)) t = Some ps \/
       JsObj.own (terms (buildSearchIndex tr structure)) t = Some ps ->
       In p ps ->
       exists info,
         In (Posting.file p, info) (files structure) /\
         (size info <= 2 ^ 20)%N /\
         hasIndexedExtension (Posting.file p) = true /\
         readFile tr (Posting.file p) <> None) /\
    (NoDup (JsObj.keys (files structure)) ->
     forall (g : string) (info : FileInfo) (content t : string),
       In (g, info) (files structure) ->
       (size info <= 2 ^ 20)%N ->
       hasIndexedExtension g = true ->
       readFile tr g = Some content ->
       linesOf t (recorded (tokensOf content)) <> [] ->
       exists ps p,
         JsObj.own (exactTerms (buildSearchIndex tr structure)) t = Some ps /\
         In p ps /\ Posting.file p = g).
Proof.
  intros tr structure. split.
  - intros t ps p Hown Hin.
    destruct (eligible_postings tr structure) as [HE HT].
    destruct Hown as [Hown|Hown]; [eapply HE | eapply HT]; eauto.
  - intros Hnd g info content t. apply recorded_encounters_are_posted.
    exact Hnd.
Qed.

(** C9 (as amended).  In [exactTerms] every encounter of a token is recorded
    in full: the counter of a posting equals the length of its position
    list, and the position list holds the line number of each encounter of
    the token that the pass over the file records, in reading order and with
    repetitions - a token met twice on a line has the line twice. *)
Theorem exactTerms_record_every_encounter :
  forall (tr : WorkTree) (structure : FileStructure) (t : string)
         (ps : list Posting.t) (p : Posting.t),
    JsObj.own (exactTerms (buildSearchIndex tr structure)) t = Some ps ->
    In p ps ->
    Posting.occurrences p = List.length (Posting.positions p) /\
    (NoDup (JsObj.keys (files structure)) ->
     exists content,
       readFile tr (Posting.file p) = Some content /\
       Posting.positions p = linesOf t (recorded (tokensOf content))).
Proof.
  intros tr structure t ps p Hown Hin. split.
  - exact (exactTerms_counter_is_length tr structure t ps p Hown Hin).
  - intros Hnd.
    destruct (buildSearchIndex_recorded tr structure Hnd) as (HE & Hrec & _).
    destruct (Hrec t (Posting.file p) p) as (content & Hread & Hpos & _).
    + unfold entryOf. rewrite Hown.
      apply findEntry_unique; [exact (HE _ _ Hown) | exact Hin].
    + exists content. auto.
Qed.

(** ** The records of a search *)

Lemma mapIdx_seq {A B} (f : nat -> A -> B) (d : A) l :
  forall i, mapIdx f i l
            = map (fun k => f (i + k) (nth k l d)) (seq 0 (List.length l)).
Proof.
  induction l as [|x l IH]; intros i; simpl; [reflexivity|].
  rewrite Nat.add_0_r. f_equal. rewrite IH, <- seq_shift, map_map.
  apply map_ext. intros k. now rewrite Nat.add_succ_r.
Qed.

Lemma slice_length {A} (l : list A) from to :
  to <= List.length l -> List.length (slice from to l) = to - from.
Proof.
  intros H. unfold slice. rewrite length_firstn, length_skipn. lia.
Qed.

Lemma slice_nth {A} (d : A) (l : list A) from to k :
  k < to - from -> nth k (slice from to l) d = nth (from + k) l d.
Proof.
  intros H. unfold slice. rewrite nth_firstn.
  destruct (Nat.ltb_spec k (to - from)); [|lia].
  apply nth_skipn.
Qed.

Lemma seq_from start len :
  seq start len = map (fun k => start + k) (seq 0 len).
Proof.
  revert start. induction len as [|len IH]; intros start; simpl; [reflexivity|].
  rewrite Nat.add_0_r. f_equal. rewrite (IH (S start)), <- seq_shift, map_map.
  apply map_ext. intros k. lia.
Qed.

(** The window of a match, line by line. *)
Lemma matchAt_context lines i :
  i < List.length lines ->
  SearchMatch.context (matchAt lines i)
  = map (contextEntry lines i)
        (seq (i - 3) (Nat.min (List.length lines - 1) (i + 3) + 1 - (i - 3))).
Proof.
  intros Hi. unfold matchAt. simpl.
  set (start := i - 3). set (e := Nat.min (List.length lines - 1) (i + 3)).
  rewrite (mapIdx_seq _ EmptyString).
  rewrite slice_length by (unfold e; lia).
  rewrite (seq_from start), map_map.
  apply map_ext_in. intros k Hk. apply in_seq in Hk.
  unfold contextEntry. rewrite slice_nth by lia. reflexivity.
Qed.

(** X1.  The context window of a match on line [i + 1] of a file.  It holds
    between one and seven entries, for consecutive lines of the file that
    are at most three lines away from the match; each entry carries the text
    of its line, and the entry of the matching line, which is always there,
    is the only one flagged. *)
Theorem context_window_bounds :
  forall (lines : list string) (i : nat),
    i < List.length lines ->
    let m := matchAt lines i in
    SearchMatch.line m = i + 1 /\
    SearchMatch.content m = nth i lines EmptyString /\
    1 <= List.length (SearchMatch.context m) <= 7 /\
    map ContextLine.line (SearchMatch.context m)
    = seq (i - 3 + 1) (List.length (SearchMatch.context m)) /\
    In (ContextLine.mk (i + 1) (nth i lines EmptyString) true)
       (SearchMatch.context m) /\
    forall c, In c (SearchMatch.context m) ->
      1 <= ContextLine.line c <= List.length lines /\
      i + 1 - 3 <= ContextLine.line c <= i + 1 + 3 /\
      ContextLine.text c = nth (ContextLine.line c - 1) lines EmptyString /\
      ContextLine.isMatch c = (ContextLine.line c =? i + 1).
Proof.
  intros lines i Hi m. subst m.
  split; [reflexivity|]. split; [reflexivity|].
  rewrite (matchAt_context lines i Hi).
  set (len := Nat.min (List.length lines - 1) (i + 3) + 1 - (i - 3)).
  assert (1 <= len <= 7) as Hlen by (unfold len; lia).
  rewrite length_map, length_seq. split; [exact Hlen|]. split.
  - rewrite map_map. unfold contextEntry. simpl.
    rewrite (seq_from (i - 3)), (seq_from (i - 3 + 1)), map_map.
    apply map_ext. intros k. lia.
  - split.
    + apply in_map_iff. exists i. split.
      * unfold contextEntry. now rewrite Nat.eqb_refl.
      * apply in_seq. unfold len. lia.
    + intros c Hc. apply in_map_iff in Hc as (j & <- & Hj).
      apply in_seq in Hj. unfold contextEntry. simpl. unfold len in Hj.
      replace (j + 1 - 1) with j by lia.
      repeat split; try lia.
      destruct (Nat.eqb_spec j i), (Nat.eqb_spec (j + 1) (i + 1));
        try reflexivity; lia.
Qed.

Lemma flat_map_if_filter {A B} (p : A -> bool) (f : A -> B) l :
  flat_map (fun a => if p a then [f a] else []) l = map f (filter p l).
Proof.
  induction l as [|a l IH]; simpl; [reflexivity|].
  destruct (p a); simpl; now rewrite IH.
Qed.

Lemma matchingLines_indices pattern lines :
  matchingLines pattern lines
  = map (matchAt lines) (matchingIndices pattern lines).
Proof. unfold matchingLines, matchingIndices. apply flat_map_if_filter. Qed.

Lemma In_matchingIndices pattern lines i :
  In i (matchingIndices pattern lines) <->
  i < List.length lines /\
  Js.includes pattern (nth i lines EmptyString) = true.
Proof.
  unfold matchingIndices. rewrite filter_In, in_seq. intuition lia.
Qed.

Lemma matchingIndices_nil pattern lines :
  matchingIndices pattern lines = [] <->
  existsb (Js.includes pattern) lines = false.
Proof.
  split.
  - intros H. destruct (existsb (Js.includes pattern) lines) eqn:E;
      [|reflexivity].
    apply existsb_exists in E as (l & Hin & Hl).
    apply (In_nth _ _ EmptyString) in Hin as (i & Hi & Hnth).
    assert (In i (matchingIndices pattern lines)) as Hc
      by (apply In_matchingIndices; rewrite Hnth; auto).
    rewrite H in Hc. destruct Hc.
  - intros H. destruct (matchingIndices pattern lines) as [|i l] eqn:E;
      [reflexivity|].
    assert (In i (matchingIndices pattern lines)) as Hc
      by (rewrite E; left; reflexivity).
    apply In_matchingIndices in Hc as [Hi Hinc].
    assert (existsb (Js.includes pattern) lines = true) as Ht.
    { apply existsb_exists. exists (nth i lines EmptyString).
      split; [apply nth_In; exact Hi | exact Hinc]. }
    congruence.
Qed.

Lemma fold_scanFile_records tr c r pattern fileList :
  forall results,
    fold_left (fun res file => scanFile tr c r pattern file res)
              fileList results
    = results ++ flat_map (scanRecord tr c r pattern) fileList.
Proof.
  induction fileList as [|f fileList IH]; intros results; simpl.
  - now rewrite app_nil_r.
  - rewrite IH. unfold scanFile, scanRecord.
    destruct (readFile tr f) as [content|]; [|reflexivity].
    destruct (matchingLines pattern (Js.split Js.newline content));
      [reflexivity|].
    now rewrite <- app_assoc.
Qed.

Lemma scanRecord_files tr c r pattern fileList :
  map SearchResult.file (flat_map (scanRecord tr c r pattern) fileList)
  = filter (fileHasMatch tr pattern) fileList.
Proof.
  induction fileList as [|f fileList IH]; simpl; [reflexivity|].
  rewrite map_app, IH. unfold scanRecord, fileHasMatch.
  destruct (readFile tr f) as [content|]; [|reflexivity].
  rewrite matchingLines_indices.
  destruct (matchingIndices pattern (Js.split Js.newline content)) eqn:E.
  - apply matchingIndices_nil in E. rewrite E. reflexivity.
  - assert (existsb (Js.includes pattern) (Js.split Js.newline content)
            = true) as Ht.
    { destruct (existsb _ _) eqn:X; [reflexivity|].
      apply matchingIndices_nil in X. congruence. }
    rewrite Ht. reflexivity.
Qed.

Lemma searchRepo_fallback rt world pattern filePattern c r fileList results :
  pathExists (tree (world c r)) = true ->
  isCacheValid (cache (world c r)) (tree (world c r)) = false ->
  globby (tree (world c r)) (String.append "**/" filePattern) = Some fileList ->
  searchRepo rt world pattern filePattern c r results
  = Done (results
          ++ flat_map (scanRecord (tree (world c r)) c r pattern) fileList).
Proof.
  intros He Hv Hg. unfold searchRepo. rewrite He. cbn [negb].
  rewrite Hv, Hg. now rewrite fold_scanFile_records.
Qed.

(** X2.  The records of the fallback scan.  For a repository whose cache is not
    valid and whose files can be enumerated, the scan adds one record for
    each enumerated file that can be read and has a line containing the
    pattern, in enumeration order, and nothing for the others. *)
Theorem fallback_scan_one_record_per_matching_file :
  forall (rt : Runtime) (world : World)
         (pattern filePattern c r : string) (fileList : list string),
    pathExists (tree (world c r)) = true ->
    isCacheValid (cache (world c r)) (tree (world c r)) = false ->
    globby (tree (world c r)) (String.append "**/" filePattern)
      = Some fileList ->
    exists found,
      searchRepo rt world pattern filePattern c r [] = Done found /\
      map SearchResult.file found
      = filter (fileHasMatch (tree (world c r)) pattern) fileList /\
      (NoDup fileList -> NoDup (map SearchResult.file found)).
Proof.
  intros rt world pattern filePattern c r fileList He Hv Hg.
  eexists. split; [apply searchRepo_fallback; eassumption|].
  simpl. rewrite scanRecord_files. split; [reflexivity|].
  apply NoDup_filter.
Qed.

(** X3.  The content of a record of the fallback scan.  The record of a file
    carries the category and repository searched and one match for every
    line of the file that contains the pattern as a substring, in line
    order, and no other match. *)
Theorem fallback_scan_record_lists_matching_lines :
  forall (rt : Runtime) (world : World)
         (pattern filePattern c r : string) (fileList : list string),
    pathExists (tree (world c r)) = true ->
    isCacheValid (cache (world c r)) (tree (world c r)) = false ->
    globby (tree (world c r)) (String.append "**/" filePattern)
      = Some fileList ->
    exists found,
      searchRepo rt world pattern filePattern c r [] = Done found /\
      forall x, In x found ->
        SearchResult.category x = c /\ SearchResult.repo x = r /\
        In (SearchResult.file x) fileList /\
        exists content,
          readFile (tree (world c r)) (SearchResult.file x) = Some content /\
          let lines := Js.split Js.newline content in
          SearchResult.matches x
          = map (matchAt lines) (matchingIndices pattern lines) /\
          forall i, In i (matchingIndices pattern lines) <->
                    i < List.length lines /\
                    Js.includes pattern (nth i lines EmptyString) = true.
Proof.
  intros rt world pattern filePattern c r fileList He Hv Hg.
  eexists. split; [apply searchRepo_fallback; eassumption|].
  simpl. intros x Hx. apply in_flat_map in Hx as (f & Hf & Hx).
  unfold scanRecord in Hx.
  destruct (readFile (tree (world c r)) f) as [content|] eqn:Hread;
    [|destruct Hx].
  destruct (matchingLines pattern (Js.split Js.newline content)) eqn:E;
    [destruct Hx|].
  destruct Hx as [<-|[]]. simpl.
  repeat split; try assumption.
  exists content. split; [exact Hread|]. split.
  - rewrite <- E. apply matchingLines_indices.
  - apply In_matchingIndices.
Qed.

Lemma Forall_positionResults (P : SearchResult.t -> Prop) c r f lines positions :
  (forall i, i < List.length lines ->
             P (SearchResult.mk c r f [matchAt lines i])) ->
  Forall P (positionResults c r f lines positions).
Proof.
  intros HP. apply Forall_forall. intros x Hx.
  apply In_positionResults in Hx as (i & _ & Hi & ->). auto.
Qed.

Lemma emitPosting_records (P : SearchResult.t -> Prop) rt tr c r filePattern p :
  (forall f lines i, i < List.length lines ->
                     P (SearchResult.mk c r f [matchAt lines i])) ->
  forall results,
    Forall P results ->
    Forall P (stateOf (emitPosting rt tr c r filePattern p results)).
Proof.
  intros HP results Hres. unfold emitPosting.
  destruct (fileMatches rt filePattern (Posting.file p)) as [[|]|];
    simpl; try exact Hres.
  destruct (readFile tr (Posting.file p)); simpl; [|exact Hres].
  apply Forall_app. split; [exact Hres|].
  apply Forall_positionResults. auto.
Qed.

Lemma searchRepo_records (P : SearchResult.t -> Prop) rt world pattern
  filePattern c r :
  (forall f lines i, i < List.length lines ->
                     P (SearchResult.mk c r f [matchAt lines i])) ->
  (forall f lines, matchingIndices pattern lines <> [] ->
     P (SearchResult.mk c r f
          (map (matchAt lines) (matchingIndices pattern lines)))) ->
  forall results,
    Forall P results ->
    Forall P (stateOf (searchRepo rt world pattern filePattern c r results)).
Proof.
  intros Hone Hmany results Hres. unfold searchRepo.
  destruct (negb _); [exact Hres|].
  destruct (isCacheValid _ _).
  - destruct (searchIndexDoc _) as [| |idx]; try exact Hres.
    unfold searchCached.
    assert (Forall P (stateOf (exactLookup rt (tree (world c r)) c r pattern
                                           filePattern idx results))) as Hex.
    { unfold exactLookup.
      destruct (JsObj.get (exactTerms idx) pattern); simpl; try exact Hres.
      apply forEach_invariant; [|exact Hres].
      intros p res _. apply emitPosting_records. exact Hone. }
    destruct (exactLookup rt (tree (world c r)) c r pattern filePattern idx
                          results) as [res|res]; simpl in *; [|exact Hex].
    destruct (fuzzyAttempted res); simpl; [|exact Hex].
    unfold fuzzyLookup. destruct (newRegExp rt pattern true); [|exact Hex].
    apply forEach_invariant; [|exact Hex].
    intros [term postings] res' _ Hres'. simpl.
    destruct (b term); [|exact Hres'].
    apply forEach_invariant; [|exact Hres'].
    intros p res'' _. apply emitPosting_records. exact Hone.
  - destruct (globby _ _) as [fileList|]; simpl; [|exact Hres].
    rewrite fold_scanFile_records. apply Forall_app. split; [exact Hres|].
    apply Forall_forall. intros x Hx.
    apply in_flat_map in Hx as (f & _ & Hx). unfold scanRecord in Hx.
    destruct (readFile (tree (world c r)) f) as [content|]; [|destruct Hx].
    rewrite matchingLines_indices in Hx.
    destruct (matchingIndices pattern (Js.split Js.newline content))
      as [|i0 rest] eqn:E; simpl in Hx; [destruct Hx|].
    destruct Hx as [<-|[]].
    change (matchAt (Js.split Js.newline content) i0
            :: map (matchAt (Js.split Js.newline content)) rest)
      with (map (matchAt (Js.split Js.newline content)) (i0 :: rest)).
    rewrite <- E. apply Hmany. rewrite E. discriminate.
Qed.

(** What holds of the records of every searched repository holds of the
    results of the query. *)
Lemma searchCodeWithCache_records (P : SearchResult.t -> Prop) rt world pattern
  filePattern categoryFilter repoFilter cfg :
  (forall c r f lines i,
     Searched categoryFilter repoFilter cfg c r ->
     i < List.length lines ->
     P (SearchResult.mk c r f [matchAt lines i])) ->
  (forall c r f lines,
     Searched categoryFilter repoFilter cfg c r ->
     matchingIndices pattern lines <> [] ->
     P (SearchResult.mk c r f
          (map (matchAt lines) (matchingIndices pattern lines)))) ->
  Forall P (searchCodeWithCache rt world pattern filePattern categoryFilter
                                repoFilter cfg).
Proof.
  intros Hone Hmany. unfold searchCodeWithCache.
  assert (Forall P (stateOf (searchRun rt world pattern filePattern
                                       categoryFilter repoFilter cfg))) as H.
  { unfold searchRun. fold (categoriesOf categoryFilter cfg).
    apply forEach_invariant; [|constructor].
    intros c res Hc Hres. unfold searchCategory.
    destruct (JsObj.get cfg c) eqn:G; simpl; try exact Hres.
    - apply forEach_invariant; [|exact Hres].
      intros r res' Hr. apply searchRepo_records.
      + intros. apply Hone; [|assumption].
        split; [exact Hc|]. rewrite G. split; [discriminate | exact Hr].
      + intros. apply Hmany; [|assumption].
        split; [exact Hc|]. rewrite G. split; [discriminate | exact Hr].
    - apply forEach_invariant; [|exact Hres].
      intros r res' Hr. apply searchRepo_records.
      + intros. apply Hone; [|assumption].
        split; [exact Hc|]. rewrite G. split; [discriminate | exact Hr].
      + intros. apply Hmany; [|assumption].
        split; [exact Hc|]. rewrite G. split; [discriminate | exact Hr]. }
  destruct (searchRun rt world pattern filePattern categoryFilter repoFilter cfg);
    [exact H | constructor].
Qed.

(** X4.  Every record that searchCodeWithCache returns has at least one match,
    and every match is well formed: a 1-based line number and the entry of
    that line, flagged, in its context. *)
Theorem search_records_have_matches :
  forall (rt : Runtime) (world : World) (pattern filePattern : string)
         (categoryFilter repoFilter : option string) (cfg : RepoStructure)
         (x : SearchResult.t),
    In x (searchCodeWithCache rt world pattern filePattern categoryFilter
                              repoFilter cfg) ->
    SearchResult.matches x <> [] /\
    forall m, In m (SearchResult.matches x) ->
      1 <= SearchMatch.line m /\
      In (ContextLine.mk (SearchMatch.line m) (SearchMatch.content m) true)
         (SearchMatch.context m).
Proof.
  intros rt world pattern filePattern categoryFilter repoFilter cfg x Hx.
  assert (forall lines i, i < List.length lines ->
            1 <= SearchMatch.line (matchAt lines i) /\
            In (ContextLine.mk (SearchMatch.line (matchAt lines i))
                               (SearchMatch.content (matchAt lines i)) true)
               (SearchMatch.context (matchAt lines i))) as Hm.
  { intros lines i Hi. split; [simpl; lia|].
    rewrite (matchAt_context lines i Hi). apply in_map_iff. exists i. split.
    - unfold contextEntry. simpl. now rewrite Nat.eqb_refl.
    - apply in_seq. lia. }
  revert x Hx. apply Forall_forall.
  apply searchCodeWithCache_records.
  - intros c r f lines i _ Hi. simpl. split; [discriminate|].
    intros m [<-|[]]. apply Hm. exact Hi.
  - intros c r f lines _ Hne. simpl. split.
    + destruct (matchingIndices pattern lines); [contradiction|discriminate].
    + intros m Hin. apply in_map_iff in Hin as (i & <- & Hi).
      apply In_matchingIndices in Hi as [Hi _]. apply Hm. exact Hi.
Qed.

(** X5.  The filters of a query are respected.  Every record carries a
    category and a repository that the query searches: the category filter
    when there is one and else a key of the registry; the repository filter
    when there is one and else a key of that category's entry. *)
Theorem search_records_respect_filters :
  forall (rt : Runtime) (world : World) (pattern filePattern : string)
         (categoryFilter repoFilter : option string) (cfg : RepoStructure)
         (x : SearchResult.t),
    In x (searchCodeWithCache rt world pattern filePattern categoryFilter
                              repoFilter cfg) ->
    match truthy categoryFilter with
    | Some c => SearchResult.category x = c
    | None => In (SearchResult.category x) (JsObj.keys cfg)
    end /\
    match truthy repoFilter with
    | Some r => SearchResult.repo x = r
    | None =>
        exists repos,
          JsObj.own cfg (SearchResult.category x) = Some repos /\
          In (SearchResult.repo x) (JsObj.keys repos)
    end.
Proof.
  intros rt world pattern filePattern categoryFilter repoFilter cfg.
  apply Forall_forall.
  assert (forall c r f ms,
            Searched categoryFilter repoFilter cfg c r ->
            let x := SearchResult.mk c r f ms in
            match truthy categoryFilter with
            | Some c => SearchResult.category x = c
            | None => In (SearchResult.category x) (JsObj.keys cfg)
            end /\
            match truthy repoFilter with
            | Some r => SearchResult.repo x = r
            | None =>
                exists repos,
                  JsObj.own cfg (SearchResult.category x) = Some repos /\
                  In (SearchResult.repo x) (JsObj.keys repos)
            end) as H.
  { intros c r f ms (Hc & Hg & Hr). simpl. unfold categoriesOf in Hc.
    unfold reposOf in Hr. split.
    - destruct (truthy categoryFilter); [|exact Hc].
      destruct Hc as [<-|[]]. reflexivity.
    - destruct (truthy repoFilter); [destruct Hr as [<-|[]]; reflexivity|].
      destruct (JsObj.get cfg c) as [repos| |] eqn:G; try destruct Hr.
      exists repos. split; [apply get_own; exact G | assumption]. }
  apply searchCodeWithCache_records; intros; apply H; assumption.
Qed.

Lemma Keys_nil P : Keys P [].
Proof. intros k ps H. discriminate. Qed.

Lemma Keys_set P o k ps0 ps :
  Keys P o -> JsObj.own o k = Some ps0 -> Keys P (JsObj.set o k ps).
Proof.
  intros Ho Hk k' ps' H. apply own_set_inv in H as [[-> _]|[_ H]]; eauto.
Qed.

Lemma Keys_ensureList P o k :
  Keys P o -> (JsObj.inherited k = false -> P k) -> Keys P (ensureList o k).
Proof.
  intros Ho Hk. unfold ensureList, JsObj.get.
  destruct (JsObj.own o k) as [ps|] eqn:E; [exact Ho|].
  destruct (JsObj.inherited k) eqn:I; [exact Ho|].
  intros k' ps' H. apply own_set_inv in H as [[-> _]|[_ H]]; eauto.
Qed.

Lemma indexExactTerm_Keys P file n term idx processed :
  (JsObj.inherited term = false -> P term) ->
  Keys P (exactTerms idx) ->
  Keys P (exactTerms (fst (stateOf (indexExactTerm file n term
                                                   (idx, processed))))).
Proof.
  intros Hk Hex. unfold indexExactTerm.
  pose proof (Keys_ensureList P (exactTerms idx) term Hex Hk) as He.
  destruct (JsObj.get (ensureList (exactTerms idx) term) term)
    as [ps| |] eqn:G; simpl; try exact He.
  apply get_own in G.
  destruct (negb _); simpl; [eapply Keys_set; eauto|].
  destruct (findEntry file ps) as [e|]; simpl; [eapply Keys_set; eauto|].
  exact He.
Qed.

Lemma indexSubTerm_Keys P file n sub tm :
  (JsObj.inherited (Js.toLowerCase sub) = false -> P (Js.toLowerCase sub)) ->
  Keys P tm ->
  Keys P (stateOf (indexSubTerm file n sub tm)).
Proof.
  intros Hk Htm. unfold indexSubTerm.
  pose proof (Keys_ensureList P tm (Js.toLowerCase sub) Htm Hk) as He.
  destruct (JsObj.get (ensureList tm (Js.toLowerCase sub))
                      (Js.toLowerCase sub)) as [ps| |] eqn:G;
    simpl; try exact He.
  apply get_own in G.
  destruct (findEntry file ps) as [e|]; simpl; eapply Keys_set; eauto.
Qed.

Lemma indexTerm_Keys PE PT file n term pass :
  ((String.length term <? 3) || isStopWord term = false ->
   (JsObj.inherited term = false -> PE term) /\
   forall sub, In sub (subTermsOf term) ->
     JsObj.inherited (Js.toLowerCase sub) = false ->
     PT (Js.toLowerCase sub)) ->
  Keys PE (exactTerms (fst pass)) /\ Keys PT (terms (fst pass)) ->
  let pass' := stateOf (indexTerm file n term pass) in
  Keys PE (exactTerms (fst pass')) /\ Keys PT (terms (fst pass')).
Proof.
  intros Hstep [HE HT]. cbv zeta. unfold indexTerm.
  destruct ((String.length term <? 3) || isStopWord term) eqn:F;
    [split; assumption|].
  destruct (Hstep eq_refl) as [HkE HkT]. destruct pass as [idx processed].
  pose proof (indexExactTerm_Keys PE file n term idx processed HkE HE) as HE'.
  pose proof (indexExactTerm_terms file n term idx processed) as HT'.
  destruct (indexExactTerm file n term (idx, processed))
    as [[idx' processed']|[idx' processed']]; simpl in *.
  - assert (Keys PT (stateOf (forEach (indexSubTerm file n)
                                      (subTermsOf term) (terms idx')))) as H.
    { apply forEach_invariant; [|rewrite HT'; exact HT].
      intros sub tm Hin Htm. apply indexSubTerm_Keys; auto. }
    destruct (forEach (indexSubTerm file n) (subTermsOf term) (terms idx'));
      simpl in *; split; assumption.
  - split; [exact HE' | rewrite HT'; exact HT].
Qed.

(** The induction principle of the index for its keys. *)
Lemma buildSearchIndex_Keys PE PT tr structure :
  (forall file n term, Indexed tr structure file n term ->
     JsObj.inherited term = false -> PE term) ->
  (forall file n term sub, Indexed tr structure file n term ->
     In sub (subTermsOf term) ->
     JsObj.inherited (Js.toLowerCase sub) = false ->
     PT (Js.toLowerCase sub)) ->
  Keys PE (exactTerms (buildSearchIndex tr structure)) /\
  Keys PT (terms (buildSearchIndex tr structure)).
Proof.
  intros HkE HkT. unfold buildSearchIndex.
  apply (fold_left_invariant
           (fun idx => Keys PE (exactTerms idx) /\ Keys PT (terms idx)));
    [|split; apply Keys_nil].
  intros [file info] idx Hin Hidx. unfold indexFile.
  destruct (N.ltb_spec (1024 * 1024) (size info)) as [|Hsize]; [exact Hidx|].
  destruct (hasIndexedExtension file) eqn:Hext; [|exact Hidx]. simpl.
  destruct (readFile tr file) as [content|] eqn:Hread; [|exact Hidx].
  apply (forEach_invariant
           (fun pass => Keys PE (exactTerms (fst pass))
                        /\ Keys PT (terms (fst pass)))); [|exact Hidx].
  intros [lineNo line] pass Hline Hpass. unfold indexLine.
  apply (forEach_invariant
           (fun pass => Keys PE (exactTerms (fst pass))
                        /\ Keys PT (terms (fst pass)))); [|exact Hpass].
  intros term pass' Hterm Hpass'. simpl in Hterm.
  apply indexTerm_Keys; [|exact Hpass'].
  intros F. apply orb_false_iff in F as [Flen Fstop].
  apply Nat.ltb_ge in Flen.
  assert (Indexed tr structure file lineNo term) as Hix.
  { exists info, content, line. repeat split; assumption. }
  split; [apply (HkE file lineNo); exact Hix|].
  intros sub Hsub. eapply HkT; eauto.
Qed.

Lemma snoc_allChars p t c :
  allChars p t = true -> p c = true -> allChars p (Js.snoc t c) = true.
Proof.
  intros Ht Hc. induction t as [|x t IH]; simpl in *.
  - now rewrite Hc.
  - apply andb_true_iff in Ht as [Hx Ht]. rewrite Hx. simpl. auto.
Qed.

Lemma snoc_isIdentifier t c :
  isIdentifier t = true -> Js.identChar c = true ->
  isIdentifier (Js.snoc t c) = true.
Proof.
  destruct t as [|x t]; simpl; [discriminate|].
  intros H Hc. apply andb_true_iff in H as [Hx Ht]. rewrite Hx. simpl.
  apply snoc_allChars; assumption.
Qed.

Lemma matchIdentsAcc_isIdentifier s :
  forall cur t,
    (forall t0, cur = Some t0 -> isIdentifier t0 = true) ->
    In t (Js.matchIdentsAcc cur s) -> isIdentifier t = true.
Proof.
  induction s as [|c s IH]; intros cur t Hcur; simpl.
  - destruct cur as [t0|]; simpl; [|tauto]. intros [<-|[]]. auto.
  - destruct cur as [t0|].
    + destruct (Js.identChar c) eqn:C.
      * apply IH. intros t1 H. inversion H; subst.
        apply snoc_isIdentifier; auto.
      * intros [<-|H]; [auto|]. revert H. apply IH. discriminate.
    + destruct (Js.identStart c) eqn:C; apply IH.
      * intros t1 H. inversion H; subst. simpl. now rewrite C.
      * discriminate.
Qed.

Lemma matchIdents_isIdentifier line t :
  In t (Js.matchIdents line) -> isIdentifier t = true.
Proof. apply matchIdentsAcc_isIdentifier. discriminate. Qed.

Lemma toLowerChar_not_upper c : Js.isUpper (Js.toLowerChar c) = false.
Proof.
  unfold Js.toLowerChar. destruct (Js.isUpper c) eqn:U; [|exact U].
  unfold Js.isUpper, Js.inRange, Js.code in *.
  apply andb_true_iff in U as [U1 U2].
  apply Nat.leb_le in U1. apply Nat.leb_le in U2.
  rewrite nat_ascii_embedding by lia.
  apply andb_false_iff. right. apply Nat.leb_gt. lia.
Qed.

Lemma toLowerCase_idempotent s :
  Js.toLowerCase (Js.toLowerCase s) = Js.toLowerCase s.
Proof.
  induction s as [|c s IH]; simpl; [reflexivity|]. rewrite IH. f_equal.
  unfold Js.toLowerChar at 1. now rewrite toLowerChar_not_upper.
Qed.

Lemma toLowerCase_length s :
  String.length (Js.toLowerCase s) = String.length s.
Proof. induction s as [|c s IH]; simpl; [reflexivity | now rewrite IH]. Qed.

Lemma subTermsOf_long term sub :
  In sub (subTermsOf term) -> 2 < String.length sub.
Proof.
  unfold subTermsOf. intros H.
  apply in_app_or in H as [H|H]; apply filter_In in H as [_ H];
    apply Nat.ltb_lt in H; exact H.
Qed.

(** X6.  The keys of the index.  A key of [exactTerms] is an identifier of at
    least three characters that is neither a stop word nor a name inherited
    from Object.prototype; a key of [terms] is in lower case, longer than
    two characters, and not an inherited name either. *)
Theorem index_keys_are_filtered_identifiers :
  forall (tr : WorkTree) (structure : FileStructure) (k : string)
         (ps : list Posting.t),
    (JsObj.own (exactTerms (buildSearchIndex tr structure)) k = Some ps ->
     isIdentifier k = true /\ 3 <= String.length k /\
     isStopWord k = false /\ JsObj.inherited k = false) /\
    (JsObj.own (terms (buildSearchIndex tr structure)) k = Some ps ->
     Js.toLowerCase k = k /\ 2 < String.length k /\
     JsObj.inherited k = false).
Proof.
  intros tr structure k ps.
  destruct (buildSearchIndex_Keys
              (fun k => isIdentifier k = true /\ 3 <= String.length k /\
                        isStopWord k = false /\ JsObj.inherited k = false)
              (fun k => Js.toLowerCase k = k /\ 2 < String.length k /\
                        JsObj.inherited k = false)
              tr structure) as [HE HT].
  - intros file n term (info & content & line & _ & _ & _ & _ & _ & Htok
                        & Hlen & Hstop) Hinh.
    repeat split; try assumption. eapply matchIdents_isIdentifier; eauto.
  - intros file n term sub _ Hsub Hinh. split; [|split; [|exact Hinh]].
    + apply toLowerCase_idempotent.
    + rewrite toLowerCase_length. eapply subTermsOf_long; eauto.
  - split; intros H; [exact (HE _ _ H) | exact (HT _ _ H)].
Qed.

Lemma forEach_throws {A S} (body : A -> S -> Outcome S) l a :
  In a l -> (forall s, exists s', body a s = Thrown s') ->
  forall s, exists s', forEach body l s = Thrown s'.
Proof.
  induction l as [|b l IH]; intros Hin Ha s; [destruct Hin|]. simpl.
  destruct Hin as [->|Hin].
  - destruct (Ha s) as [s' ->]. eauto.
  - destruct (body b s) as [s1|s1]; eauto.
Qed.

Lemma built_index_has_no_inherited_key tr structure k :
  JsObj.inherited k = true ->
  JsObj.get (exactTerms (buildSearchIndex tr structure)) k = JsObj.Proto.
Proof.
  intros Hk.
  destruct (buildSearchIndex_Keys
              (fun k => JsObj.inherited k = false) (fun _ => True)
              tr structure) as [HE _]; auto.
  unfold JsObj.get.
  destruct (JsObj.own (exactTerms (buildSearchIndex tr structure)) k)
    as [ps|] eqn:E.
  - apply HE in E. congruence.
  - now rewrite Hk.
Qed.

(** X7.  A pattern that is a name inherited from Object.prototype, such as
    [constructor], makes the exact lookup of a built index throw: when any
    searched repository has a valid cache holding an index that the program
    built, the whole query returns no result, whatever the other
    repositories contain. *)
Theorem inherited_pattern_aborts_query :
  forall (rt : Runtime) (world : World) (pattern filePattern : string)
         (categoryFilter repoFilter : option string)
         (repoConfig : RepoStructure) (c r : string)
         (tr0 : WorkTree) (structure0 : FileStructure),
    Searched categoryFilter repoFilter repoConfig c r ->
    pathExists (tree (world c r)) = true ->
    isCacheValid (cache (world c r)) (tree (world c r)) = true ->
    searchIndexDoc (cache (world c r))
      = Parsed (buildSearchIndex tr0 structure0) ->
    JsObj.inherited pattern = true ->
    searchCodeWithCache rt world pattern filePattern categoryFilter
                        repoFilter repoConfig = [].
Proof.
  intros rt world pattern filePattern cf rf cfg c r tr0 s0
         (Hc & Hget & Hr) Hpath Hvalid Hdoc Hinh.
  unfold searchCodeWithCache, searchRun. fold (categoriesOf cf cfg).
  destruct (forEach_throws
              (searchCategory rt world pattern filePattern rf cfg)
              (categoriesOf cf cfg) c Hc) with (s := @nil SearchResult.t)
    as [s' ->]; [|reflexivity].
  intros s. unfold searchCategory.
  assert (exists s', forEach (searchRepo rt world pattern filePattern c)
                             (reposOf rf (JsObj.get cfg c)) s = Thrown s')
    as [s' Hs'].
  { apply forEach_throws with (a := r); [exact Hr|].
    intros s1. unfold searchRepo. cbv zeta.
    rewrite Hpath, Hvalid, Hdoc. cbn [negb]. unfold searchCached, exactLookup.
    rewrite (built_index_has_no_inherited_key tr0 s0 pattern Hinh). eauto. }
  destruct (JsObj.get cfg c); [eauto|eauto|congruence].
Qed.

Lemma Infix_refl_append t b : Infix t (String.append t b).
Proof. exists EmptyString, b. reflexivity. Qed.

Lemma Infix_trans a b c : Infix a b -> Infix b c -> Infix a c.
Proof.
  intros (x & y & ->) (u & v & ->).
  exists (String.append u x), (String.append y v).
  now rewrite !append_assoc.
Qed.

Lemma splitAcc_Infix sep s :
  forall cur t, In t (Js.splitAcc sep cur s) -> Infix t (String.append cur s).
Proof.
  induction s as [|c s IH]; intros cur t; simpl.
  - intros [<-|[]]. apply Infix_refl_append.
  - destruct (Ascii.eqb c sep).
    + intros [<-|H]; [apply Infix_refl_append|].
      apply Infix_append_l, Infix_cons. exact (IH EmptyString t H).
    + intros H. apply IH in H. now rewrite snoc_append in H.
Qed.

Lemma splitUpperAcc_Infix s :
  forall cur t, In t (Js.splitUpperAcc cur s) -> Infix t (String.append cur s).
Proof.
  induction s as [|c s IH]; intros cur t; simpl.
  - intros [<-|[]]. apply Infix_refl_append.
  - destruct (Js.isUpper c && negb (String.eqb cur EmptyString)).
    + intros [<-|H]; [apply Infix_refl_append|].
      apply Infix_append_l. exact (IH _ t H).
    + intros H. apply IH in H. now rewrite snoc_append in H.
Qed.

Lemma subTermsOf_Infix term sub : In sub (subTermsOf term) -> Infix sub term.
Proof.
  unfold subTermsOf. intros H.
  apply in_app_or in H as [H|H]; apply filter_In in H as [H _].
  - exact (splitUpperAcc_Infix term EmptyString sub H).
  - exact (splitAcc_Infix _ term EmptyString sub H).
Qed.

Lemma toLowerCase_append a b :
  Js.toLowerCase (String.append a b)
  = String.append (Js.toLowerCase a) (Js.toLowerCase b).
Proof. induction a as [|x a IH]; simpl; [reflexivity | now rewrite IH]. Qed.

Lemma Infix_toLowerCase t s :
  Infix t s -> Infix (Js.toLowerCase t) (Js.toLowerCase s).
Proof.
  intros (a & b & ->). exists (Js.toLowerCase a), (Js.toLowerCase b).
  now rewrite !toLowerCase_append.
Qed.

Lemma matchIdents_Infix t line : In t (Js.matchIdents line) -> Infix t line.
Proof. intros H. exact (matchIdentsAcc_Infix line None t H). Qed.

Lemma existsb_eqb_In n l : existsb (Nat.eqb n) l = true <-> In n l.
Proof.
  rewrite existsb_exists. split.
  - intros (x & Hx & E). apply Nat.eqb_eq in E. now subst.
  - intros H. exists n. split; [exact H | apply Nat.eqb_refl].
Qed.

Lemma terms_postings tr structure :
  Postings (TermPosting tr) (terms (buildSearchIndex tr structure)).
Proof.
  apply (buildSearchIndex_Postings (fun _ _ => True) (TermPosting tr)).
  - intros; split; auto.
  - intros file n term sub
           (info & content & line & _ & _ & _ & Hread & Hline & Htok & _)
           Hsub.
    assert (Js.includes (Js.toLowerCase sub) (Js.toLowerCase line) = true)
      as Hinc.
    { apply includes_Infix, Infix_toLowerCase.
      eapply Infix_trans; [apply subTermsOf_Infix; eassumption|].
      apply matchIdents_Infix; assumption. }
    split.
    + split; [|split].
      * simpl. constructor; [intros []|constructor].
      * simpl. lia.
      * simpl. intros m [<-|[]]. exists content, line. auto.
    + intros e (Hnd & Hlen & Hpos) Hfile. unfold bumpTerm, TermPosting.
      destruct (existsb (Nat.eqb n) (Posting.positions e)) eqn:E; simpl.
      * split; [exact Hnd|]. split; [lia|exact Hpos].
      * split; [|split].
        -- apply NoDup_app; [exact Hnd | constructor; [intros []|constructor] |].
           intros x Hx [<-|[]].
           apply existsb_eqb_In in Hx. congruence.
        -- rewrite length_app. simpl. lia.
        -- intros m Hm. apply in_app_or in Hm as [Hm|[<-|[]]]; [auto|].
           exists content, line. rewrite Hfile. auto.
Qed.

(** X8.  The postings of the sub-term dictionary.  In the index that
    buildSearchIndex returns, a posting under a key of [terms] lists distinct
    line numbers, at least one and no more than its [occurrences] counter,
    and every listed line is a line of the posting's file, as it was read,
    that contains the key when letter case is ignored. *)
Theorem terms_positions_are_distinct_lines_containing_the_key :
  forall (tr : WorkTree) (structure : FileStructure) (k : string)
         (ps : list Posting.t) (p : Posting.t),
    JsObj.own (terms (buildSearchIndex tr structure)) k = Some ps ->
    In p ps ->
    NoDup (Posting.positions p) /\
    1 <= List.length (Posting.positions p) <= Posting.occurrences p /\
    forall n, In n (Posting.positions p) ->
      exists content lineText,
        readFile tr (Posting.file p) = Some content /\
        1 <= n <= List.length (Js.split Js.newline content) /\
        nth (n - 1) (Js.split Js.newline content) EmptyString = lineText /\
        Js.includes k (Js.toLowerCase lineText) = true.
Proof.
  intros tr structure k ps p Hown Hin.
  destruct (terms_postings tr structure k ps p Hown Hin) as (Hnd & Hlen & Hpos).
  split; [exact Hnd|]. split; [exact Hlen|].
  intros n Hn. destruct (Hpos n Hn) as (content & line & Hread & Hline & Hinc).
  apply In_numbered in Hline as (i & -> & Hi & Hnth).
  exists content, line. split; [exact Hread|]. split; [lia|].
  split; [|exact Hinc]. now replace (S i - 1) with i by lia.
Qed.

(** ** The body of a class *)

Lemma depth_open s : depth (String "{" s) = (1 + depth s)%Z.
Proof. reflexivity. Qed.

Lemma depth_close s : depth (String "}" s) = (-1 + depth s)%Z.
Proof. reflexivity. Qed.

Lemma depth_other ch s :
  Ascii.eqb ch "{" = false -> Ascii.eqb ch "}" = false ->
  depth (String ch s) = depth s.
Proof. intros Ho Hc. cbn [depth]. rewrite Ho, Hc. apply Z.add_0_l. Qed.

Lemma depth_nil : depth EmptyString = 0%Z.
Proof. reflexivity. Qed.

Lemma ClosesAt_nil bc : ~ ClosesAt bc EmptyString.
Proof. intros (p & q & Hp & _). destruct p; discriminate. Qed.

(** How [ClosesAt] reads the first character. *)
Lemma ClosesAt_cons bc ch s :
  ClosesAt bc (String ch s) ->
  (ch = "}"%char /\ bc = 1%Z) \/
  ClosesAt (bc + depth (String ch EmptyString)) s.
Proof.
  intros (p & q & Hp & Hc). destruct p as [|x p]; cbn [String.append] in Hp.
  - inversion Hp; subst. left. rewrite depth_nil in Hc. split; [reflexivity|lia].
  - inversion Hp; subst. right. exists p, q. split; [reflexivity|].
    cbn [depth] in *. lia.
Qed.

Lemma findClassEnd_some rest :
  forall i bc e,
    findClassEnd rest i bc = Some e ->
    exists body tail,
      rest = String.append body (String "}" tail) /\
      e = i + String.length body /\
      (bc + depth body = 1)%Z /\
      ~ ClosesAt bc body.
Proof.
  induction rest as [|ch rest IH]; intros i bc e; cbn [findClassEnd];
    [discriminate|].
  destruct (Ascii.eqb ch "{") eqn:Eo.
  - apply Ascii.eqb_eq in Eo. subst ch. intros H.
    apply IH in H as (body & tail & -> & -> & Hd & Hmin).
    exists (String "{" body), tail. cbn [String.append String.length].
    rewrite depth_open.
    split; [reflexivity|]. split; [lia|]. split; [lia|].
    intros H. apply ClosesAt_cons in H as [[H _]|H]; [discriminate|].
    apply Hmin. rewrite depth_open, depth_nil in H.
    now replace (bc + (1 + 0))%Z with (bc + 1)%Z in H by lia.
  - destruct (Ascii.eqb ch "}") eqn:Ec.
    + apply Ascii.eqb_eq in Ec. subst ch.
      destruct (Z.eqb_spec (bc - 1) 0) as [Hz|Hz].
      * intros H. inversion H; subst. exists EmptyString, rest.
        cbn [String.append String.length]. rewrite depth_nil.
        split; [reflexivity|]. split; [lia|]. split; [lia|].
        apply ClosesAt_nil.
      * intros H. apply IH in H as (body & tail & -> & -> & Hd & Hmin).
        exists (String "}" body), tail. cbn [String.append String.length].
        rewrite depth_close.
        split; [reflexivity|]. split; [lia|]. split; [lia|].
        intros H. apply ClosesAt_cons in H as [[_ H]|H]; [lia|].
        apply Hmin. rewrite depth_close, depth_nil in H.
        now replace (bc + (-1 + 0))%Z with (bc - 1)%Z in H by lia.
    + intros H. apply IH in H as (body & tail & -> & -> & Hd & Hmin).
      exists (String ch body), tail. cbn [String.append String.length].
      rewrite (depth_other ch body Eo Ec).
      split; [reflexivity|]. split; [lia|]. split; [lia|].
      intros H. apply ClosesAt_cons in H as [[-> _]|H]; [discriminate|].
      apply Hmin. rewrite (depth_other ch _ Eo Ec), depth_nil in H.
      now replace (bc + 0)%Z with bc in H by lia.
Qed.

Lemma findClassEnd_none rest :
  forall i bc, findClassEnd rest i bc = None -> ~ ClosesAt bc rest.
Proof.
  induction rest as [|ch rest IH]; intros i bc; cbn [findClassEnd].
  - intros _. apply ClosesAt_nil.
  - destruct (Ascii.eqb ch "{") eqn:Eo.
    + apply Ascii.eqb_eq in Eo. subst ch. intros H C.
      apply ClosesAt_cons in C as [[C _]|C]; [discriminate|].
      apply (IH _ _ H). rewrite depth_open, depth_nil in C.
      now replace (bc + (1 + 0))%Z with (bc + 1)%Z in C by lia.
    + destruct (Ascii.eqb ch "}") eqn:Ec.
      * apply Ascii.eqb_eq in Ec. subst ch.
        destruct (Z.eqb_spec (bc - 1) 0) as [Hz|Hz]; [discriminate|].
        intros H C. apply ClosesAt_cons in C as [[_ C]|C]; [lia|].
        apply (IH _ _ H). rewrite depth_close, depth_nil in C.
        now replace (bc + (-1 + 0))%Z with (bc - 1)%Z in C by lia.
      * intros H C. apply ClosesAt_cons in C as [[-> _]|C]; [discriminate|].
        apply (IH _ _ H). rewrite (depth_other ch _ Eo Ec), depth_nil in C.
        now replace (bc + 0)%Z with bc in C by lia.
Qed.

Lemma substring_prefix body tail :
  String.substring 0 (String.length body) (String.append body tail) = body.
Proof. induction body as [|c body IH]; simpl; [now destruct tail | now rewrite IH]. Qed.

Lemma substring_none n s : String.substring n 0 s = EmptyString.
Proof.
  revert s. induction n as [|n IH]; intros [|c s]; cbn [String.substring];
    auto.
Qed.

Lemma substring_sliceFrom n m s :
  String.substring n m s = String.substring 0 m (sliceFrom n s).
Proof.
  revert s. induction n as [|n IH]; intros s; simpl; [reflexivity|].
  destruct s as [|c s]; [now destruct m|]. apply IH.
Qed.

(** X9.  The class body of analyzeCodeStructure.  The text in which methods and
    properties are looked for runs from the end of the class header to the
    first closing brace at which the braces read so far balance, that brace
    excluded; it holds exactly one more opening than closing brace.  When no
    closing brace balances (the class is not closed, or a closing brace comes
    before the opening one and is never made up for), the body is empty. *)
Theorem class_body_ends_at_first_balancing_brace :
  forall (content : string) (classStartIndex : nat),
    let rest := sliceFrom classStartIndex content in
    let body := classBody content classStartIndex in
    (exists tail,
        rest = String.append body (String "}" tail) /\
        classEndIndex content classStartIndex
        = classStartIndex + String.length body /\
        depth body = 1%Z /\
        ~ ClosesAt 0 body)
    \/
    (body = EmptyString /\
     classEndIndex content classStartIndex = classStartIndex /\
     ~ ClosesAt 0 rest).
Proof.
  intros content start. cbv zeta. unfold classBody, classEndIndex.
  destruct (findClassEnd (sliceFrom start content) start 0) as [e|] eqn:F.
  - left. apply findClassEnd_some in F as (body & tail & Hrest & -> & Hd & Hmin).
    replace (start + String.length body - start) with (String.length body)
      by lia.
    rewrite substring_sliceFrom, Hrest, substring_prefix.
    exists tail. split; [reflexivity|]. split; [reflexivity|].
    split; [lia | exact Hmin].
  - right. split; [|split; [reflexivity|]].
    + rewrite Nat.sub_diag. apply substring_none.
    + eapply findClassEnd_none; eassumption.
Qed.

(** ** Resource URIs *)

Lemma splitAcc_free sep s :
  forall cur,
    allChars (fun ch => negb (Ascii.eqb ch sep)) s = true ->
    Js.splitAcc sep cur s = [String.append cur s].
Proof.
  induction s as [|c s IH]; intros cur H; cbn [Js.splitAcc allChars] in *.
  - now rewrite append_empty_r.
  - apply andb_true_iff in H as [Hc Hs]. apply negb_true_iff in Hc.
    rewrite Hc, (IH _ Hs), snoc_append. reflexivity.
Qed.

Lemma splitAcc_app sep a b :
  forall cur,
    allChars (fun ch => negb (Ascii.eqb ch sep)) a = true ->
    Js.splitAcc sep cur (String.append a (String sep b))
    = String.append cur a :: Js.splitAcc sep EmptyString b.
Proof.
  induction a as [|c a IH]; intros cur H;
    cbn [Js.splitAcc allChars String.append] in *.
  - now rewrite Ascii.eqb_refl, append_empty_r.
  - apply andb_true_iff in H as [Hc Ha]. apply negb_true_iff in Hc.
    rewrite Hc, (IH _ Ha), snoc_append. reflexivity.
Qed.

Lemma splitAcc_nonempty sep s : forall cur, Js.splitAcc sep cur s <> [].
Proof.
  induction s as [|c s IH]; intros cur; cbn [Js.splitAcc]; [discriminate|].
  destruct (Ascii.eqb c sep); [discriminate | apply IH].
Qed.

Lemma splitAcc_one sep s :
  forall cur x,
    Js.splitAcc sep cur s = [x] ->
    x = String.append cur s /\
    allChars (fun ch => negb (Ascii.eqb ch sep)) s = true.
Proof.
  induction s as [|c s IH]; intros cur x; cbn [Js.splitAcc allChars].
  - intros H. inversion H. now rewrite append_empty_r.
  - destruct (Ascii.eqb c sep) eqn:E.
    + intros H. injection H as _ H1. now apply splitAcc_nonempty in H1.
    + intros H. apply IH in H as [-> Hs]. rewrite snoc_append. now rewrite Hs.
Qed.

Lemma splitAcc_two sep s :
  forall cur x y,
    Js.splitAcc sep cur s = [x; y] ->
    exists a,
      s = String.append a (String sep y) /\ x = String.append cur a /\
      allChars (fun ch => negb (Ascii.eqb ch sep)) a = true /\
      allChars (fun ch => negb (Ascii.eqb ch sep)) y = true.
Proof.
  induction s as [|c s IH]; intros cur x y; cbn [Js.splitAcc];
    [discriminate|].
  destruct (Ascii.eqb c sep) eqn:E.
  - apply Ascii.eqb_eq in E. subst c. intros H. injection H as Hx Hy.
    subst x.
    apply splitAcc_one in Hy as [-> Hs]. exists EmptyString.
    now rewrite append_empty_r.
  - intros H. apply IH in H as (a & -> & -> & Ha & Hy).
    exists (String c a). cbn [String.append allChars].
    rewrite E, Ha, snoc_append. auto.
Qed.

Lemma startsWith_sliceFrom p :
  forall s, Js.startsWith p s = true ->
            s = String.append p (sliceFrom (String.length p) s).
Proof.
  induction p as [|a p IH]; intros s; cbn [Js.startsWith String.length].
  - now destruct s.
  - destruct s as [|b s]; [discriminate|]. intros H.
    apply andb_true_iff in H as [Hab Hp]. apply Ascii.eqb_eq in Hab. subst b.
    cbn [sliceFrom String.append]. f_equal. apply IH, Hp.
Qed.

Lemma sliceFrom_append p s :
  sliceFrom (String.length p) (String.append p s) = s.
Proof. induction p as [|a p IH]; [now destruct s | exact IH]. Qed.

Lemma eqb_empty_length s : String.eqb s EmptyString = false <-> s <> EmptyString.
Proof. destruct s; simpl; split; congruence. Qed.

(** X10.  The URI of a resource read back.  The expression of ReadResource
    matches a URI exactly when it is the URI that ListResources builds from a
    category and a repository name that are both non-empty and free of
    slashes, and it then gives back these two names.  So a configured
    repository whose name (or category) is empty or contains a slash is
    listed under a URI that ReadResource cannot resolve to it. *)
Theorem resource_uri_round_trip :
  forall (uri category repo : string),
    matchRepoUri uri = Some (category, repo) <->
    uri = resourceUri category repo /\
    isSegment category = true /\ isSegment repo = true.
Proof.
  intros uri c r. unfold matchRepoUri, isSegment, resourceUri. split.
  - destruct (Js.startsWith "repo://" uri) eqn:P; [|discriminate].
    apply startsWith_sliceFrom in P. change (String.length "repo://") with 7 in P.
    destruct (Js.split "/" (sliceFrom 7 uri)) as [|x [|y [|z l]]] eqn:S;
      try discriminate.
    destruct (negb (String.eqb x EmptyString)
              && negb (String.eqb y EmptyString)) eqn:N; [|discriminate].
    intros H. inversion H; subst x y. clear H.
    apply andb_true_iff in N as [Nc Nr].
    apply splitAcc_two in S as (a & S & Hc & Ha & Hr).
    cbn [String.append] in Hc. subst a.
    rewrite P at 1. rewrite S, Nc, Nr, Ha, Hr. auto.
  - intros (-> & Hc & Hr).
    apply andb_true_iff in Hc as [Nc Hc]. apply andb_true_iff in Hr as [Nr Hr].
    rewrite startsWith_append.
    change 7 with (String.length "repo://"). rewrite sliceFrom_append.
    unfold Js.split. cbn [String.append].
    rewrite (splitAcc_app "/" c r EmptyString Hc), (splitAcc_free "/" r _ Hr).
    cbn [String.append]. now rewrite Nc, Nr.
Qed.

(** ** The configuration file read and written *)

Lemma own_None_keys {V} (o : JsObj.t V) k :
  JsObj.own o k = None <-> ~ In k (JsObj.keys o).
Proof.
  induction o as [|[k' v] o IH]; simpl; [tauto|].
  destruct (String.eqb_spec k' k) as [->|N].
  - split; [discriminate | intros H; exfalso; apply H; auto].
  - rewrite IH. split; [intros H [E|I]; auto | tauto].
Qed.

Lemma own_spread {V} (source : JsObj.t V) :
  NoDup (JsObj.keys source) ->
  forall target k,
    JsObj.own (spread target source) k
    = match JsObj.own source k with
      | Some v => Some v
      | None => JsObj.own target k
      end.
Proof.
  unfold spread.
  induction source as [|[k' v] source IH]; intros Hnd target k;
    cbn [fold_left JsObj.own fst snd]; [reflexivity|].
  inversion Hnd as [|? ? Hk' Hnd']; subst. rewrite (IH Hnd').
  destruct (String.eqb_spec k' k) as [->|N].
  - apply own_None_keys in Hk'. rewrite Hk'. apply own_set_same.
  - rewrite (own_set_other target k' v k N). reflexivity.
Qed.

Lemma keys_set_new {V} (o : JsObj.t V) k v :
  JsObj.keys (JsObj.set o k v)
  = if existsb (String.eqb k) (JsObj.keys o) then JsObj.keys o
    else JsObj.keys o ++ [k].
Proof.
  induction o as [|[k' v'] o IH]; cbn [JsObj.set JsObj.keys map existsb fst];
    [reflexivity|].
  rewrite (String.eqb_sym k k').
  destruct (String.eqb_spec k' k) as [->|N]; [reflexivity|].
  cbn [map fst orb]. fold (JsObj.keys (JsObj.set o k v)). rewrite IH.
  fold (JsObj.keys o). now destruct (existsb (String.eqb k) (JsObj.keys o)).
Qed.


Lemma keys_spread {V} (source : JsObj.t V) :
  NoDup (JsObj.keys source) ->
  forall target,
    JsObj.keys (spread target source)
    = JsObj.keys target
      ++ filter (fun k => negb (existsb (String.eqb k) (JsObj.keys target)))
                (JsObj.keys source).
Proof.
  unfold spread.
  induction source as [|[k v] source IH]; intros Hnd target.
  - cbn [fold_left JsObj.keys map filter]. now rewrite app_nil_r.
  - change (JsObj.keys ((k, v) :: source)) with (k :: JsObj.keys source) in *.
    cbn [fold_left filter fst snd].
    inversion Hnd as [|? ? Hk Hnd']; subst.
    rewrite (IH Hnd'), keys_set_new.
    destruct (existsb (String.eqb k) (JsObj.keys target)) eqn:E;
      cbn [negb].
    + reflexivity.
    + rewrite <- app_assoc. cbn [app]. f_equal. f_equal.
      apply filter_ext_in. intros x Hx. rewrite existsb_app. cbn [existsb].
      rewrite orb_false_r.
      destruct (String.eqb_spec x k) as [->|N]; [contradiction|].
      now rewrite orb_false_r.
Qed.


(** X12.  The configuration file read back.  The file that the first run
    writes loads as the defaults again.  A configuration written by
    saveConfig loads with its base directory and with each of its categories
    unchanged, but every default category that it had left out comes back:
    a default category cannot be removed through the file. *)
Theorem saved_config_reloads_with_default_categories :
  forall (defaultBaseDir : string) (config : Config)
         (file : Doc PartialConfig) (writeOk : bool),
    let firstRun := loadConfig defaultBaseDir NoFile true in
    let loaded :=
      fst (loadConfig defaultBaseDir (saveConfig config file true) writeOk) in
    NoDup (JsObj.keys (repositories config)) ->
    loadConfig defaultBaseDir (snd firstRun) writeOk
    = (defaultConfig defaultBaseDir, snd firstRun) /\
    repoBaseDir loaded = repoBaseDir config /\
    (forall category repos,
        JsObj.own (repositories config) category = Some repos ->
        JsObj.own (repositories loaded) category = Some repos) /\
    (forall category,
        JsObj.own (repositories config) category = None ->
        JsObj.own (repositories loaded) category
        = JsObj.own defaultRepositories category) /\
    (forall category,
        In category (JsObj.keys defaultRepositories) ->
        In category (JsObj.keys (repositories loaded))).
Proof.
  intros base config file writeOk. cbv zeta. intros Hnd.
  split; [reflexivity|]. split; [reflexivity|].
  unfold saveConfig, loadConfig, stringified.
  cbn [fst snd repositories repoBaseDir defaultConfig fileRepositories].
  split; [|split].
  - intros c repos H. now rewrite (own_spread _ Hnd), H.
  - intros c H. now rewrite (own_spread _ Hnd), H.
  - intros c H. rewrite (keys_spread _ Hnd). apply in_or_app. now left.
Qed.

(** ** searchCode and the fallback scan *)

Lemma forEach_ext_in {A S} (body1 body2 : A -> S -> Outcome S) l :
  (forall a s, In a l -> body1 a s = body2 a s) ->
  forall s, forEach body1 l s = forEach body2 l s.
Proof.
  induction l as [|a l IH]; intros H s; simpl; [reflexivity|].
  rewrite (H a s (or_introl eq_refl)).
  destruct (body2 a s); [apply IH; intros; apply H; now right | reflexivity].
Qed.

Lemma searchRepo_uncached rt env world pattern filePattern c r results :
  repoExists env c r = pathExists (tree (world c r)) ->
  isCacheValid (cache (world c r)) (tree (world c r)) = false ->
  searchRepo rt world pattern filePattern c r results
  = searchRepoOriginal env world pattern filePattern c r results.
Proof.
  intros He Hv. unfold searchRepo, searchRepoOriginal. cbv zeta.
  now rewrite He, Hv.
Qed.

(** X13.  SearchCode and the fallback scan.  When no repository has a valid
    cache, the two searches see the same repositories on disk, and the
    repository filter, if given, is configured in the categories visited,
    searchCodeWithCache returns what searchCode of index.ts returns; where
    searchCode throws (an enumeration is rejected), searchCodeWithCache
    returns no result. *)
Theorem searchCodeWithCache_without_cache_is_searchCode :
  forall (rt : Runtime) (env : IndexEnv) (world : World)
         (pattern filePattern : string)
         (categoryFilter repoFilter : option string)
         (repoConfig : RepoStructure),
    (forall c r, repoExists env c r = pathExists (tree (world c r))) ->
    (forall c r, isCacheValid (cache (world c r)) (tree (world c r)) = false) ->
    FilterConfigured env categoryFilter repoFilter repoConfig ->
    searchCodeWithCache rt world pattern filePattern categoryFilter repoFilter
                        repoConfig
    = match searchCode env world pattern filePattern categoryFilter repoFilter
                       repoConfig with
      | Some results => results
      | None => []
      end.
Proof.
  intros rt env world pattern filePattern cf rf cfg Hex Hnv Hfc.
  unfold searchCodeWithCache, searchRun, searchCode.
  fold (categoriesOf cf cfg).
  rewrite (forEach_ext_in
             (searchCategory rt world pattern filePattern rf cfg)
             (searchCategoryOriginal env world pattern filePattern rf cfg)).
  - now destruct (forEach _ _ _).
  - intros c s Hc. unfold searchCategory, searchCategoryOriginal.
    pose proof (fun r T => Hfc r c T Hc) as Hr.
    unfold reposOf, reposOfOriginal.
    destruct (JsObj.get cfg c) as [m| |]; [| |reflexivity];
      destruct (truthy rf) as [r|];
      try (apply forEach_ext; intros; apply searchRepo_uncached; auto).
    + specialize (Hr r eq_refl).
      destruct (JsObj.get m r); try congruence;
        apply forEach_ext; intros; apply searchRepo_uncached; auto.
    + rewrite (Hr r eq_refl).
      apply forEach_ext; intros; apply searchRepo_uncached; auto.
Qed.

(** X14.  A repository filter that searchCode does not find.  When the filter
    names no repository of the categories visited, searchCode does not
    narrow the search: it searches every repository of these categories, as
    it does without a filter. *)
Theorem searchCode_ignores_unconfigured_repo_filter :
  forall (env : IndexEnv) (world : World) (pattern filePattern : string)
         (categoryFilter : option string) (r : string)
         (repoConfig : RepoStructure),
    (forall c cfg, In c (categoriesOf categoryFilter repoConfig) ->
                   JsObj.get repoConfig c = JsObj.Own cfg ->
                   JsObj.get cfg r = JsObj.Undefined) ->
    (forall c, In c (categoriesOf categoryFilter repoConfig) ->
               JsObj.get repoConfig c = JsObj.Proto ->
               inheritedMember env c r = false) ->
    searchCode env world pattern filePattern categoryFilter (Some r) repoConfig
    = searchCode env world pattern filePattern categoryFilter None repoConfig.
Proof.
  intros env world pattern filePattern cf r cfg Hown Hproto.
  unfold searchCode. fold (categoriesOf cf cfg).
  rewrite (forEach_ext_in
             (searchCategoryOriginal env world pattern filePattern (Some r) cfg)
             (searchCategoryOriginal env world pattern filePattern None cfg));
    [reflexivity|].
  intros c s Hc. unfold searchCategoryOriginal, reposOfOriginal.
  specialize (Hown c). specialize (Hproto c Hc).
  destruct (JsObj.get cfg c) as [m| |]; [| |reflexivity].
  - pose proof (Hown m Hc eq_refl) as Hr.
    destruct r as [|a r']; cbn [truthy]; [reflexivity|].
    rewrite Hr. reflexivity.
  - destruct r as [|a r']; cbn [truthy]; [reflexivity|].
    rewrite (Hproto eq_refl). reflexivity.
Qed.

(** ** The file scan and the build *)




Lemma scanFiles_fails tr fileList :
  forall acc,
    scanFiles tr fileList acc = None <->
    exists f, In f fileList /\ stat tr f = None.
Proof.
  induction fileList as [|file rest IH]; intros acc; cbn [scanFiles].
  - split; [discriminate | intros (f & [] & _)].
  - destruct (stat tr file) as [[sz mtime]|] eqn:S.
    + rewrite IH. split; intros (f & Hin & Hf).
      * exists f. split; [now right | exact Hf].
      * destruct Hin as [<-|Hin]; [congruence|]. exists f. auto.
    + split; [|reflexivity]. intros _. exists file. split; [now left | exact S].
Qed.


(** X16.  What a build leaves behind.  A build fails without touching the
    cache directory when the scan fails (so one enumerated path whose [stat]
    throws is enough), when the revision cannot be read, or when the
    directory cannot be created.  A build that succeeds leaves a cache that
    owes nothing to what the directory held before. *)
Theorem build_replaces_cache_or_leaves_it :
  forall (now : string) (disk : DiskWrites) (tr : WorkTree)
         (cache : CacheDir),
    (scanFileStructure tr = None \/ revparseHEAD tr = None \/
     ensureDir disk = false ->
     buildRepoCache now disk tr cache = (cache, false)) /\
    (forall fileList f,
        globby tr "**/*" = Some fileList -> In f fileList ->
        stat tr f = None ->
        buildRepoCache now disk tr cache = (cache, false)) /\
    (forall cache',
        buildRepoCache now disk tr cache = (cache', true) ->
        forall other, buildRepoCache now disk tr other = (cache', true)).
Proof.
  intros now disk tr cache.
  assert (scanFileStructure tr = None \/ revparseHEAD tr = None \/
          ensureDir disk = false ->
          buildRepoCache now disk tr cache = (cache, false)) as Hfail.
  { unfold buildRepoCache, getRepositoryMetadata, saveRepoCache.
    intros [H|[H|H]].
    - now rewrite H.
    - rewrite H. now destruct (scanFileStructure tr).
    - rewrite H. destruct (scanFileStructure tr); [|reflexivity].
      now destruct (revparseHEAD tr). }
  split; [exact Hfail|]. split.
  - intros fileList f Hglob Hin Hstat. apply Hfail. left.
    unfold scanFileStructure. rewrite Hglob.
    assert (scanFiles tr fileList [] = None) as ->
        by (apply scanFiles_fails; eauto).
    reflexivity.
  - intros cache' H other. revert H.
    unfold buildRepoCache, getRepositoryMetadata, saveRepoCache.
    destruct (scanFileStructure tr) as [structure|]; [|discriminate].
    destruct (revparseHEAD tr) as [out|]; [|discriminate].
    destruct (ensureDir disk); cbn [negb]; [|discriminate].
    destruct (forallb (writeFile disk) cacheDocuments) eqn:Hw;
      [|discriminate].
    intros H. injection H as Hc. subst cache'.
    unfold cacheDocuments in Hw. cbn [forallb] in Hw.
    apply andb_true_iff in Hw as [W1 Hw]. apply andb_true_iff in Hw as [_ Hw].
    apply andb_true_iff in Hw as [W3 _]. rewrite W1, W3. reflexivity.
Qed.

(** ** The report of the clones *)

Lemma keys_own {V} (o : JsObj.t V) k :
  In k (JsObj.keys o) -> exists v, JsObj.own o k = Some v.
Proof.
  destruct (JsObj.own o k) as [v|] eqn:E; [eauto|].
  apply own_None_keys in E. contradiction.
Qed.

Lemma cloneOne_reports {D} (env : CloneEnv D) repositories shallow c cfg r st :
  JsObj.get repositories c = JsObj.Own cfg ->
  In r (JsObj.keys cfg) ->
  exists line,
    snd (cloneOne env repositories shallow c r st) = snd st ++ [line] /\
    ReportsOn env (Repository c r) line.
Proof.
  intros Hc Hr. apply keys_own in Hr as [repoConfig Hr].
  apply get_own in Hr. unfold cloneOne, cloneRepo. rewrite Hc, Hr.
  cbn [ReportsOn].
  destruct (isRepoDirectory env (fst st) c r); cbn [fst snd]; [eauto|].
  destruct (ensureCategoryDir env (fst st) c) as [disk1 [message|]];
    cbn [fst snd]; [eauto 6|].
  destruct (gitClone env disk1 (url repoConfig) (getRepoPath env c r) shallow)
    as [disk2 [message|]]; cbn [fst snd]; eauto 6.
Qed.

Lemma cloneCategory_reports {D} (env : CloneEnv D) repositories shallow c st :
  exists lines,
    snd (cloneCategory env repositories shallow st c) = snd st ++ lines /\
    Forall2 (ReportsOn env) (subjectsOf repositories c) lines.
Proof.
  unfold cloneCategory, subjectsOf.
  destruct (JsObj.get repositories c) as [cfg| |] eqn:Hc.
  - assert (forall rs, (forall r, In r rs -> In r (JsObj.keys cfg)) ->
              forall st, exists lines,
                snd (fold_left
                       (fun st' r => cloneOne env repositories shallow c r st')
                       rs st) = snd st ++ lines /\
                Forall2 (ReportsOn env) (map (Repository c) rs) lines) as H.
    { induction rs as [|r rs IH]; intros Hin st0; cbn [fold_left map].
      - exists []. rewrite app_nil_r. split; [reflexivity | constructor].
      - destruct (cloneOne_reports env repositories shallow c cfg r st0 Hc)
          as (line & Hline & Hrep); [apply Hin; now left|].
        destruct (IH (fun r' H' => Hin r' (or_intror H'))
                     (cloneOne env repositories shallow c r st0))
          as (lines & Hlines & Hall).
        exists (line :: lines). rewrite Hlines, Hline, <- app_assoc.
        split; [reflexivity | now constructor]. }
    apply H. auto.
  - exists []. rewrite app_nil_r. split; [reflexivity | constructor].
  - eexists. split; [reflexivity|]. constructor; [reflexivity | constructor].
Qed.

(** X17.  The report of create_reference_repos with [cloneAll].  The report has
    one line for each repository of each category visited, in the order of
    the configuration, and one line for a category that is not configured:
    the line says that the repository exists already, that it was cloned, or
    why cloning it failed.  A clone that fails neither ends the loop nor
    leaves its repository out of the report. *)
Theorem clone_all_reports_on_every_repository :
  forall (D : Type) (env : CloneEnv D) (repositories : RepoStructure)
         (category : option string) (shallow : bool) (disk : D),
    Forall2 (ReportsOn env)
            (flat_map (subjectsOf repositories)
                      match truthy category with
                      | Some c => [c]
                      | None => JsObj.keys repositories
                      end)
            (snd (cloneAllRepos env repositories category shallow disk)).
Proof.
  intros D env repositories category shallow disk. unfold cloneAllRepos.
  cbv zeta. generalize (match truthy category with
                        | Some c => [c]
                        | None => JsObj.keys repositories
                        end).
  intros categories.
  change (Forall2 (ReportsOn env)
            (flat_map (subjectsOf repositories) categories)
            (snd (fold_left (cloneCategory env repositories shallow)
                            categories (disk, [])))).
  assert (forall st, exists lines,
            snd (fold_left (cloneCategory env repositories shallow)
                           categories st) = snd st ++ lines /\
            Forall2 (ReportsOn env)
                    (flat_map (subjectsOf repositories) categories) lines)
    as H.
  { induction categories as [|c cs IH]; intros st; cbn [fold_left flat_map].
    - exists []. rewrite app_nil_r. split; [reflexivity | constructor].
    - destruct (cloneCategory_reports env repositories shallow c st)
        as (l1 & H1 & A1).
      destruct (IH (cloneCategory env repositories shallow st c))
        as (l2 & H2 & A2).
      exists (l1 ++ l2). rewrite H2, H1, <- app_assoc.
      split; [reflexivity | now apply Forall2_app]. }
  destruct (H (disk, [])) as (lines & -> & Hall). exact Hall.
Qed.

(** ** Positions in reading order *)

Lemma Ascending_app l1 l2 :
  Ascending l1 -> Ascending l2 ->
  (forall a b, In a l1 -> In b l2 -> a <= b) ->
  Ascending (l1 ++ l2).
Proof.
  induction l1 as [|x l1 IH]; intros H1 H2 H12; cbn [app Ascending] in *;
    [exact H2|].
  destruct H1 as [Hx H1]. split.
  - intros b Hb. apply in_app_or in Hb as [Hb|Hb]; [auto|].
    apply H12; [now left | exact Hb].
  - apply IH; [exact H1 | exact H2 |].
    intros a b Ha Hb. apply H12; [now right | exact Hb].
Qed.

Lemma Ascending_seq len : forall start, Ascending (seq start len).
Proof.
  induction len as [|len IH]; intros start; cbn [seq Ascending]; [exact I|].
  split; [|apply IH]. intros b Hb. apply in_seq in Hb. lia.
Qed.

Lemma Ascending_filter {A} (keep : nat * A -> bool) (l : list (nat * A)) :
  Ascending (map fst l) -> Ascending (map fst (filter keep l)).
Proof.
  induction l as [|e l IH]; cbn [map filter Ascending]; [auto|].
  intros [He Hl]. destruct (keep e); cbn [map Ascending]; [|auto].
  split; [|auto]. intros b Hb. apply He.
  apply in_map_iff in Hb as (x & <- & Hx). apply filter_In in Hx as [Hx _].
  now apply in_map.
Qed.

Lemma Ascending_recorded tokens :
  Ascending (map fst tokens) -> Ascending (map fst (recorded tokens)).
Proof.
  induction tokens as [|e tokens IH]; cbn [map recorded Ascending]; [auto|].
  intros [He Hl]. destruct (JsObj.inherited (snd e)); [exact I|].
  destruct (pieceInherited (snd e)); cbn [map Ascending].
  - split; [intros b []|exact I].
  - split; [|auto]. intros b Hb. apply He. clear - Hb.
    induction tokens as [|x tokens IH]; cbn [recorded map] in *; [destruct Hb|].
    destruct (JsObj.inherited (snd x)); [destruct Hb|].
    destruct (pieceInherited (snd x)); cbn [map In] in *.
    + destruct Hb as [Hb|[]]. now left.
    + destruct Hb as [Hb|Hb]; [now left | right; auto].
Qed.

Lemma map_fst_combine {A B} (l1 : list A) :
  forall l2 : list B,
    List.length l1 = List.length l2 -> map fst (combine l1 l2) = l1.
Proof.
  induction l1 as [|a l1 IH]; intros [|b l2] H; cbn [combine map];
    try discriminate; [reflexivity|].
  cbn [fst]. f_equal. apply IH. simpl in H. lia.
Qed.

Lemma Ascending_tokens (g : string -> list string) (L : list (nat * string)) :
  Ascending (map fst L) ->
  Ascending (map fst (flat_map (fun l => map (pair (fst l)) (g (snd l))) L)).
Proof.
  induction L as [|[n line] L IH]; cbn [map flat_map Ascending fst snd];
    [auto|].
  intros [Hn HL]. rewrite map_app. apply Ascending_app; [|auto|].
  - clear. induction (g line) as [|x xs IHx]; cbn [map Ascending]; [exact I|].
    split; [|exact IHx]. intros b Hb. rewrite map_map in Hb. cbn [fst] in Hb.
    apply in_map_iff in Hb as (? & <- & _). cbn [fst]. lia.
  - intros a b Ha Hb. rewrite map_map in Ha. cbn [fst] in Ha.
    apply in_map_iff in Ha as (? & <- & _). apply Hn.
    apply in_map_iff in Hb as ([m y] & <- & Hy).
    apply in_flat_map in Hy as ([m' line'] & HL' & Hy).
    apply in_map_iff in Hy as (? & Hy & _). inversion Hy; subst.
    cbn [fst]. now apply (in_map fst) in HL'.
Qed.

Lemma Ascending_linesOf t content :
  Ascending (linesOf t (recorded (tokensOf content))).
Proof.
  unfold linesOf. apply Ascending_filter, Ascending_recorded.
  unfold tokensOf. apply Ascending_filter, Ascending_tokens.
  unfold numbered. rewrite map_fst_combine by apply length_seq.
  apply Ascending_seq.
Qed.

Lemma exactTerms_positions_nonempty tr structure :
  Postings (fun _ p => Posting.positions p <> [])
           (exactTerms (buildSearchIndex tr structure)).
Proof.
  apply (buildSearchIndex_Postings (fun _ p => Posting.positions p <> [])
                                   (fun _ _ => True)).
  - intros file n term _. split; [discriminate|].
    intros e He _. unfold bumpExact. cbn [Posting.positions].
    destruct (Posting.positions e); discriminate.
  - intros; split; auto.
Qed.

(** X18.  The positions of an identifier in a file.  In the index that
    buildSearchIndex returns, a posting under a key of [exactTerms] lists at
    least one position, every position is the number of a line of the
    posting's file on which the key is read as an identifier, and, when the
    structure names no file twice, the positions are in reading order: they
    never decrease. *)
Theorem exactTerms_positions_ascend_within_the_file :
  forall (tr : WorkTree) (structure : FileStructure) (t : string)
         (ps : list Posting.t) (p : Posting.t),
    JsObj.own (exactTerms (buildSearchIndex tr structure)) t = Some ps ->
    In p ps ->
    Posting.positions p <> [] /\
    (exists content,
        readFile tr (Posting.file p) = Some content /\
        forall n, In n (Posting.positions p) ->
          1 <= n <= List.length (Js.split Js.newline content) /\
          In t (Js.matchIdents
                  (nth (n - 1) (Js.split Js.newline content) EmptyString))) /\
    (NoDup (JsObj.keys (files structure)) ->
     Ascending (Posting.positions p)).
Proof.
  intros tr structure t ps p Hown Hin. split; [|split].
  - exact (exactTerms_positions_nonempty tr structure t ps p Hown Hin).
  - pose proof (exactTerms_positions_read tr structure t ps p Hown Hin) as Hp.
    pose proof (exactTerms_positions_nonempty tr structure t ps p Hown Hin)
      as Hne.
    destruct (Posting.positions p) as [|n0 rest] eqn:E; [congruence|].
    destruct (Hp n0) as (info & content & line & _ & _ & _ & Hread & _);
      [rewrite E; now left|].
    exists content. split; [exact Hread|]. intros n Hn.
    destruct (Hp n) as (info' & content' & line' & _ & _ & _ & Hread'
                        & Hline & Htok & _); [rewrite E; exact Hn|].
    rewrite Hread in Hread'. inversion Hread'; subst content'.
    apply In_numbered in Hline as (i & -> & Hi & Hnth).
    replace (S i - 1) with i by lia. rewrite Hnth. split; [lia | exact Htok].
  - intros Hnd.
    destruct (buildSearchIndex_recorded tr structure Hnd) as (HE & Hrec & _).
    destruct (Hrec t (Posting.file p) p) as (content & _ & -> & _).
    + unfold entryOf. rewrite Hown.
      apply findEntry_unique; [exact (HE _ _ Hown) | exact Hin].
    + apply Ascending_linesOf.
Qed.

(** ** Queries without caches *)

Lemma forEach_appends {A B} (body : A -> list B -> Outcome (list B))
  (g : A -> list B) l :
  (forall a s, In a l -> body a s = Done (s ++ g a)) ->
  forall s, forEach body l s = Done (s ++ flat_map g l).
Proof.
  induction l as [|a l IH]; intros H s; cbn [forEach flat_map].
  - now rewrite app_nil_r.
  - rewrite (H a s (or_introl eq_refl)), IH, app_assoc; [reflexivity|].
    intros; apply H; now right.
Qed.

Lemma searchRepo_repoRecords rt world pattern filePattern c r s :
  (pathExists (tree (world c r)) = true ->
   isCacheValid (cache (world c r)) (tree (world c r)) = false /\
   globby (tree (world c r)) (String.append "**/" filePattern) <> None) ->
  searchRepo rt world pattern filePattern c r s
  = Done (s ++ repoRecords world pattern filePattern c r).
Proof.
  intros H. unfold repoRecords.
  destruct (pathExists (tree (world c r))) eqn:He.
  - destruct (H eq_refl) as [Hv Hg].
    destruct (globby (tree (world c r)) (String.append "**/" filePattern))
      as [fileList|] eqn:Hgl; [|congruence].
    now apply searchRepo_fallback.
  - unfold searchRepo. rewrite He. cbn [negb]. now rewrite app_nil_r.
Qed.

(** X19.  A query over repositories without valid caches.  When every
    repository that the query finds on disk is scanned, the result is the
    records of the repositories one after the other: in the order of the
    categories, within a category in the order of its repositories, and
    within a repository in the order in which its files are enumerated. *)
Theorem uncached_query_concatenates_repository_scans :
  forall (rt : Runtime) (world : World) (pattern filePattern : string)
         (categoryFilter repoFilter : option string)
         (repoConfig : RepoStructure),
    AllScanned world filePattern categoryFilter repoFilter repoConfig ->
    searchCodeWithCache rt world pattern filePattern categoryFilter repoFilter
                        repoConfig
    = flat_map
        (fun c =>
           flat_map (repoRecords world pattern filePattern c)
                    (match JsObj.get repoConfig c with
                     | JsObj.Undefined => []
                     | found => reposOf repoFilter found
                     end))
        (categoriesOf categoryFilter repoConfig).
Proof.
  intros rt world pattern filePattern cf rf cfg Hall.
  unfold searchCodeWithCache, searchRun. fold (categoriesOf cf cfg).
  rewrite (forEach_appends
             (searchCategory rt world pattern filePattern rf cfg)
             (fun c =>
                flat_map (repoRecords world pattern filePattern c)
                         (match JsObj.get cfg c with
                          | JsObj.Undefined => []
                          | found => reposOf rf found
                          end))); [reflexivity|].
  intros c s Hc. unfold searchCategory.
  destruct (JsObj.get cfg c) as [m| |] eqn:G; [| |now rewrite app_nil_r];
    apply forEach_appends; intros r s' Hr; apply searchRepo_repoRecords;
    apply Hall; (split; [exact Hc|]); rewrite G;
    (split; [discriminate | exact Hr]).
Qed.

(** ** Plain identifiers in the sub-term dictionary *)

Lemma splitUpperAcc_free s :
  forall cur,
    allChars (fun ch => negb (Js.isUpper ch)) s = true ->
    Js.splitUpperAcc cur s = [String.append cur s].
Proof.
  induction s as [|c s IH]; intros cur H; cbn [Js.splitUpperAcc allChars] in *.
  - now rewrite append_empty_r.
  - apply andb_true_iff in H as [Hc Hs]. apply negb_true_iff in Hc.
    rewrite Hc. cbn [andb]. rewrite (IH _ Hs), snoc_append. reflexivity.
Qed.

Lemma subTermsOf_plain term :
  isPlain term = true -> 2 < String.length term ->
  subTermsOf term = [term; term].
Proof.
  intros Hp Hlen. unfold isPlain in Hp. apply andb_true_iff in Hp as [Hu Hs].
  unfold subTermsOf, Js.split.
  rewrite (splitAcc_free "_" term EmptyString Hs). cbn [String.append].
  assert (Js.splitUpper term = [term]) as ->.
  { destruct term as [|c rest]; [reflexivity|].
    unfold Js.splitUpper. cbn [Js.splitUpperAcc].
    rewrite String.eqb_refl, andb_false_r.
    now rewrite (splitUpperAcc_free rest _ Hu). }
  apply Nat.ltb_lt in Hlen. cbn [filter]. rewrite Hlen. reflexivity.
Qed.

Lemma indexSubTerm_entry file n sub tm :
  JsObj.inherited (Js.toLowerCase sub) = false ->
  exists tm',
    indexSubTerm file n sub tm = Done tm' /\
    entryOf tm' (Js.toLowerCase sub) file
    = Some match entryOf tm (Js.toLowerCase sub) file with
           | Some e => bumpTerm n e
           | None => Posting.mk file 1 [n]
           end.
Proof.
  intros Hk. unfold indexSubTerm. cbv zeta.
  destruct (get_ensureList_plain tm (Js.toLowerCase sub) Hk)
    as (ps & Hget & _ & Hfind).
  rewrite Hget, <- (Hfind file).
  destruct (findEntry file ps) as [e|] eqn:F; eexists; (split; [reflexivity|]);
    rewrite entryOf_set_same.
  - apply findEntry_updateEntry; [intros; apply bumpTerm_file | exact F].
  - apply findEntry_push; [exact F | reflexivity].
Qed.

Lemma indexExactTerm_returns file n term idx processed :
  JsObj.inherited term = false ->
  exists idx' processed',
    indexExactTerm file n term (idx, processed) = Done (idx', processed') /\
    terms idx' = terms idx.
Proof.
  intros Hk. unfold indexExactTerm.
  destruct (get_ensureList_plain (exactTerms idx) term Hk) as (ps & -> & _).
  destruct (negb _); [eauto|]. destruct (findEntry file ps); eauto.
Qed.

(** X20.  How [terms] counts a plain identifier.  An identifier of more than
    two characters with no capital letter after the first and no underscore
    is listed twice among its own sub-terms, once by each split.  So each
    time such an identifier is read, the counter of the posting of its file
    under its lower-case form grows by two, while the line is listed once. *)
Theorem plain_identifier_counts_twice_in_terms :
  forall (file : string) (n : nat) (term : string) (idx : SearchIndex)
         (processed : list string),
    isPlain term = true -> 2 < String.length term ->
    isStopWord term = false ->
    JsObj.inherited term = false ->
    JsObj.inherited (Js.toLowerCase term) = false ->
    subTermsOf term = [term; term] /\
    exists idx' processed' e',
      indexTerm file n term (idx, processed) = Done (idx', processed') /\
      entryOf (terms idx') (Js.toLowerCase term) file = Some e' /\
      match entryOf (terms idx) (Js.toLowerCase term) file with
      | Some e =>
          Posting.occurrences e' = Posting.occurrences e + 2 /\
          Posting.positions e'
          = if existsb (Nat.eqb n) (Posting.positions e)
            then Posting.positions e
            else Posting.positions e ++ [n]
      | None =>
          Posting.occurrences e' = 2 /\ Posting.positions e' = [n]
      end.
Proof.
  intros file n term idx processed Hp Hlen Hstop Hk Hkl.
  pose proof (subTermsOf_plain term Hp Hlen) as Hsub.
  split; [exact Hsub|]. unfold indexTerm.
  assert ((String.length term <? 3) = false) as -> by (apply Nat.ltb_ge; lia).
  rewrite Hstop. cbn [orb].
  destruct (indexExactTerm_returns file n term idx processed Hk)
    as (idx1 & processed1 & -> & Hterms).
  rewrite Hsub, Hterms. cbn [forEach].
  destruct (indexSubTerm_entry file n term (terms idx) Hkl)
    as (tm1 & -> & H1).
  destruct (indexSubTerm_entry file n term tm1 Hkl) as (tm2 & -> & H2).
  exists (mkSearchIndex (exactTerms idx1) tm2), processed1.
  eexists. split; [reflexivity|]. cbn [terms]. split; [exact H2|].
  rewrite H1. unfold bumpTerm.
  destruct (entryOf (terms idx) (Js.toLowerCase term) file) as [e|];
    cbn [Posting.occurrences Posting.positions Posting.file].
  - split; [lia|].
    destruct (existsb (Nat.eqb n) (Posting.positions e)) eqn:E.
    + now rewrite E.
    + rewrite existsb_app. cbn [existsb]. rewrite Nat.eqb_refl.
      now rewrite orb_true_r.
  - cbn [existsb]. rewrite Nat.eqb_refl. cbn [orb]. split; reflexivity.
Qed.

(** ** The cached search of a repository *)

Lemma fuzzyLookup_star rt tr c r pattern idx results :
  fuzzyLookup rt tr c r pattern "*" idx results
  = results ++ fuzzyPart rt tr c r pattern idx.
Proof.
  unfold fuzzyLookup, fuzzyPart.
  destruct (newRegExp rt pattern true) as [test|];
    [|now rewrite app_nil_r].
  rewrite (forEach_appends _
             (fun entry : string * list Posting.t =>
                if test (fst entry)
                then flat_map (postingResults tr c r) (snd entry)
                else [])); [reflexivity|].
  intros entry s _. destruct (test (fst entry)).
  - apply forEach_emitPosting_star.
  - now rewrite app_nil_r.
Qed.

(** X21.  The cached search of one repository under the file pattern [*].
    Unless the pattern is an inherited name that is no key of the index, the
    search returns: it adds the results of the postings of the pattern in
    [exactTerms], and, only when the result list of the query is still empty
    after that, the results of the postings of every key of [terms] that the
    pattern matches as a case-insensitive regular expression. *)
Theorem cached_search_is_exact_then_fuzzy :
  forall (rt : Runtime) (tr : WorkTree) (c r pattern : string)
         (idx : SearchIndex) (results : list SearchResult.t),
    JsObj.get (exactTerms idx) pattern <> JsObj.Proto ->
    searchCached rt tr c r pattern "*" idx results
    = Done match results ++ exactPart tr c r pattern idx with
           | [] => fuzzyPart rt tr c r pattern idx
           | found => found
           end.
Proof.
  intros rt tr c r pattern idx results Hget.
  unfold searchCached, exactLookup, exactPart, JsObj.get in *.
  destruct (JsObj.own (exactTerms idx) pattern) as [ps|].
  - rewrite forEach_emitPosting_star. unfold fuzzyAttempted.
    destruct (results ++ flat_map (postingResults tr c r) ps) eqn:E;
      cbn [List.length Nat.eqb]; [|reflexivity].
    now rewrite fuzzyLookup_star.
  - destruct (JsObj.inherited pattern); [congruence|].
    rewrite app_nil_r. unfold fuzzyAttempted.
    destruct results; cbn [List.length Nat.eqb]; [|reflexivity].
    now rewrite fuzzyLookup_star.
Qed.

(** ** Cloning twice *)

(** X22.  Cloning twice.  For a configured repository, when cloneRepo has
    returned (the repository was there already, or was cloned and the clone
    left its directory), a second cloneRepo reports that the repository
    already exists and leaves the disk as it is: it neither creates a
    directory nor runs git. *)
Theorem cloneRepo_again_changes_nothing :
  forall (D : Type) (env : CloneEnv D) (repositories : RepoStructure)
         (c r : string) (cfg : JsObj.t RepoConfig) (repoConfig : RepoConfig)
         (shallow again : bool) (disk disk' : D) (result : string),
    CloneCreatesDirectory env ->
    JsObj.get repositories c = JsObj.Own cfg ->
    JsObj.get cfg r = JsObj.Own repoConfig ->
    cloneRepo env repositories c r shallow disk = (disk', inl result) ->
    cloneRepo env repositories c r again disk'
    = (disk',
       inl (String.append "Repository "
              (String.append (repoLabel c r)
                 (String.append " already exists at " (getRepoPath env c r))))).
Proof.
  intros D env repositories c r cfg repoConfig shallow again disk disk' result
         Hclone Hc Hr.
  unfold cloneRepo. rewrite Hc, Hr. cbv zeta.
  destruct (isRepoDirectory env disk c r) eqn:E.
  - intros H. inversion H; subst. now rewrite E.
  - destruct (ensureCategoryDir env disk c) as [disk1 [message|]];
      [discriminate|].
    destruct (gitClone env disk1 (url repoConfig) (getRepoPath env c r) shallow)
      as [disk2 [message|]] eqn:G; [discriminate|].
    intros H. inversion H; subst. now rewrite (Hclone _ _ _ _ _ _ G).
Qed.

(** ** The code on concrete repositories *)

Import Fixtures.

(** C1 (the code at the failing input).  With one uncached repository of 120
    files that each match, the search_code handler answers with all 120
    groups: its payload is the bare list that searchCodeWithCache returns,
    neither limited to 50 nor accompanied by a truncation flag or count. *)
Theorem search_code_returns_every_group :
  exists payload,
    search_code wordRuntime manyWorld (registry ["big"]) (query "needle")
    = TextContent payload /\
    List.length payload = 120 /\
    payload = searchCodeWithCache wordRuntime manyWorld "needle" "*" None None
                                  (registry ["big"]).
Proof.
  eexists. split; [reflexivity|]. split; [vm_compute|]; reflexivity.
Qed.

(** C6 (the code at the failing input).  The groups come in discovery order:
    the file with two matching lines, found first, stays before the file with
    five. *)
Theorem search_code_keeps_discovery_order :
  outline (payloadOf (search_code wordRuntime rankWorld (registry ["lib"])
                                  (query "needle")))
  = [ ("ref", "lib", "two.ts", [1; 3]);
      ("ref", "lib", "five.ts", [1; 2; 3; 4; 5]) ].
Proof. vm_compute. reflexivity. Qed.

(** C7 (the code at the failing input).  On the cached path a file whose
    posting records two lines yields two records with the same category,
    repository and file, each holding one match. *)
Theorem cached_search_gives_one_record_per_position :
  isCacheValid (cache (cachedRepo (treeOf mergeFiles "c0ffee")))
               (treeOf mergeFiles "c0ffee") = true /\
  outline (payloadOf (search_code wordRuntime mergeWorld (registry ["lib"])
                                  (query "needle")))
  = [ ("ref", "lib", "a.ts", [1]); ("ref", "lib", "a.ts", [3]) ].
Proof. split; vm_compute; reflexivity. Qed.

(** C2 (the code at the failing input).  Repository [two] has no exact entry
    for [user]: its exact lookup adds nothing to the results of the query,
    and its fuzzy lookup would find two postings.  Searched after [one],
    whose exact lookup succeeds, it gets no fuzzy lookup, because line 1026
    tests the result list of the whole query.  Searched before [one], its
    fuzzy results and the exact results of [one] end up in one answer. *)
Theorem fuzzy_fallback_depends_on_earlier_repositories :
  let found := searchCodeWithCache wordRuntime mixWorld "user" "*" None None
                                   (registry ["one"]) in
  outline found = [ ("ref", "one", "a.ts", [1]) ] /\
  exactLookup wordRuntime userNameTree "ref" "two" "user" "*"
              (indexOf (cachedRepo userNameTree)) found = Done found /\
  fuzzyAttempted found = false /\
  outline (fuzzyLookup wordRuntime userNameTree "ref" "two" "user" "*"
                       (indexOf (cachedRepo userNameTree)) [])
  = [ ("ref", "two", "b.ts", [1]); ("ref", "two", "b.ts", [1]) ] /\
  outline (searchCodeWithCache wordRuntime mixWorld "user" "*" None None
                               (registry ["one"; "two"]))
  = [ ("ref", "one", "a.ts", [1]) ] /\
  outline (searchCodeWithCache wordRuntime mixWorld "user" "*" None None
                               (registry ["two"; "one"]))
  = [ ("ref", "two", "b.ts", [1]); ("ref", "two", "b.ts", [1]);
      ("ref", "one", "a.ts", [1]) ].
Proof. cbv zeta. repeat split; vm_compute; reflexivity. Qed.

(** C4 (counterexample).  The enumeration of the files of [broken] is
    rejected; the exception leaves the loops, and the query that had found
    the match of [good] returns the empty list. *)
Lemma rejected_enumeration_aborts_query :
  outline (searchCodeWithCache wordRuntime abortWorld "needle" "*" None None
                               (registry ["good"]))
  = [ ("ref", "good", "a.ts", [1]) ] /\
  searchRepo wordRuntime abortWorld "needle" "*" "ref" "broken" []
  = Thrown [] /\
  searchCodeWithCache wordRuntime abortWorld "needle" "*" None None
                      (registry ["good"; "broken"]) = [].
Proof. repeat split; vm_compute; reflexivity. Qed.

Lemma unavailable_repository_is_skipped_witness :
  Unavailable wordRuntime "needle" "*" (deletedWorld "ref" "gone") /\
  searchCodeWithCache wordRuntime deletedWorld "needle" "*" None None
                      (registry ["good"; "gone"])
  = searchCodeWithCache wordRuntime deletedWorld "needle" "*" None None
                        (removeRepo "ref" "gone" (registry ["good"; "gone"])).
Proof.
  assert (Unavailable wordRuntime "needle" "*" (deletedWorld "ref" "gone"))
    as H.
  { right. right. right. split; [reflexivity|].
    exists []. split; [reflexivity|]. intros f []. }
  split; [exact H|].
  apply (unavailable_repository_is_skipped wordRuntime deletedWorld "needle"
           "*" None None (registry ["good"; "gone"]) "ref" "gone" H).
Defined.

(** C5 (counterexample).  The file holds the line [the cat].  The scan finds
    the pattern [the] on line 1; the index has no entry for a stop word, and
    the cached search of the same tree returns nothing. *)
Lemma scan_and_index_disagree_on_stop_word :
  isCacheValid (cache (cachedRepo stopWordTree)) stopWordTree = true /\
  searchRepo wordRuntime (fun _ _ => cachedRepo stopWordTree)
             "the" "*" "ref" "lib" [] = Done [] /\
  exists scanned,
    searchRepo wordRuntime (fun _ _ => uncachedRepo stopWordTree)
               "the" "*" "ref" "lib" [] = Done scanned /\
    outline scanned = [ ("ref", "lib", "a.ts", [1]) ].
Proof.
  split; [vm_compute; reflexivity|]. split; [vm_compute; reflexivity|].
  eexists. split; vm_compute; reflexivity.
Qed.

Lemma cached_exact_matches_found_by_scan_witness :
  exists idx scanned,
    searchIndexDoc (cache (cachedRepo (treeOf mergeFiles "c0ffee")))
      = Parsed idx /\
    searchRepo wordRuntime
               (fun _ _ => uncachedRepo (treeOf mergeFiles "c0ffee"))
               "needle" "*" "ref" "lib" [] = Done scanned /\
    forall exact,
      exactLookup wordRuntime (treeOf mergeFiles "c0ffee") "ref" "lib"
                  "needle" "*" idx [] = Done exact ->
      (exact <> [] ->
       searchRepo wordRuntime
                  (fun _ _ => cachedRepo (treeOf mergeFiles "c0ffee"))
                  "needle" "*" "ref" "lib" [] = Done exact) /\
      forall f m, HasMatch exact "ref" "lib" f m ->
                  HasMatch scanned "ref" "lib" f m.
Proof.
  apply (cached_exact_matches_found_by_scan wordRuntime
           (treeOf mergeFiles "c0ffee") now allWrites noCache
           (cache (cachedRepo (treeOf mergeFiles "c0ffee"))) noCache
           "ref" "lib" "needle").
  - reflexivity.
  - vm_compute. reflexivity.
  - reflexivity.
Defined.

(** C8 (counterexample).  A file whose recorded size is exactly 1 MiB passes
    the size filter, which skips sizes greater than 1 MiB only, and its token
    is indexed. *)
Lemma file_of_1MiB_is_indexed :
  JsObj.own (files (structureOf oneMiBTree)) "big.ts"
  = Some (mkFileInfo (2 ^ 20) "2025-01-01T00:00:00.000Z") /\
  JsObj.own (exactTerms (buildSearchIndex oneMiBTree (structureOf oneMiBTree)))
            "needle"
  = Some [Posting.mk "big.ts" 1 [1]].
Proof. split; vm_compute; reflexivity. Qed.

Lemma index_reads_files_up_to_1MiB_witness :
  (exists info,
     In ("big.ts", info) (files (structureOf oneMiBTree)) /\
     (size info <= 2 ^ 20)%N /\
     hasIndexedExtension "big.ts" = true /\
     readFile oneMiBTree "big.ts" <> None) /\
  (exists ps p,
     JsObj.own (exactTerms (buildSearchIndex oneMiBTree
                                             (structureOf oneMiBTree)))
               "needle" = Some ps /\
     In p ps /\ Posting.file p = "big.ts").
Proof.
  destruct (index_reads_files_up_to_1MiB oneMiBTree (structureOf oneMiBTree))
    as [Honly Hall].
  split.
  - apply (Honly "needle" [Posting.mk "big.ts" 1 [1]]
                 (Posting.mk "big.ts" 1 [1])).
    + left. vm_compute. reflexivity.
    + left. reflexivity.
  - apply (Hall (NoDup_cons _ (fun H : In "big.ts" [] => H) (NoDup_nil _))
                "big.ts" (mkFileInfo (2 ^ 20) "2025-01-01T00:00:00.000Z")
                oneMiB "needle").
    + left. vm_compute. reflexivity.
    + vm_compute. discriminate.
    + reflexivity.
    + reflexivity.
    + vm_compute. discriminate.
Defined.

(** C9 (counterexample).  The line [foo foo] gives the posting of [foo] two
    occurrences and the line number twice: the position list is as long as
    the counter. *)
Lemma token_twice_on_a_line_is_recorded_twice :
  JsObj.own (exactTerms (buildSearchIndex twiceTree (structureOf twiceTree)))
            "foo"
  = Some [Posting.mk "a.ts" 2 [1; 1]].
Proof. vm_compute. reflexivity. Qed.

Lemma exactTerms_record_every_encounter_witness :
  Posting.occurrences (Posting.mk "a.ts" 2 [1; 1])
  = List.length (Posting.positions (Posting.mk "a.ts" 2 [1; 1])) /\
  exists content,
    readFile twiceTree "a.ts" = Some content /\
    [1; 1] = linesOf "foo" (recorded (tokensOf content)).
Proof.
  destruct (exactTerms_record_every_encounter twiceTree (structureOf twiceTree)
              "foo" [Posting.mk "a.ts" 2 [1; 1]] (Posting.mk "a.ts" 2 [1; 1]))
    as [Hcount Hlines].
  - vm_compute. reflexivity.
  - left. reflexivity.
  - split; [exact Hcount|]. apply Hlines.
    repeat constructor; simpl; intuition discriminate.
Defined.

Lemma one_posting_per_file_witness :
  NoDup (map Posting.file
             [Posting.mk "two.ts" 2 [1; 3];
              Posting.mk "five.ts" 5 [1; 2; 3; 4; 5]]).
Proof.
  destruct (one_posting_per_file (treeOf rankFiles "c0ffee")
              (structureOf (treeOf rankFiles "c0ffee"))) as [Hkeys Hone].
  apply (Hone (Hkeys eq_refl) "needle").
  left. vm_compute. reflexivity.
Defined.

(** ** Further instances *)

Import Samples.

Lemma context_window_bounds_witness :
  4 < List.length nineLines /\
  1 <= List.length (SearchMatch.context (matchAt nineLines 4)) <= 7 /\
  map ContextLine.line (SearchMatch.context (matchAt nineLines 4))
  = seq (4 - 3 + 1) (List.length (SearchMatch.context (matchAt nineLines 4))).
Proof.
  assert (4 < List.length nineLines) as H by (vm_compute; lia).
  split; [exact H|].
  destruct (context_window_bounds nineLines 4 H) as (_ & _ & Hlen & Hseq & _).
  split; [exact Hlen | exact Hseq].
Defined.

Lemma fallback_scan_one_record_per_matching_file_witness :
  exists found,
    searchRepo wordRuntime mixedWorld "needle" "*" "ref" "lib" [] = Done found /\
    map SearchResult.file found
    = filter (fileHasMatch (tree (mixedWorld "ref" "lib")) "needle")
             ["a.ts"; "b.ts"; "c.ts"] /\
    (NoDup ["a.ts"; "b.ts"; "c.ts"] -> NoDup (map SearchResult.file found)).
Proof.
  apply (fallback_scan_one_record_per_matching_file wordRuntime mixedWorld
           "needle" "*" "ref" "lib" ["a.ts"; "b.ts"; "c.ts"]);
    vm_compute; reflexivity.
Defined.

Lemma fallback_scan_record_lists_matching_lines_witness :
  exists found,
    searchRepo wordRuntime mixedWorld "needle" "*" "ref" "lib" [] = Done found /\
    forall x, In x found ->
      SearchResult.category x = "ref" /\ SearchResult.repo x = "lib" /\
      In (SearchResult.file x) ["a.ts"; "b.ts"; "c.ts"] /\
      exists content,
        readFile (tree (mixedWorld "ref" "lib")) (SearchResult.file x)
        = Some content /\
        let lines := Js.split Js.newline content in
        SearchResult.matches x
        = map (matchAt lines) (matchingIndices "needle" lines) /\
        forall i, In i (matchingIndices "needle" lines) <->
                  i < List.length lines /\
                  Js.includes "needle" (nth i lines EmptyString) = true.
Proof.
  apply (fallback_scan_record_lists_matching_lines wordRuntime mixedWorld
           "needle" "*" "ref" "lib" ["a.ts"; "b.ts"; "c.ts"]);
    vm_compute; reflexivity.
Defined.

Lemma search_records_have_matches_witness :
  In firstRecord
     (searchCodeWithCache wordRuntime mixedWorld "needle" "*" None None
                          (registry ["lib"])) /\
  SearchResult.matches firstRecord <> [] /\
  forall m, In m (SearchResult.matches firstRecord) ->
    1 <= SearchMatch.line m /\
    In (ContextLine.mk (SearchMatch.line m) (SearchMatch.content m) true)
       (SearchMatch.context m).
Proof.
  assert (In firstRecord
             (searchCodeWithCache wordRuntime mixedWorld "needle" "*" None None
                                  (registry ["lib"]))) as H
      by (left; vm_compute; reflexivity).
  split; [exact H|].
  exact (search_records_have_matches wordRuntime mixedWorld "needle" "*"
           None None (registry ["lib"]) firstRecord H).
Defined.

Lemma search_records_respect_filters_witness :
  In firstRecord
     (searchCodeWithCache wordRuntime mixedWorld "needle" "*" None (Some "lib")
                          (registry ["lib"; "other"])) /\
  In (SearchResult.category firstRecord)
     (JsObj.keys (registry ["lib"; "other"])) /\
  SearchResult.repo firstRecord = "lib".
Proof.
  assert (In firstRecord
             (searchCodeWithCache wordRuntime mixedWorld "needle" "*" None
                                  (Some "lib") (registry ["lib"; "other"])))
    as H by (left; vm_compute; reflexivity).
  split; [exact H|].
  exact (search_records_respect_filters wordRuntime mixedWorld "needle" "*"
           None (Some "lib") (registry ["lib"; "other"]) firstRecord H).
Defined.

Lemma inherited_pattern_aborts_query_witness :
  outline (searchCodeWithCache wordRuntime mergeWorld "needle" "*" None None
                               (registry ["lib"]))
  = [ ("ref", "lib", "a.ts", [1]); ("ref", "lib", "a.ts", [3]) ] /\
  searchCodeWithCache wordRuntime mergeWorld "constructor" "*" None None
                      (registry ["lib"]) = [].
Proof.
  split; [vm_compute; reflexivity|].
  apply (inherited_pattern_aborts_query wordRuntime mergeWorld "constructor"
           "*" None None (registry ["lib"]) "ref" "lib"
           (treeOf mergeFiles "c0ffee")
           (structureOf (treeOf mergeFiles "c0ffee"))).
  - split; [now left|]. split; [vm_compute; discriminate | now left].
  - reflexivity.
  - vm_compute. reflexivity.
  - vm_compute. reflexivity.
  - reflexivity.
Defined.

Lemma index_keys_are_filtered_identifiers_witness :
  (isIdentifier "userName" = true /\ 3 <= String.length "userName" /\
   isStopWord "userName" = false /\ JsObj.inherited "userName" = false) /\
  (Js.toLowerCase "name" = "name" /\ 2 < String.length "name" /\
   JsObj.inherited "name" = false).
Proof.
  split.
  - apply (index_keys_are_filtered_identifiers userNameTree
             (structureOf userNameTree) "userName"
             [Posting.mk "b.ts" 1 [1]]).
    vm_compute. reflexivity.
  - apply (index_keys_are_filtered_identifiers userNameTree
             (structureOf userNameTree) "name" [Posting.mk "b.ts" 1 [1]]).
    vm_compute. reflexivity.
Defined.

Lemma terms_positions_are_distinct_lines_containing_the_key_witness :
  NoDup [1] /\
  1 <= List.length [1] <= 1 /\
  forall n, In n [1] ->
    exists content lineText,
      readFile userNameTree "b.ts" = Some content /\
      1 <= n <= List.length (Js.split Js.newline content) /\
      nth (n - 1) (Js.split Js.newline content) EmptyString = lineText /\
      Js.includes "name" (Js.toLowerCase lineText) = true.
Proof.
  apply (terms_positions_are_distinct_lines_containing_the_key userNameTree
           (structureOf userNameTree) "name" [Posting.mk "b.ts" 1 [1]]
           (Posting.mk "b.ts" 1 [1])).
  - vm_compute. reflexivity.
  - left. reflexivity.
Defined.

Lemma exactTerms_positions_ascend_within_the_file_witness :
  Ascending [1; 3].
Proof.
  destruct (exactTerms_positions_ascend_within_the_file
              (treeOf mergeFiles "c0ffee")
              (structureOf (treeOf mergeFiles "c0ffee")) "needle"
              [Posting.mk "a.ts" 2 [1; 3]] (Posting.mk "a.ts" 2 [1; 3]))
    as (_ & _ & Hasc).
  - vm_compute. reflexivity.
  - left. reflexivity.
  - apply Hasc. repeat constructor; simpl; intuition discriminate.
Defined.


Lemma build_replaces_cache_or_leaves_it_witness :
  buildRepoCache now allWrites danglingTree
                 (cache (cachedRepo mixedTree))
  = (cache (cachedRepo mixedTree), false) /\
  buildRepoCache now allWrites mixedTree (cache (cachedRepo userTree))
  = (cache (cachedRepo mixedTree), true).
Proof.
  split.
  - destruct (build_replaces_cache_or_leaves_it now allWrites danglingTree
                (cache (cachedRepo mixedTree))) as (_ & Hstat & _).
    apply (Hstat ["a.ts"; "link.ts"] "link.ts");
      [reflexivity | right; now left | reflexivity].
  - destruct (build_replaces_cache_or_leaves_it now allWrites mixedTree
                noCache) as (_ & _ & Hsame).
    apply Hsame. vm_compute. reflexivity.
Defined.

Lemma resource_uri_round_trip_witness :
  matchRepoUri (resourceUri "nostr" "ndk-mobile") = Some ("nostr", "ndk-mobile")
  /\ matchRepoUri (resourceUri "org" "team/repo") <> Some ("org", "team/repo").
Proof.
  split.
  - apply (resource_uri_round_trip (resourceUri "nostr" "ndk-mobile")).
    repeat split; reflexivity.
  - intros H.
    apply (resource_uri_round_trip (resourceUri "org" "team/repo")) in H.
    destruct H as (_ & _ & H). vm_compute in H. discriminate.
Defined.


Lemma saved_config_reloads_with_default_categories_witness :
  JsObj.keys
    (repositories
       (fst (loadConfig "/home/u/referencerepos"
                        (saveConfig toolsConfig NoFile true) true)))
  = ["nostr"; "databases"; "react-native"; "state-management"; "tools"] /\
  In "nostr"
     (JsObj.keys
        (repositories
           (fst (loadConfig "/home/u/referencerepos"
                            (saveConfig toolsConfig NoFile true) true)))).
Proof.
  split; [reflexivity|].
  destruct (saved_config_reloads_with_default_categories
              "/home/u/referencerepos" toolsConfig NoFile true)
    as (_ & _ & _ & _ & Hdefaults).
  - repeat constructor; simpl; intuition discriminate.
  - apply Hdefaults. now left.
Defined.

Lemma searchCodeWithCache_without_cache_is_searchCode_witness :
  searchCodeWithCache wordRuntime mixedWorld "needle" "*" None None
                      (registry ["lib"])
  = match searchCode (indexEnvOf mixedWorld) mixedWorld "needle" "*" None None
                     (registry ["lib"]) with
    | Some results => results
    | None => []
    end /\
  outline (searchCodeWithCache wordRuntime mixedWorld "needle" "*" None None
                               (registry ["lib"]))
  = [ ("ref", "lib", "a.ts", [1]); ("ref", "lib", "c.ts", [1]) ].
Proof.
  split; [|vm_compute; reflexivity].
  apply (searchCodeWithCache_without_cache_is_searchCode wordRuntime
           (indexEnvOf mixedWorld) mixedWorld "needle" "*" None None
           (registry ["lib"])).
  - intros c r. reflexivity.
  - intros c r. unfold mixedWorld, worldOf.
    destruct (String.eqb c "ref"); [|reflexivity].
    cbn [JsObj.own]. destruct (String.eqb "lib" r); reflexivity.
  - intros r c H. discriminate.
Defined.

Lemma searchCode_ignores_unconfigured_repo_filter_witness :
  searchCode (indexEnvOf mixedWorld) mixedWorld "needle" "*" None
             (Some "unknown") (registry ["lib"])
  = searchCode (indexEnvOf mixedWorld) mixedWorld "needle" "*" None None
               (registry ["lib"]) /\
  searchCodeWithCache wordRuntime mixedWorld "needle" "*" None
                      (Some "unknown") (registry ["lib"]) = [].
Proof.
  split; [|vm_compute; reflexivity].
  apply (searchCode_ignores_unconfigured_repo_filter (indexEnvOf mixedWorld)
           mixedWorld "needle" "*" None "unknown" (registry ["lib"])).
  - intros c cfg [<-|[]] H. vm_compute in H. inversion H. reflexivity.
  - intros c _ _. reflexivity.
Defined.

Lemma uncached_query_concatenates_repository_scans_witness :
  AllScanned mixedWorld "*" None None (registry ["lib"; "absent"]) /\
  searchCodeWithCache wordRuntime mixedWorld "needle" "*" None None
                      (registry ["lib"; "absent"])
  = repoRecords mixedWorld "needle" "*" "ref" "lib"
    ++ repoRecords mixedWorld "needle" "*" "ref" "absent" ++ [] ++ [].
Proof.
  assert (AllScanned mixedWorld "*" None None (registry ["lib"; "absent"]))
    as H.
  { intros c r (Hc & _ & Hr) He.
    destruct Hc as [<-|[]]. destruct Hr as [<-|[<-|[]]].
    - split; [reflexivity | discriminate].
    - discriminate. }
  split; [exact H|].
  exact (uncached_query_concatenates_repository_scans wordRuntime mixedWorld
           "needle" "*" None None (registry ["lib"; "absent"]) H).
Defined.

Lemma plain_identifier_counts_twice_in_terms_witness :
  subTermsOf "needle" = ["needle"; "needle"] /\
  exists idx' processed' e',
    indexTerm "a.ts" 1 "needle" (mkSearchIndex [] [], [])
    = Done (idx', processed') /\
    entryOf (terms idx') "needle" "a.ts" = Some e' /\
    Posting.occurrences e' = 2 /\ Posting.positions e' = [1].
Proof.
  apply (plain_identifier_counts_twice_in_terms "a.ts" 1 "needle"
           (mkSearchIndex [] []) []); try reflexivity.
  vm_compute. lia.
Defined.

Lemma cached_search_is_exact_then_fuzzy_witness :
  searchCached wordRuntime userNameTree "ref" "two" "user" "*"
               (indexOf (cachedRepo userNameTree)) []
  = Done match [] ++ exactPart userNameTree "ref" "two" "user"
                               (indexOf (cachedRepo userNameTree)) with
         | [] => fuzzyPart wordRuntime userNameTree "ref" "two" "user"
                           (indexOf (cachedRepo userNameTree))
         | found => found
         end /\
  outline (fuzzyPart wordRuntime userNameTree "ref" "two" "user"
                     (indexOf (cachedRepo userNameTree)))
  = [ ("ref", "two", "b.ts", [1]); ("ref", "two", "b.ts", [1]) ].
Proof.
  split; [|vm_compute; reflexivity].
  apply (cached_search_is_exact_then_fuzzy wordRuntime userNameTree "ref"
           "two" "user" (indexOf (cachedRepo userNameTree)) []).
  vm_compute. discriminate.
Defined.

Lemma cloneRepo_again_changes_nothing_witness :
  cloneRepo listedDisk (registry ["lib"]) "ref" "lib" false []
  = (["/srv/ref/lib"],
     inl "Repository ref/lib cloned successfully to /srv/ref/lib") /\
  cloneRepo listedDisk (registry ["lib"]) "ref" "lib" true ["/srv/ref/lib"]
  = (["/srv/ref/lib"],
     inl "Repository ref/lib already exists at /srv/ref/lib").
Proof.
  assert (cloneRepo listedDisk (registry ["lib"]) "ref" "lib" false []
          = (["/srv/ref/lib"],
             inl "Repository ref/lib cloned successfully to /srv/ref/lib"))
    as H by reflexivity.
  split; [exact H|].
  apply (cloneRepo_again_changes_nothing (list string) listedDisk
           (registry ["lib"]) "ref" "lib" [repoEntry "lib"] (snd (repoEntry "lib"))
           false true [] ["/srv/ref/lib"]
           "Repository ref/lib cloned successfully to /srv/ref/lib").
  - intros disk url c r shallow disk' G. inversion G; subst.
    cbn [isRepoDirectory listedDisk existsb getRepoPath].
    now rewrite String.eqb_refl.
  - reflexivity.
  - reflexivity.
  - exact H.
Defined.
